(** * Task manager: the task store (src/database/database.ts) and the
      session mirror (src/components/AppLayout.tsx)

    The embedding follows the TypeScript sources.  Asynchronous functions are
    state-passing computations over an explicit world; what the JavaScript
    runtime, expo-sqlite and the identity provider decide (whether a storage
    call fails, what the provider answers) is part of that world. *)

From Stdlib Require Import Ascii String.
From stdpp Require Import base option list strings gmap.

Local Open Scope string_scope.
Local Open Scope Z_scope.
Local Open Scope list_scope.

(** ** Awaited calls *)

(** src/types/PromiseResponseError.type.ts (the optional [details] and
    [stack] carry no behaviour and are left out). *)
Record PromiseResponseError := {
  message : string;
  code : option string;
}.

(** What awaiting a call yields: its value, the error it threw, or nothing at
    all when the awaited promise never settles (no call here has a timeout). *)
Inductive Settled (A : Type) : Type :=
  | Resolved (a : A)
  | Thrown (error : PromiseResponseError)
  | Hangs.
Arguments Resolved {A} a.
Arguments Thrown {A} error.
Arguments Hangs {A}.

(** An async function body run to completion on a world of type [S]. *)
Definition Async (S A : Type) : Type := S -> Settled A * S.

Definition ret {S A : Type} (a : A) : Async S A := fun s => (Resolved a, s).

Definition throw {S A : Type} (error : PromiseResponseError) : Async S A :=
  fun s => (Thrown error, s).

Definition bind {S A B : Type} (m : Async S A) (k : A -> Async S B) : Async S B :=
  fun s =>
    match m s with
    | (Resolved a, s') => k a s'
    | (Thrown error, s') => (Thrown error, s')
    | (Hangs, s') => (Hangs, s')
    end.

(** [try { m } catch (error) { handler error }] *)
Definition try_catch {S A : Type} (m : Async S A)
    (handler : PromiseResponseError -> Async S A) : Async S A :=
  fun s =>
    match m s with
    | (Thrown error, s') => handler error s'
    | r => r
    end.

(** [try { m } finally { cleanup }], for a cleanup that cannot throw. *)
Definition try_finally {S A : Type} (m : Async S A) (cleanup : S -> S) : Async S A :=
  fun s =>
    match m s with
    | (Hangs, s') => (Hangs, s')
    | (r, s') => (r, cleanup s')
    end.

Declare Scope async_scope.
Delimit Scope async_scope with async.
Notation "'let*' x ':=' m 'in' k" := (bind m (fun x => k))
  (at level 10, x name, m at level 100, k at level 200) : async_scope.
Notation "m '>>' k" := (bind m (fun _ => k))
  (at level 90, right associativity) : async_scope.
Local Open Scope async_scope.

(** The faults the environment has in store: one entry per storage call still
    to come, [None] when that call goes through.  Past the end of the list
    every call goes through. *)
Definition Faults : Type := list (option PromiseResponseError).

Definition healthy (faults : Faults) : Prop := Forall (fun f => f = None) faults.

(** ** The tasks table, as expo-sqlite keeps it

    [CREATE TABLE IF NOT EXISTS tasks (
       id INTEGER PRIMARY KEY AUTOINCREMENT,
       title TEXT NOT NULL,
       description TEXT,
       status TEXT DEFAULT 'pending')]

    [description] and [status] are nullable columns. *)
Record Task := {
  id : Z;
  title : string;
  description : option string;
  status : option string;
}.

(** The file taskManager.db: the table (absent until it is created) and the
    AUTOINCREMENT counter SQLite keeps in sqlite_sequence. *)
Record Database := {
  tasks : option (list Task);
  sqlite_sequence : Z;
}.

Definition max_rowid (rows : list Task) : Z := foldr Z.max 0 (map id rows).

(** The three statements the store passes to [runAsync], with their bound
    parameters in the order of the [?] marks.  The description and the
    status bound by the UPDATE are a string or [null]: the screens pass on
    what they read from a row, and the engine binds [null] as NULL. *)
Inductive Sql :=
  | INSERT (title description status : string)
      (* INSERT INTO tasks (title, description, status) VALUES (?, ?, ?) *)
  | UPDATE (title : string) (description status : option string) (task_id : Z)
      (* UPDATE tasks SET title = ?, description = ?, status = ? WHERE id = ? *)
  | DELETE (task_id : Z).
      (* DELETE FROM tasks WHERE id = ? *)

Record SQLiteRunResult := {
  lastInsertRowId : Z;
  changes : nat;
}.

Definition has_id (task_id : Z) (row : Task) : bool := (id row =? task_id)%Z.

Definition no_such_table : PromiseResponseError :=
  {| message := "no such table: tasks"; code := Some "ERR_INTERNAL_SQLITE_ERROR" |}.

(** [CREATE TABLE IF NOT EXISTS]: an existing table is left as it is. *)
Definition create_table (file : Database) : Database :=
  match tasks file with
  | Some _ => file
  | None => {| tasks := Some []; sqlite_sequence := sqlite_sequence file |}
  end.

Definition overwrite (title : string) (description status : option string)
    (row : Task) : Task :=
  {| id := id row;
     title := title;
     description := description;
     status := status |}.

(** One write statement on the rows of the table: the rows after it, the
    counter after it, the rowid it inserted (if any) and the number of rows it
    changed.  AUTOINCREMENT takes one more than the largest rowid the table
    has ever held. *)
Definition run_sql (q : Sql) (rows : list Task) (seq : Z)
    : list Task * Z * option Z * nat :=
  match q with
  | INSERT t d s =>
      let rowid := Z.max seq (max_rowid rows) + 1 in
      (rows ++ [{| id := rowid; title := t; description := Some d; status := Some s |}],
       rowid, Some rowid, 1%nat)
  | UPDATE t d s task_id =>
      (map (fun row => if has_id task_id row then overwrite t d s row else row) rows,
       seq, None, length (filter (fun row => has_id task_id row = true) rows))
  | DELETE task_id =>
      (filter (fun row => has_id task_id row = false) rows,
       seq, None, length (filter (fun row => has_id task_id row = true) rows))
  end.

(** ** The store's world (src/database/database.ts) *)

(** A connection handle returned by [SQLite.openDatabaseAsync]. *)
Definition SQLiteDatabase : Type := nat.

(** Where the executor of a pending [dbPromise] is parked. *)
Inductive Await :=
  | AwaitOpen                           (* await SQLite.openDatabaseAsync(...) *)
  | AwaitExec (newDb : SQLiteDatabase). (* await newDb.execAsync(...) *)

(** A promise object made by [new Promise(...)] in [getDb]. *)
Inductive Promise :=
  | Pending (parked : Await)
  | Fulfilled (value : SQLiteDatabase)
  | Rejected (error : PromiseResponseError).

(** The calls made into expo-sqlite, in the order they are made. *)
Inductive EngineCall :=
  | OpenDatabaseAsync
  | ExecAsync (database : SQLiteDatabase)
  | RunAsync (database : SQLiteDatabase) (q : Sql)
  | GetAllAsync (database : SQLiteDatabase)
  | GetFirstAsync (database : SQLiteDatabase) (task_id : Z).

Record World := {
  db : option SQLiteDatabase;      (* let db: SQLite.SQLiteDatabase | null *)
  dbPromise : option nat;          (* let dbPromise: Promise<...> | null, a reference *)
  promises : list Promise;         (* the promise objects, by reference *)
  file : Database;                 (* taskManager.db *)
  last_insert_rowid : Z;           (* kept by the connection *)
  calls : list EngineCall;
  faults : Faults;
}.

(** The process starts with both module variables [null]. *)
Definition start (file : Database) (faults : Faults) : World :=
  {| db := None; dbPromise := None; promises := []; file := file;
     last_insert_rowid := 0; calls := []; faults := faults |}.

Definition fresh_install : Database := {| tasks := None; sqlite_sequence := 0 |}.

Definition set_db (v : option SQLiteDatabase) (w : World) : World :=
  {| db := v; dbPromise := dbPromise w; promises := promises w; file := file w;
     last_insert_rowid := last_insert_rowid w; calls := calls w; faults := faults w |}.

Definition set_dbPromise (v : option nat) (w : World) : World :=
  {| db := db w; dbPromise := v; promises := promises w; file := file w;
     last_insert_rowid := last_insert_rowid w; calls := calls w; faults := faults w |}.

Definition set_promises (v : list Promise) (w : World) : World :=
  {| db := db w; dbPromise := dbPromise w; promises := v; file := file w;
     last_insert_rowid := last_insert_rowid w; calls := calls w; faults := faults w |}.

Definition set_file (v : Database) (w : World) : World :=
  {| db := db w; dbPromise := dbPromise w; promises := promises w; file := v;
     last_insert_rowid := last_insert_rowid w; calls := calls w; faults := faults w |}.

Definition set_last_insert_rowid (v : Z) (w : World) : World :=
  {| db := db w; dbPromise := dbPromise w; promises := promises w; file := file w;
     last_insert_rowid := v; calls := calls w; faults := faults w |}.

Definition set_faults (v : Faults) (w : World) : World :=
  {| db := db w; dbPromise := dbPromise w; promises := promises w; file := file w;
     last_insert_rowid := last_insert_rowid w; calls := calls w; faults := v |}.

(** Making a call into the engine records it. *)
Definition call (c : EngineCall) (w : World) : World :=
  {| db := db w; dbPromise := dbPromise w; promises := promises w; file := file w;
     last_insert_rowid := last_insert_rowid w; calls := calls w ++ [c];
     faults := faults w |}.

(** [resolve(v)] and [reject(e)] on the promise object [p]. *)
Definition settle (p : nat) (v : Promise) (w : World) : World :=
  set_promises (<[p := v]> (promises w)) w.

(** The rows [SELECT * FROM tasks] would list ([[]] while there is no table). *)
Definition rows (w : World) : list Task := default [] (tasks (file w)).

(** *** getDb *)

(** What a call of the async function [getDb] returns to its caller: a value
    it already had, or a reference to the shared promise object. *)
Inductive Returned :=
  | Value (database : SQLiteDatabase)
  | Reference (promise : nat).

(** The body of [getDb] has no [await] of its own, so a call runs to its
    [return] in one go.  On the third path the executor of the new promise
    runs up to its first [await], that is, it calls [openDatabaseAsync], and
    only then is the promise assigned to [dbPromise]. *)
Definition getDb (w : World) : Returned * World :=
  match db w with
  | Some database => (Value database, w)
  | None =>
      match dbPromise w with
      | Some p => (Reference p, w)
      | None =>
          let p := length (promises w) in
          let w1 := set_promises (promises w ++ [Pending AwaitOpen]) w in
          let w2 := call OpenDatabaseAsync w1 in
          (Reference p, set_dbPromise (Some p) w2)
      end
  end.

(** The executor resumes after [await SQLite.openDatabaseAsync(...)]: with
    the new connection it calls [execAsync]; on a throw it runs the [catch]
    block ([dbPromise = null; reject(error)]). *)
Definition open_settles (p : nat) (o : Settled SQLiteDatabase) (w : World) : World :=
  match promises w !! p with
  | Some (Pending AwaitOpen) =>
      match o with
      | Resolved newDb => call (ExecAsync newDb) (settle p (Pending (AwaitExec newDb)) w)
      | Thrown error => settle p (Rejected error) (set_dbPromise None w)
      | Hangs => w
      end
  | _ => w
  end.

(** The executor resumes after [await newDb.execAsync(...)]: the statement
    has created the table if it was missing; then [db = newDb;
    resolve(newDb)].  On a throw, the same [catch] block. *)
Definition exec_settles (p : nat) (o : Settled unit) (w : World) : World :=
  match promises w !! p with
  | Some (Pending (AwaitExec newDb)) =>
      match o with
      | Resolved _ =>
          settle p (Fulfilled newDb) (set_db (Some newDb) (set_file (create_table (file w)) w))
      | Thrown error => settle p (Rejected error) (set_dbPromise None w)
      | Hangs => w
      end
  | _ => w
  end.

(** What the environment may do to the store between two calls. *)
Inductive Event :=
  | Calls                                                (* somebody calls getDb() *)
  | OpenSettles (p : nat) (o : Settled SQLiteDatabase)
  | ExecSettles (p : nat) (o : Settled unit).

Definition step (e : Event) (w : World) : World :=
  match e with
  | Calls => snd (getDb w)
  | OpenSettles p o => open_settles p o w
  | ExecSettles p o => exec_settles p o w
  end.

Definition run (events : list Event) (w : World) : World :=
  foldl (fun w e => step e w) w events.

(** [n] calls of [getDb] in a row, nothing settling in between: what each
    caller got back, and the world after the last call. *)
Fixpoint call_getDb (n : nat) (w : World) : list Returned * World :=
  match n with
  | O => ([], w)
  | S n' =>
      let (r, w') := getDb w in
      let (rs, w'') := call_getDb n' w' in
      (r :: rs, w'')
  end.

(** What a caller that awaits the returned value observes in world [w]. *)
Definition observed (r : Returned) (w : World) : Settled SQLiteDatabase :=
  match r with
  | Value database => Resolved database
  | Reference p =>
      match promises w !! p with
      | Some (Fulfilled database) => Resolved database
      | Some (Rejected error) => Thrown error
      | _ => Hangs
      end
  end.

Definition is_open (c : EngineCall) : bool :=
  match c with OpenDatabaseAsync => true | _ => false end.

Definition count_open (cs : list EngineCall) : nat :=
  length (filter (fun c => is_open c = true) cs).

Definition is_exec (c : EngineCall) : bool :=
  match c with ExecAsync _ => true | _ => false end.

Definition count_exec (cs : list EngineCall) : nat :=
  length (filter (fun c => is_exec c = true) cs).

(** *** Awaiting, with the engine answering from the fault list *)

Definition pop_fault (w : World) : option PromiseResponseError * World :=
  match faults w with
  | [] => (None, w)
  | f :: fs => (f, set_faults fs w)
  end.

(** One turn of the event loop for the pending promise [p]: the engine call
    its executor is parked on settles.  The connection opened for attempt [p]
    is handle [p]. *)
Definition turn (p : nat) (w : World) : World :=
  match promises w !! p with
  | Some (Pending AwaitOpen) =>
      let (f, w') := pop_fault w in
      open_settles p (match f with None => Resolved p | Some error => Thrown error end) w'
  | Some (Pending (AwaitExec _)) =>
      let (f, w') := pop_fault w in
      exec_settles p (match f with None => Resolved tt | Some error => Thrown error end) w'
  | _ => w
  end.

(** [await getDb()] by a caller that runs alone: the executor has at most two
    awaits left, so two turns settle the promise. *)
Definition await (f : World -> Returned * World) : Async World SQLiteDatabase :=
  fun w =>
    match f w with
    | (Value database, w') => (Resolved database, w')
    | (Reference p, w') =>
        let w'' := turn p (turn p w') in
        (observed (Reference p) w'', w'')
    end.

(** [await database.runAsync(sql, params)] *)
Definition runAsync (database : SQLiteDatabase) (q : Sql) : Async World SQLiteRunResult :=
  fun w =>
    let (f, w1) := pop_fault (call (RunAsync database q) w) in
    match f with
    | Some error => (Thrown error, w1)
    | None =>
        match tasks (file w1) with
        | None => (Thrown no_such_table, w1)
        | Some table =>
            let '(table', seq', inserted, n) := run_sql q table (sqlite_sequence (file w1)) in
            let rowid := default (last_insert_rowid w1) inserted in
            (Resolved {| lastInsertRowId := rowid; changes := n |},
             set_last_insert_rowid rowid
               (set_file {| tasks := Some table'; sqlite_sequence := seq' |} w1))
        end
    end.

(** [await database.getAllAsync('SELECT * FROM tasks')] *)
Definition getAllAsync (database : SQLiteDatabase) : Async World (list Task) :=
  fun w =>
    let (f, w1) := pop_fault (call (GetAllAsync database) w) in
    match f with
    | Some error => (Thrown error, w1)
    | None =>
        match tasks (file w1) with
        | None => (Thrown no_such_table, w1)
        | Some table => (Resolved table, w1)
        end
    end.

(** [await database.getFirstAsync('SELECT * FROM tasks WHERE id = ?', [id])]:
    the first matching row, [null] when there is none. *)
Definition getFirstAsync (database : SQLiteDatabase) (task_id : Z)
    : Async World (option Task) :=
  fun w =>
    let (f, w1) := pop_fault (call (GetFirstAsync database task_id) w) in
    match f with
    | Some error => (Thrown error, w1)
    | None =>
        match tasks (file w1) with
        | None => (Thrown no_such_table, w1)
        | Some table => (Resolved (head (filter (fun row => has_id task_id row = true) table)), w1)
        end
    end.

(** *** The CRUD functions ([console.error] output is not modelled)

    An [id: number] is modelled as an integer: the table holds integer
    rowids only, so a number that is not an integer selects no row, as an
    integer that is absent does. *)

Definition addTask (title description : string) : Async World SQLiteRunResult :=
  let* database := await getDb in
  try_catch
    (let* result := runAsync database (INSERT title description "pending") in
     ret result)
    (fun error => throw error).

Definition getTasks : Async World (list Task) :=
  let* database := await getDb in
  try_catch
    (let* allRows := getAllAsync database in
     ret allRows)
    (fun error => throw error).

Definition getTaskById (task_id : Z) : Async World (option Task) :=
  let* database := await getDb in
  try_catch
    (let* row := getFirstAsync database task_id in
     ret row)
    (fun error => throw error).

(** [updateTask] as it runs.  The parameter types of the source are erased
    at run time and the body checks nothing, so the function binds whatever
    description and status it is handed: a string, or the [null] a screen
    read from a row whose column is NULL. *)
Definition updateTask_unchecked (task_id : Z) (title : string)
    (description status : option string) : Async World SQLiteRunResult :=
  let* database := await getDb in
  try_catch
    (let* result := runAsync database (UPDATE title description status task_id) in
     ret result)
    (fun error => throw error).

(** [updateTask] at its declared type: [description] and [status] are
    strings. *)
Definition updateTask (task_id : Z) (title description status : string)
    : Async World SQLiteRunResult :=
  updateTask_unchecked task_id title (Some description) (Some status).

Definition deleteTask (task_id : Z) : Async World SQLiteRunResult :=
  let* database := await getDb in
  try_catch
    (let* result := runAsync database (DELETE task_id) in
     ret result)
    (fun error => throw error).

(** The calls into the store, at the declared types of its functions. *)
Inductive StoreCall :=
  | AddTask (title description : string)
  | GetTasks
  | GetTaskById (task_id : Z)
  | UpdateTask (task_id : Z) (title description status : string)
  | DeleteTask (task_id : Z).

Definition perform (c : StoreCall) (w : World) : World :=
  match c with
  | AddTask t d => snd (addTask t d w)
  | GetTasks => snd (getTasks w)
  | GetTaskById i => snd (getTaskById i w)
  | UpdateTask i t d s => snd (updateTask i t d s w)
  | DeleteTask i => snd (deleteTask i w)
  end.

Definition perform_all (cs : list StoreCall) (w : World) : World :=
  foldl (fun w c => perform c w) w cs.

(** The closed enumeration of the spec, on a nullable column. *)
Definition enumerated (s : option string) : Prop :=
  s = Some "pending" \/ s = Some "completed".

Definition writes_enumerated (c : StoreCall) : Prop :=
  match c with
  | UpdateTask _ _ _ s => enumerated (Some s)
  | _ => True
  end.

(** What holds of the store in every state the code can bring it to. *)
Record store_ok (w : World) : Prop := {
  ok_primary_key : NoDup (map id (rows w));
  ok_table : forall database, db w = Some database -> is_Some (tasks (file w));
  ok_in_flight : forall p, db w = None -> dbPromise w = Some p ->
                   exists parked, promises w !! p = Some (Pending parked);
}.

(** ** The session mirror (src/components/AppLayout.tsx) *)

Record UserInfo := {
  name : string;
  email : string;
  picture : string;
}.

(** The host's [JSON.stringify] and [JSON.parse], at the shape the component
    uses them; [JSON_parse] is [None] where [JSON.parse] throws. *)
Class Json := {
  JSON_stringify : UserInfo -> string;
  JSON_parse : string -> option UserInfo;
}.

(** What the component relies on: parsing gives back what was written, and a
    written object is never the empty (falsy) string. *)
Class JsonLaws `{Json} : Prop := {
  parse_stringify : forall user, JSON_parse (JSON_stringify user) = Some user;
  stringify_truthy : forall user, JSON_stringify user <> "";
}.

Inductive AlertShown :=
  | ErroNoLogin     (* Alert.alert('Erro no Login', ...) *)
  | Deslogado.      (* Alert.alert('Deslogado', ...) *)

Record Session := {
  userInfo : option UserInfo;          (* useState<UserInfo | null>(null) *)
  loadingAuth : bool;                  (* useState(true) *)
  AsyncStorage : gmap string string;   (* expo-sqlite/kv-store *)
  storage_faults : Faults;
  alerts : list AlertShown;
}.

Definition setUserInfo (v : option UserInfo) : Async Session unit :=
  fun s => (Resolved tt,
            {| userInfo := v; loadingAuth := loadingAuth s; AsyncStorage := AsyncStorage s;
               storage_faults := storage_faults s; alerts := alerts s |}).

Definition setLoadingAuth (v : bool) (s : Session) : Session :=
  {| userInfo := userInfo s; loadingAuth := v; AsyncStorage := AsyncStorage s;
     storage_faults := storage_faults s; alerts := alerts s |}.

Definition Alert_alert (a : AlertShown) : Async Session unit :=
  fun s => (Resolved tt,
            {| userInfo := userInfo s; loadingAuth := loadingAuth s;
               AsyncStorage := AsyncStorage s; storage_faults := storage_faults s;
               alerts := alerts s ++ [a] |}).

(** A call into the key-value store: it throws when the environment says so,
    and then leaves the store as it was. *)
Definition storage_call {A : Type} (f : gmap string string -> A * gmap string string)
    : Async Session A :=
  fun s =>
    let rest := tail (storage_faults s) in
    match head (storage_faults s) with
    | Some (Some error) =>
        (Thrown error,
         {| userInfo := userInfo s; loadingAuth := loadingAuth s;
            AsyncStorage := AsyncStorage s; storage_faults := rest; alerts := alerts s |})
    | _ =>
        let (a, kv) := f (AsyncStorage s) in
        (Resolved a,
         {| userInfo := userInfo s; loadingAuth := loadingAuth s;
            AsyncStorage := kv; storage_faults := rest; alerts := alerts s |})
    end.

Definition setItem (key value : string) : Async Session unit :=
  storage_call (fun kv => (tt, <[key := value]> kv)).

Definition getItem (key : string) : Async Session (option string) :=
  storage_call (fun kv => (kv !! key, kv)).

Definition removeItem (key : string) : Async Session unit :=
  storage_call (fun kv => (tt, delete key kv)).

(** JavaScript truthiness of a string: every string but the empty one. *)
Definition truthy (v : string) : bool :=
  match v with
  | EmptyString => false
  | String _ _ => true
  end.

Definition syntax_error : PromiseResponseError :=
  {| message := "SyntaxError: JSON Parse error"; code := None |}.

Section mirror.
Context `{Json}.

(** The identity provider: what [fetch(.../userinfo/v2/me)] followed by
    [res.json()] yields for a bearer token. *)
Variable provider : string -> Settled UserInfo.

Definition fetch_json (accessToken : string) : Async Session UserInfo :=
  fun s => (provider accessToken, s).

(** completeSignIn *)
Definition fetchUserInfo (accessToken : string) : Async Session unit :=
  try_catch
    (let* user := fetch_json accessToken in
     setUserInfo (Some user) >>
     setItem "userToken" accessToken >>
     setItem "userInfo" (JSON_stringify user))
    (fun error => Alert_alert ErroNoLogin).

(** restoreSession *)
Definition checkStoredUser : Async Session unit :=
  fun s =>
    try_finally
      (try_catch
         (let* storedUserInfo := getItem "userInfo" in
          match storedUserInfo with
          | Some v =>
              if truthy v then
                match JSON_parse v with
                | Some user => setUserInfo (Some user)
                | None => throw syntax_error
                end
              else ret tt
          | None => ret tt
          end)
         (fun error => ret tt))
      (setLoadingAuth false)
      (setLoadingAuth true s).

(** signOut *)
Definition handleLogout : Async Session unit :=
  removeItem "userToken" >>
  removeItem "userInfo" >>
  setUserInfo None >>
  Alert_alert Deslogado.

(** A cold start: the component state is back at its [useState] defaults,
    the key-value store is as it was left. *)
Definition cold_start (s : Session) : Session :=
  {| userInfo := None; loadingAuth := true; AsyncStorage := AsyncStorage s;
     storage_faults := storage_faults s; alerts := [] |}.

Inductive MirrorCall :=
  | CompleteSignIn (accessToken : string)
  | RestoreSession          (* on mount, after a cold start *)
  | SignOut.

Definition mirror (c : MirrorCall) (s : Session) : Session :=
  match c with
  | CompleteSignIn accessToken => snd (fetchUserInfo accessToken s)
  | RestoreSession => snd (checkStoredUser (cold_start s))
  | SignOut => snd (handleLogout s)
  end.

Definition mirror_all (cs : list MirrorCall) (s : Session) : Session :=
  foldl (fun s c => mirror c s) s cs.
End mirror.

(** The app as first installed: nothing stored, nobody signed in. *)
Definition first_launch (storage_faults : Faults) : Session :=
  {| userInfo := None; loadingAuth := true; AsyncStorage := ∅;
     storage_faults := storage_faults; alerts := [] |}.

Definition fully_absent (s : Session) : Prop :=
  AsyncStorage s !! "userToken" = None /\
  AsyncStorage s !! "userInfo" = None /\
  userInfo s = None.

Definition fully_present (s : Session) : Prop :=
  is_Some (AsyncStorage s !! "userToken") /\
  is_Some (AsyncStorage s !! "userInfo") /\
  is_Some (userInfo s).

(** The in-memory identity is the one the store holds. *)
Definition mirrored `{Json} (s : Session) : Prop :=
  exists user,
    userInfo s = Some user /\
    AsyncStorage s !! "userInfo" = Some (JSON_stringify user) /\
    is_Some (AsyncStorage s !! "userToken").

(** *** A JSON codec for the three identity fields

    An instance of [Json] that writes
    [{"name":"...","email":"...","picture":"..."}] with the double quote and
    the backslash escaped, and reads it back. *)

Definition dquote : ascii := "034"%char.
Definition backslash : ascii := "092"%char.

Fixpoint escape (v : string) : string :=
  match v with
  | EmptyString => EmptyString
  | String c rest =>
      if decide (c = dquote \/ c = backslash)
      then String backslash (String c (escape rest))
      else String c (escape rest)
  end.

(** Read an escaped string up to its closing double quote. *)
Fixpoint read_string (v : string) : option (string * string) :=
  match v with
  | EmptyString => None
  | String c rest =>
      if decide (c = dquote) then Some (EmptyString, rest)
      else if decide (c = backslash) then
        match rest with
        | EmptyString => None
        | String c' rest' =>
            match read_string rest' with
            | Some (body, after) => Some (String c' body, after)
            | None => None
            end
        end
      else
        match read_string rest with
        | Some (body, after) => Some (String c body, after)
        | None => None
        end
  end.

Fixpoint strip_prefix (prefix v : string) : option string :=
  match prefix, v with
  | EmptyString, _ => Some v
  | String c prefix', String c' v' =>
      if decide (c = c') then strip_prefix prefix' v' else None
  | String _ _, EmptyString => None
  end.

Definition member (key : string) : string :=
  String dquote key +:+ String dquote (String ":" (String dquote EmptyString)).

Definition write_user (user : UserInfo) : string :=
  "{" +:+ member "name" +:+ escape (name user) +:+ String dquote
    ("," +:+ member "email" +:+ escape (email user) +:+ String dquote
       ("," +:+ member "picture" +:+ escape (picture user) +:+ String dquote "}")).

Definition read_user (v : string) : option UserInfo :=
  v1 ← strip_prefix ("{" +:+ member "name") v;
  '(n, v2) ← read_string v1;
  v3 ← strip_prefix ("," +:+ member "email") v2;
  '(e, v4) ← read_string v3;
  v5 ← strip_prefix ("," +:+ member "picture") v4;
  '(p, v6) ← read_string v5;
  if decide (v6 = "}") then Some {| name := n; email := e; picture := p |} else None.

Definition plain_json : Json :=
  {| JSON_stringify := write_user; JSON_parse := read_user |}.

(** An identity provider that knows one bearer token, and a storage fault. *)
Definition ada : UserInfo :=
  {| name := "Ada Lovelace"; email := "ada@example.org";
     picture := "https://example.org/ada.png" |}.

Definition unauthorized : PromiseResponseError :=
  {| message := "Network request failed"; code := None |}.

Definition one_provider (accessToken : string) : Settled UserInfo :=
  if decide (accessToken = "token-1") then Resolved ada else Thrown unauthorized.

Definition storage_down : PromiseResponseError :=
  {| message := "database or disk is full"; code := Some "ERR_INTERNAL_SQLITE_ERROR" |}.

(** The guard of [getDb], as an invariant of the module state: a pending
    promise is the one [dbPromise] refers to; a fulfilled promise is the one
    [dbPromise] refers to and its connection is the cached one; [dbPromise]
    never refers to a rejected promise; and the engine was asked to open once
    per promise made. *)
Record one_attempt (w : World) : Prop := {
  pending_is_marked : forall p parked,
    promises w !! p = Some (Pending parked) -> dbPromise w = Some p /\ db w = None;
  fulfilled_is_cached : forall p database,
    promises w !! p = Some (Fulfilled database) ->
    dbPromise w = Some p /\ db w = Some database;
  marked_is_live : forall p error,
    dbPromise w = Some p -> promises w !! p <> Some (Rejected error);
  opened_per_promise : count_open (calls w) = length (promises w);
}.

Definition is_rejected (v : Promise) : bool :=
  match v with Rejected _ => true | _ => false end.

(** An attempt that fails: at the open ([None]), or at the schema statement
    once the open has given connection [newDb]. *)
Definition attempt_fails (failed_at : option SQLiteDatabase)
    (error : PromiseResponseError) (p : nat) (w : World) : World :=
  match failed_at with
  | None => open_settles p (Thrown error) w
  | Some newDb => exec_settles p (Thrown error) (open_settles p (Resolved newDb) w)
  end.

(** The shape addTask, updateTask and deleteTask share. *)
Definition store_write (q : Sql) : Async World SQLiteRunResult :=
  let* database := await getDb in
  try_catch
    (let* result := runAsync database q in
     ret result)
    (fun error => throw error).

(** The affected-row count a caller reads off what a mutation returned. *)
Definition changes_of (o : Settled SQLiteRunResult) : option nat :=
  match o with
  | Resolved result => Some (changes result)
  | _ => None
  end.

(** A write statement that binds no status outside the enumeration. *)
Definition binds_enumerated (q : Sql) : Prop :=
  match q with
  | INSERT _ _ s => enumerated (Some s)
  | UPDATE _ _ s _ => enumerated s
  | DELETE _ => True
  end.

Definition all_enumerated (table : list Task) : Prop :=
  Forall (fun row => enumerated (status row)) table.

(** *** What a screen does around a mutation: load, mutate, load again *)

Definition add_then_list (title description : string)
    : Async World (list Task * SQLiteRunResult * list Task) :=
  let* before := getTasks in
  let* result := addTask title description in
  let* after := getTasks in
  ret (before, result, after).

Definition update_then_get (task_id : Z) (title description status : string)
    : Async World (option Task) :=
  updateTask task_id title description status >>
  getTaskById task_id.

Definition delete_then_get (task_id : Z)
    : Async World (list Task * option Task * list Task) :=
  let* before := getTasks in
  let* result := deleteTask task_id in
  let* row := getTaskById task_id in
  let* after := getTasks in
  ret (before, row, after).

(** The scenario of the spec, as far as the store goes: add a task, list,
    mark it completed, list, delete it, list. *)
Definition buy_milk : Async World (list Task * list Task * list Task) :=
  let* added := addTask "Buy milk" "" in
  let* listed := getTasks in
  updateTask (lastInsertRowId added) "Buy milk" "" "completed" >>
  let* toggled := getTasks in
  deleteTask (lastInsertRowId added) >>
  let* emptied := getTasks in
  ret (listed, toggled, emptied).

(** A store with one task in it, on a healthy engine. *)
Definition one_task : World :=
  snd (addTask "Buy milk" "" (start fresh_install [])).


(** ** More of the store *)

(** What a call into the store gives back to the screen that made it. *)
Inductive StoreValue :=
  | RunResult (result : SQLiteRunResult)   (* addTask, updateTask, deleteTask *)
  | AllRows (allRows : list Task)          (* getTasks *)
  | FirstRow (row : option Task).          (* getTaskById *)

Definition invoke (c : StoreCall) : Async World StoreValue :=
  match c with
  | AddTask t d => let* result := addTask t d in ret (RunResult result)
  | GetTasks => let* allRows := getTasks in ret (AllRows allRows)
  | GetTaskById i => let* row := getTaskById i in ret (FirstRow row)
  | UpdateTask i t d s => let* result := updateTask i t d s in ret (RunResult result)
  | DeleteTask i => let* result := deleteTask i in ret (RunResult result)
  end.

(** The one call a store function makes on the connection it got. *)
Definition statement (database : SQLiteDatabase) (c : StoreCall) : EngineCall :=
  match c with
  | AddTask t d => RunAsync database (INSERT t d "pending")
  | GetTasks => GetAllAsync database
  | GetTaskById i => GetFirstAsync database i
  | UpdateTask i t d s => RunAsync database (UPDATE t (Some d) (Some s) i)
  | DeleteTask i => RunAsync database (DELETE i)
  end.

(** No column left NULL, although the schema allows it for two of them. *)
Definition never_null (table : list Task) : Prop :=
  Forall (fun row => is_Some (description row) /\ is_Some (status row)) table.

(** A write statement that binds no [null]. *)
Definition binds_no_null (q : Sql) : Prop :=
  match q with
  | UPDATE _ d s _ => is_Some d /\ is_Some s
  | _ => True
  end.

(** The faults of an open that fails with [error]: at once, or at the schema
    statement after the file was opened. *)
Definition failing_open (at_schema : bool) (error : PromiseResponseError) : Faults :=
  if at_schema then [None; Some error] else [Some error].

(** A call into the engine that binds no status outside the enumeration:
    the log of the calls holds every statement that was ever asked for. *)
Definition call_enumerated (c : EngineCall) : Prop :=
  match c with
  | RunAsync _ q => binds_enumerated q
  | _ => True
  end.

(** The invariant of the statuses: every row of the table has a status of
    the enumeration, and no statement the engine was ever asked to run binds
    another. *)
Definition clean (w : World) : Prop :=
  all_enumerated (rows w) /\ Forall call_enumerated (calls w).

(** ** More of the layout and of the app root *)

(** [userInfo.name.split(' ')[0]], the name the header shows: the name up to
    its first space. *)
Fixpoint first_word (name : string) : string :=
  match name with
  | EmptyString => EmptyString
  | String c rest => if decide (c = " "%char) then EmptyString else String c (first_word rest)
  end.

Fixpoint has_space (v : string) : bool :=
  match v with
  | EmptyString => false
  | String c rest => if decide (c = " "%char) then true else has_space rest
  end.

(** Running a computation on a part of the state. *)
Definition lifted {S T A : Type} (get : T -> S) (set : S -> T -> T) (m : Async S A)
    : Async T A :=
  fun t => let (o, s) := m (get t) in (o, set s t).

(** App.tsx: the root shows a loading view until [dbInitialized] is set. *)
Record AppState := {
  app_store : World;
  dbInitialized : bool;              (* useState(false) *)
}.

Definition set_app_store (w : World) (a : AppState) : AppState :=
  {| app_store := w; dbInitialized := dbInitialized a |}.

Definition setDbInitialized (v : bool) : Async AppState unit :=
  fun a => (Resolved tt, {| app_store := app_store a; dbInitialized := v |}).

(** The [initialize] function of the mount effect of App. *)
Definition initialize : Async AppState unit :=
  try_catch
    (lifted app_store set_app_store (await getDb) >>
     setDbInitialized true)
    (fun error => ret tt).

Definition launch (file0 : Database) (fs : Faults) : AppState :=
  {| app_store := start file0 fs; dbInitialized := false |}.

(** ** The screens (src/screens)

    A screen is its React state, the alerts it has shown and the navigation
    actions it has dispatched, next to the store it calls into.  A handler
    reads the state of the render it was created in; here it reads the state
    it is run on. *)

Inductive NavAction :=
  | GoBack                          (* navigation.goBack() *)
  | Navigate (route : string).      (* navigation.navigate(route) *)

Record Screen (L : Type) := {
  screen_store : World;
  screen_state : L;                              (* the useState cells *)
  screen_alerts : list (string * string);        (* Alert.alert(title, message) *)
  screen_navigation : list NavAction;
}.
Arguments screen_store {L} _.
Arguments screen_state {L} _.
Arguments screen_alerts {L} _.
Arguments screen_navigation {L} _.

Definition set_screen_store {L : Type} (w : World) (s : Screen L) : Screen L :=
  {| screen_store := w; screen_state := screen_state s;
     screen_alerts := screen_alerts s; screen_navigation := screen_navigation s |}.

Definition set_screen_state {L : Type} (f : L -> L) (s : Screen L) : Screen L :=
  {| screen_store := screen_store s; screen_state := f (screen_state s);
     screen_alerts := screen_alerts s; screen_navigation := screen_navigation s |}.

(** A call into the store from a screen. *)
Definition in_store {L A : Type} (m : Async World A) : Async (Screen L) A :=
  lifted screen_store set_screen_store m.

(** A state setter. *)
Definition set_state {L : Type} (f : L -> L) : Async (Screen L) unit :=
  fun s => (Resolved tt, set_screen_state f s).

Definition Alert_box {L : Type} (title message : string) : Async (Screen L) unit :=
  fun s => (Resolved tt,
            {| screen_store := screen_store s; screen_state := screen_state s;
               screen_alerts := screen_alerts s ++ [(title, message)];
               screen_navigation := screen_navigation s |}).

Definition dispatch {L : Type} (a : NavAction) : Async (Screen L) unit :=
  fun s => (Resolved tt,
            {| screen_store := screen_store s; screen_state := screen_state s;
               screen_alerts := screen_alerts s;
               screen_navigation := screen_navigation s ++ [a] |}).

(** An async function called without [await]: it runs on, and neither its
    value nor its error reaches the caller. *)
Definition not_awaited {S A : Type} (m : Async S A) : Async S unit :=
  fun s => (Resolved tt, snd (m s)).

(** The screens read rows at the TypeScript type [Task], whose [description]
    and [status] are strings, through an unchecked cast: at run time either
    is the column's string or [null], and is passed on as it is.  The form
    alone reads the description as [task.description || '']: [null] (and the
    empty string) gives the empty string. *)
Definition text (column : option string) : string := default "" column.

(** Which button of the confirmation alert the user pressed, if any. *)
Inductive Pressed :=
  | PressedCancelar
  | PressedExcluir
  | Dismissed.

(** *** The task list (TaskList.screen.tsx) *)

Inductive FilterStatus :=
  | FilterAll          (* 'all' *)
  | FilterPending      (* 'pending' *)
  | FilterCompleted.   (* 'completed' *)

Record TaskList := {
  list_tasks : list Task;          (* const [tasks, setTasks] = useState<Task[]>([]) *)
  list_loading : bool;             (* const [loading, setLoading] = useState(true) *)
  list_filter : FilterStatus;      (* const [filter, setFilter] = useState('all') *)
}.

Module TaskListScreen.

Definition mounted (w : World) : Screen TaskList :=
  {| screen_store := w;
     screen_state := {| list_tasks := []; list_loading := true; list_filter := FilterAll |};
     screen_alerts := []; screen_navigation := [] |}.

Definition setTasks (v : list Task) (l : TaskList) : TaskList :=
  {| list_tasks := v; list_loading := list_loading l; list_filter := list_filter l |}.

Definition setLoading (v : bool) (l : TaskList) : TaskList :=
  {| list_tasks := list_tasks l; list_loading := v; list_filter := list_filter l |}.

Definition setFilter (v : FilterStatus) (l : TaskList) : TaskList :=
  {| list_tasks := list_tasks l; list_loading := list_loading l; list_filter := v |}.

Definition loadTasks : Async (Screen TaskList) unit :=
  fun s =>
    try_finally
      (try_catch
         (let* fetchedTasks := in_store getTasks in
          set_state (setTasks fetchedTasks))
         (fun error => Alert_box "Erro" "Não foi possível carregar as tarefas."))
      (set_screen_state (setLoading false))
      (set_screen_state (setLoading true) s).

(** [tasks.filter(task => filter === 'all' ? true : task.status === filter)] *)
Definition shown_under (filter : FilterStatus) (task : Task) : bool :=
  match filter with
  | FilterAll => true
  | FilterPending => bool_decide (status task = Some "pending")
  | FilterCompleted => bool_decide (status task = Some "completed")
  end.

Definition filteredTasks (filter : FilterStatus) (tasks : list Task) : list Task :=
  List.filter (shown_under filter) tasks.

(** [currentStatus === 'pending' ? 'completed' : 'pending'] *)
Definition newStatus (currentStatus : option string) : string :=
  if bool_decide (currentStatus = Some "pending") then "completed" else "pending".

Definition toggleTaskStatus (taskId : Z) (currentStatus : option string)
    : Async (Screen TaskList) unit :=
  try_catch
    (fun s =>
       match List.find (fun task => id task =? taskId) (list_tasks (screen_state s)) with
       | Some taskToUpdate =>
           (in_store (updateTask_unchecked taskId (title taskToUpdate)
                        (description taskToUpdate) (Some (newStatus currentStatus))) >>
            not_awaited loadTasks) s
       | None => ret tt s
       end)
    (fun error => Alert_box "Erro" "Não foi possível atualizar o status da tarefa.").

Definition handleDeleteTask (task_id : Z) (pressed : Pressed)
    : Async (Screen TaskList) unit :=
  Alert_box "Confirmar Exclusão" "Tem certeza que deseja excluir esta tarefa?" >>
  match pressed with
  | PressedExcluir =>
      try_catch
        (in_store (deleteTask task_id) >>
         Alert_box "Sucesso" "Tarefa excluída com sucesso!" >>
         not_awaited loadTasks)
        (fun error => Alert_box "Erro" "Não foi possível excluir a tarefa.")
  | _ => ret tt
  end.

(** What the user can do on the list. *)
Inductive Action :=
  | Focus                                                (* the focus listener: loadTasks() *)
  | Toggle (taskId : Z) (currentStatus : option string)
  | Delete (task_id : Z) (pressed : Pressed)
  | Filter (filter : FilterStatus).

Definition act (a : Action) (s : Screen TaskList) : Screen TaskList :=
  match a with
  | Focus => snd (loadTasks s)
  | Toggle taskId currentStatus => snd (toggleTaskStatus taskId currentStatus s)
  | Delete task_id pressed => snd (handleDeleteTask task_id pressed s)
  | Filter filter => set_screen_state (setFilter filter) s
  end.

Definition act_all (actions : list Action) (s : Screen TaskList) : Screen TaskList :=
  foldl (fun s a => act a s) s actions.

End TaskListScreen.

(** *** The task form (TaskForm.screen.tsx) *)

Record TaskForm := {
  form_title : string;          (* const [title, setTitle] = useState('') *)
  form_description : string;    (* const [description, setDescription] = useState('') *)
  form_status : option string;  (* const [status, setStatus] = useState('pending');
                                   null once a row with a NULL status was loaded *)
  form_loading : bool;          (* const [loading, setLoading] = useState(false) *)
}.

(** The [taskId] of [if (taskId)]: an id that is given and is not 0. *)
Definition given_id (taskId : option Z) : option Z :=
  match taskId with
  | Some i => if i =? 0 then None else Some i
  | None => None
  end.

Module TaskFormScreen.
Section handlers.
(** The host's [String.prototype.trim]. *)
Variable trim : string -> string.
(** [route.params?.taskId] *)
Variable taskId : option Z.

Definition mounted (w : World) : Screen TaskForm :=
  {| screen_store := w;
     screen_state := {| form_title := ""; form_description := "";
                        form_status := Some "pending"; form_loading := false |};
     screen_alerts := []; screen_navigation := [] |}.

Definition setTitle (v : string) (l : TaskForm) : TaskForm :=
  {| form_title := v; form_description := form_description l;
     form_status := form_status l; form_loading := form_loading l |}.

Definition setDescription (v : string) (l : TaskForm) : TaskForm :=
  {| form_title := form_title l; form_description := v;
     form_status := form_status l; form_loading := form_loading l |}.

Definition setStatus (v : option string) (l : TaskForm) : TaskForm :=
  {| form_title := form_title l; form_description := form_description l;
     form_status := v; form_loading := form_loading l |}.

Definition setLoading (v : bool) (l : TaskForm) : TaskForm :=
  {| form_title := form_title l; form_description := form_description l;
     form_status := form_status l; form_loading := v |}.

Definition loadTask (task_id : Z) : Async (Screen TaskForm) unit :=
  fun s =>
    try_finally
      (try_catch
         (let* task := in_store (getTaskById task_id) in
          match task with
          | Some task =>
              set_state (setTitle (title task)) >>
              set_state (setDescription (text (description task))) >>
              set_state (setStatus (status task))
          | None =>
              Alert_box "Erro" "Tarefa não encontrada." >>
              dispatch GoBack
          end)
         (fun error =>
            Alert_box "Erro" "Não foi possível carregar a tarefa." >>
            dispatch GoBack))
      (set_screen_state (setLoading false))
      (set_screen_state (setLoading true) s).

(** The mount effect: [if (taskId) { loadTask() }]. *)
Definition on_mount : Async (Screen TaskForm) unit :=
  match given_id taskId with
  | Some task_id => loadTask task_id
  | None => ret tt
  end.

Definition handleSaveTask : Async (Screen TaskForm) unit :=
  fun s =>
    let l := screen_state s in
    if decide (trim (form_title l) = "") then
      Alert_box "Erro" "O título da tarefa não pode estar vazio." s
    else
      try_finally
        (try_catch
           (match given_id taskId with
            | Some task_id =>
                in_store (updateTask_unchecked task_id (form_title l)
                            (Some (form_description l)) (form_status l)) >>
                Alert_box "Sucesso" "Tarefa atualizada com sucesso!"
            | None =>
                in_store (addTask (form_title l) (form_description l)) >>
                Alert_box "Sucesso" "Tarefa adicionada com sucesso!"
            end >>
            dispatch GoBack)
           (fun error => Alert_box "Erro" "Não foi possível salvar a tarefa."))
        (set_screen_state (setLoading false))
        (set_screen_state (setLoading true) s).

End handlers.
End TaskFormScreen.

(** *** The task detail (TaskDetail.screen.tsx) *)

Record TaskDetail := {
  detail_task : option Task;    (* const [task, setTask] = useState(null) *)
  detail_loading : bool;        (* const [loading, setLoading] = useState(true) *)
}.

Module TaskDetailScreen.
Section handlers.
(** [route.params.taskId] *)
Variable taskId : Z.

Definition mounted (w : World) : Screen TaskDetail :=
  {| screen_store := w;
     screen_state := {| detail_task := None; detail_loading := true |};
     screen_alerts := []; screen_navigation := [] |}.

Definition setTask (v : option Task) (l : TaskDetail) : TaskDetail :=
  {| detail_task := v; detail_loading := detail_loading l |}.

Definition setLoading (v : bool) (l : TaskDetail) : TaskDetail :=
  {| detail_task := detail_task l; detail_loading := v |}.

Definition loadTask : Async (Screen TaskDetail) unit :=
  fun s =>
    try_finally
      (try_catch
         (let* fetchedTask := in_store (getTaskById taskId) in
          match fetchedTask with
          | Some task => set_state (setTask (Some task))
          | None =>
              Alert_box "Erro" "Tarefa não encontrada." >>
              dispatch GoBack
          end)
         (fun error =>
            Alert_box "Erro" "Não foi possível carregar os detalhes da tarefa." >>
            dispatch GoBack))
      (set_screen_state (setLoading false))
      (set_screen_state (setLoading true) s).

Definition handleDeleteTask (pressed : Pressed) : Async (Screen TaskDetail) unit :=
  Alert_box "Confirmar Exclusão" "Tem certeza que deseja excluir esta tarefa?" >>
  match pressed with
  | PressedExcluir =>
      try_catch
        (in_store (deleteTask taskId) >>
         Alert_box "Sucesso" "Tarefa excluída com sucesso!" >>
         dispatch (Navigate "TaskList"))
        (fun error => Alert_box "Erro" "Não foi possível excluir a tarefa.")
  | _ => ret tt
  end.

End handlers.
End TaskDetailScreen.

(** A [trim] for the examples: it strips ASCII white space at both ends. *)
Fixpoint trim_left (v : string) : string :=
  match v with
  | EmptyString => EmptyString
  | String c rest => if Ascii.is_space c then trim_left rest else v
  end.

Definition trim_ascii (v : string) : string :=
  String.rev (trim_left (String.rev (trim_left v))).

(** ** States for the examples *)

(** A store with two tasks, and the list screen showing the one-task store. *)
Definition two_tasks : World := snd (addTask "Walk dog" "" one_task).

Definition listed : Screen TaskList :=
  snd (TaskListScreen.loadTasks (TaskListScreen.mounted one_task)).

Definition buy_milk_row : Task :=
  {| id := 1; title := "Buy milk"; description := Some ""; status := Some "pending" |}.

(** The form over the one-task store, as the user has filled it in. *)
Definition typed (title description status : string) : Screen TaskForm :=
  {| screen_store := one_task;
     screen_state := {| form_title := title; form_description := description;
                        form_status := Some status; form_loading := false |};
     screen_alerts := []; screen_navigation := [] |}.

(** The same form when the next engine call is going to fail. *)
Definition typed_offline (title description status : string) : Screen TaskForm :=
  set_screen_store (set_faults [Some storage_down] one_task)
    (typed title description status).

(** The detail screen after it has loaded task 1 of the one-task store. *)
Definition detailed : Screen TaskDetail :=
  snd (TaskDetailScreen.loadTask 1 (TaskDetailScreen.mounted one_task)).

(** A file written by something else than this app: its one row has a NULL
    description.  The list screen after it has loaded that file. *)
Definition legacy_file : Database :=
  {| tasks := Some [{| id := 1; title := "Old"; description := None;
                       status := Some "pending" |}];
     sqlite_sequence := 1 |}.

Definition legacy_listed : Screen TaskList :=
  snd (TaskListScreen.loadTasks (TaskListScreen.mounted (start legacy_file []))).

(** ** The running app: the three screens over the one store *)

(** The screens of the stack navigator share the module variables of
    database.ts and the file, and each keeps its React state.  The alerts a
    handler shows and the navigation it asks for are not read by any handler,
    so they are dropped between two events; which screen is in front is not
    tracked either: any event may follow any other, which allows at least
    every order the navigator allows.  A handler runs to its end before the
    next event is taken. *)
Record Running := {
  running_store : World;
  on_list : TaskList;
  form_route : option Z;           (* route.params?.taskId of the form *)
  on_form : TaskForm;
  detail_route : Z;                (* route.params.taskId of the detail screen *)
  on_detail : TaskDetail;
}.

Definition shown {L : Type} (w : World) (state : L) : Screen L :=
  {| screen_store := w; screen_state := state;
     screen_alerts := []; screen_navigation := [] |}.

Definition with_list (s : Screen TaskList) (a : Running) : Running :=
  {| running_store := screen_store s; on_list := screen_state s;
     form_route := form_route a; on_form := on_form a;
     detail_route := detail_route a; on_detail := on_detail a |}.

Definition with_form (taskId : option Z) (s : Screen TaskForm) (a : Running) : Running :=
  {| running_store := screen_store s; on_list := on_list a;
     form_route := taskId; on_form := screen_state s;
     detail_route := detail_route a; on_detail := on_detail a |}.

Definition with_detail (taskId : Z) (s : Screen TaskDetail) (a : Running) : Running :=
  {| running_store := screen_store s; on_list := on_list a;
     form_route := form_route a; on_form := on_form a;
     detail_route := taskId; on_detail := screen_state s |}.

(** The two status buttons of the form: [setStatus('pending')] and
    [setStatus('completed')]. *)
Inductive StatusButton :=
  | PendingButton
  | CompletedButton.

Definition button_status (b : StatusButton) : string :=
  match b with
  | PendingButton => "pending"
  | CompletedButton => "completed"
  end.

(** What the user can do. *)
Inductive UserEvent :=
  | OnList (action : TaskListScreen.Action)
  | OpenForm (taskId : option Z)        (* navigate('TaskForm', { taskId }), or without *)
  | ChangeTitle (v : string)            (* onChangeText={setTitle} *)
  | ChangeDescription (v : string)      (* onChangeText={setDescription} *)
  | PressStatus (b : StatusButton)
  | PressSave                           (* onPress={handleSaveTask} *)
  | OpenDetail (taskId : Z)             (* navigate('TaskDetail', { taskId }), then focus *)
  | FocusDetail                         (* the focus listener: loadTask() *)
  | PressDelete (pressed : Pressed).    (* onPress={handleDeleteTask} on the detail screen *)

Section running.
(** The host's [String.prototype.trim]. *)
Variable trim : string -> string.

Definition handle (e : UserEvent) (a : Running) : Running :=
  let w := running_store a in
  match e with
  | OnList action => with_list (TaskListScreen.act action (shown w (on_list a))) a
  | OpenForm taskId =>
      with_form taskId
        (snd (TaskFormScreen.on_mount taskId (TaskFormScreen.mounted w))) a
  | ChangeTitle v =>
      with_form (form_route a)
        (set_screen_state (TaskFormScreen.setTitle v) (shown w (on_form a))) a
  | ChangeDescription v =>
      with_form (form_route a)
        (set_screen_state (TaskFormScreen.setDescription v) (shown w (on_form a))) a
  | PressStatus b =>
      with_form (form_route a)
        (set_screen_state (TaskFormScreen.setStatus (Some (button_status b)))
           (shown w (on_form a))) a
  | PressSave =>
      with_form (form_route a)
        (snd (TaskFormScreen.handleSaveTask trim (form_route a) (shown w (on_form a)))) a
  | OpenDetail taskId =>
      with_detail taskId
        (snd (TaskDetailScreen.loadTask taskId (TaskDetailScreen.mounted w))) a
  | FocusDetail =>
      with_detail (detail_route a)
        (snd (TaskDetailScreen.loadTask (detail_route a) (shown w (on_detail a)))) a
  | PressDelete pressed =>
      with_detail (detail_route a)
        (snd (TaskDetailScreen.handleDeleteTask (detail_route a) pressed
                (shown w (on_detail a)))) a
  end.

Definition handle_all (events : list UserEvent) (a : Running) : Running :=
  foldl (fun a e => handle e a) a events.

End running.

(** The app once the mount effect of the root has run on the file it found:
    the three screens in their first state. *)
Definition started (file0 : Database) (fs : Faults) : Running :=
  let w := app_store (snd (initialize (launch file0 fs))) in
  {| running_store := w;
     on_list := screen_state (TaskListScreen.mounted w);
     form_route := None;
     on_form := screen_state (TaskFormScreen.mounted w);
     detail_route := 0;
     on_detail := screen_state (TaskDetailScreen.mounted w) |}.

Ltac world_simpl :=
  unfold settle, call, set_db, set_dbPromise, set_promises, set_file,
    set_last_insert_rowid, set_faults;
  cbn [db dbPromise promises file last_insert_rowid calls faults].

(** * Facts about getDb *)

Section getDb_facts.
Implicit Types (w : World) (p : nat) (database newDb : SQLiteDatabase).

Lemma getDb_idle w :
  db w = None -> dbPromise w = None ->
  getDb w =
    (Reference (length (promises w)),
     set_dbPromise (Some (length (promises w)))
       (call OpenDatabaseAsync (set_promises (promises w ++ [Pending AwaitOpen]) w))).
Proof. intros Hdb Hp. unfold getDb. by rewrite Hdb, Hp. Qed.

Lemma getDb_in_flight w p :
  db w = None -> dbPromise w = Some p -> getDb w = (Reference p, w).
Proof. intros Hdb Hp. unfold getDb. by rewrite Hdb, Hp. Qed.

Lemma getDb_opened w database :
  db w = Some database -> getDb w = (Value database, w).
Proof. intros Hdb. unfold getDb. by rewrite Hdb. Qed.

Lemma call_getDb_in_flight n w p :
  db w = None -> dbPromise w = Some p ->
  call_getDb n w = (replicate n (Reference p), w).
Proof.
  intros Hdb Hp. induction n as [|n IH]; simpl; [done|].
  by rewrite (getDb_in_flight _ p), IH.
Qed.

Lemma call_getDb_opened n w database :
  db w = Some database ->
  call_getDb n w = (replicate n (Value database), w).
Proof.
  intros Hdb. induction n as [|n IH]; simpl; [done|].
  by rewrite (getDb_opened _ database), IH.
Qed.

(** The first of [S n] calls starts the open, the others share its promise. *)
Lemma call_getDb_idle n w :
  db w = None -> dbPromise w = None ->
  call_getDb (S n) w =
    (replicate (S n) (Reference (length (promises w))), snd (getDb w)).
Proof.
  intros Hdb Hp. simpl. rewrite getDb_idle by done. simpl.
  by rewrite (call_getDb_in_flight n _ (length (promises w))).
Qed.

Lemma lookup_fresh (ps : list Promise) (v : Promise) :
  (ps ++ [v]) !! length ps = Some v.
Proof. by apply list_lookup_middle. Qed.

Lemma insert_fresh (ps : list Promise) (v v' : Promise) :
  <[length ps := v']> (ps ++ [v]) = ps ++ [v'].
Proof.
  rewrite insert_app_r_alt by lia. by rewrite Nat.sub_diag.
Qed.

Lemma Forall_replicate_same {A} (P : A -> Prop) n x : P x -> Forall P (replicate n x).
Proof. intros HP. induction n; simpl; by constructor. Qed.
End getDb_facts.

Section getDb_claims.
Implicit Types (w : World) (newDb : SQLiteDatabase).

Lemma count_open_app cs cs' :
  count_open (cs ++ cs') = (count_open cs + count_open cs')%nat.
Proof. unfold count_open. by rewrite filter_app, length_app. Qed.

Lemma count_exec_app cs cs' :
  count_exec (cs ++ cs') = (count_exec cs + count_exec cs')%nat.
Proof. unfold count_exec. by rewrite filter_app, length_app. Qed.

(** C1.  From a store with no connection and no open in flight, let N = S n1
    callers call getDb before the open settles, n2 more before the schema
    statement settles and n3 after it.  Then the engine has been asked to
    open once and to run the schema statement once, every one of the callers
    observes the same connection [newDb], whose table exists, and the n3 late
    calls return that connection as a value, leaving the world untouched. *)
Theorem getDb_opens_once (n1 n2 n3 : nat) newDb w :
  db w = None -> dbPromise w = None ->
  let p := length (promises w) in
  let '(rs1, w1) := call_getDb (S n1) w in
  let w2 := open_settles p (Resolved newDb) w1 in
  let '(rs2, w3) := call_getDb n2 w2 in
  let w4 := exec_settles p (Resolved tt) w3 in
  let '(rs3, w5) := call_getDb n3 w4 in
  calls w5 = calls w ++ [OpenDatabaseAsync; ExecAsync newDb] /\
  count_open (calls w5) = S (count_open (calls w)) /\
  count_exec (calls w5) = S (count_exec (calls w)) /\
  length rs1 = S n1 /\ length rs2 = n2 /\ length rs3 = n3 /\
  Forall (fun r => observed r w5 = Resolved newDb) (rs1 ++ rs2 ++ rs3) /\
  db w5 = Some newDb /\
  is_Some (tasks (file w5)) /\
  rs3 = replicate n3 (Value newDb) /\
  w5 = w4.
Proof.
  intros Hdb Hp p. subst p.
  rewrite call_getDb_idle by done. rewrite getDb_idle by done.
  destruct w as [d dp ps f l cs fs]; simpl in Hdb, Hp; subst d dp.
  cbn [snd].
  unfold open_settles. world_simpl. rewrite lookup_fresh. world_simpl.
  rewrite insert_fresh.
  erewrite (call_getDb_in_flight n2) by (cbn; done).
  unfold exec_settles. world_simpl. rewrite lookup_fresh. world_simpl.
  rewrite insert_fresh.
  erewrite (call_getDb_opened n3) by (cbn; done).
  world_simpl.
  rewrite <- (assoc_L (++)). cbn [app].
  repeat split.
  - rewrite count_open_app.
    change (count_open [OpenDatabaseAsync; ExecAsync newDb]) with 1%nat. lia.
  - rewrite count_exec_app.
    change (count_exec [OpenDatabaseAsync; ExecAsync newDb]) with 1%nat. lia.
  - by rewrite length_replicate.
  - by rewrite length_replicate.
  - by rewrite length_replicate.
  - assert (Hobs : observed (Reference (length ps))
      {| db := Some newDb; dbPromise := Some (length ps);
         promises := ps ++ [Fulfilled newDb]; file := create_table f;
         last_insert_rowid := l;
         calls := cs ++ [OpenDatabaseAsync; ExecAsync newDb];
         faults := fs |} = Resolved newDb).
    { unfold observed. cbn [promises]. by rewrite lookup_fresh. }
    rewrite !Forall_app. repeat split; by apply Forall_replicate_same.
  - unfold create_table. destruct (tasks f) as [table|] eqn:Htasks; simpl; [|by eexists].
    rewrite Htasks. by eexists.
Qed.

Lemma getDb_opens_once_witness :
  let w := start fresh_install [] in
  db w = None /\ dbPromise w = None /\
  let '(rs1, w1) := call_getDb 3 w in
  let w2 := open_settles 0 (Resolved 7%nat) w1 in
  let '(rs2, w3) := call_getDb 2 w2 in
  let w4 := exec_settles 0 (Resolved tt) w3 in
  let '(rs3, w5) := call_getDb 1 w4 in
  calls w5 = [OpenDatabaseAsync; ExecAsync 7%nat] /\
  Forall (fun r => observed r w5 = Resolved 7%nat) (rs1 ++ rs2 ++ rs3).
Proof.
  split; [reflexivity|]. split; [reflexivity|].
  pose proof (getDb_opens_once 2 2 1 7%nat (start fresh_install [])
                eq_refl eq_refl) as H.
  vm_compute in H. destruct H as (Hcalls & _ & _ & _ & _ & _ & Hall & _).
  vm_compute. split; [exact Hcalls | exact Hall].
Defined.
(** C6.  From a store with no connection and no open in flight, let S n
    callers share an attempt that fails with [error], at the open or at the
    schema statement.  Then no connection is cached, the in-flight marker is
    cleared, every one of the callers observes [error], and the next call of
    getDb starts a second attempt: it asks the engine to open again and
    returns a new promise, still pending, not the rejected one. *)
Theorem getDb_failure_retries (n : nat) (failed_at : option SQLiteDatabase)
    (error : PromiseResponseError) w :
  db w = None -> dbPromise w = None ->
  let p := length (promises w) in
  let '(rs, w1) := call_getDb (S n) w in
  let w2 := attempt_fails failed_at error p w1 in
  db w2 = None /\ dbPromise w2 = None /\
  length rs = S n /\
  Forall (fun r => observed r w2 = Thrown error) rs /\
  file w2 = file w /\
  (let '(r, w3) := getDb w2 in
   r = Reference (S p) /\
   promises w3 !! S p = Some (Pending AwaitOpen) /\
   promises w3 !! p = Some (Rejected error) /\
   dbPromise w3 = Some (S p) /\
   count_open (calls w3) = S (S (count_open (calls w)))).
Proof.
  intros Hdb Hp p. subst p.
  rewrite call_getDb_idle by done. rewrite getDb_idle by done.
  destruct w as [d dp ps f l cs fs]; simpl in Hdb, Hp; subst d dp.
  cbn [snd].
  assert (Hlen : forall v : Promise, length (ps ++ [v]) = S (length ps)).
  { intros v. rewrite length_app. simpl. lia. }
  assert (Hold : forall v v' : Promise,
             ((ps ++ [v]) ++ [v']) !! length ps = Some v).
  { intros v v'. rewrite lookup_app_l by (rewrite Hlen; lia).
    apply lookup_fresh. }
  destruct failed_at as [newDb|]; unfold attempt_fails, open_settles;
    world_simpl; rewrite lookup_fresh; world_simpl; rewrite insert_fresh.
  - unfold exec_settles. world_simpl. rewrite lookup_fresh. world_simpl.
    rewrite insert_fresh. unfold getDb. world_simpl.
    rewrite Hlen, <- (Hlen (Rejected error)), lookup_fresh, Hlen, Hold.
    repeat split; try done.
    + by rewrite length_replicate.
    + apply Forall_replicate_same. unfold observed. cbn [promises].
      by rewrite lookup_fresh.
    + rewrite <- !(assoc_L (++)). rewrite count_open_app. cbn [app].
      change (count_open [_; _; _]) with 2%nat. lia.
  - unfold getDb. world_simpl.
    rewrite Hlen, <- (Hlen (Rejected error)), lookup_fresh, Hlen, Hold.
    repeat split; try done.
    + by rewrite length_replicate.
    + apply Forall_replicate_same. unfold observed. cbn [promises].
      by rewrite lookup_fresh.
    + rewrite <- !(assoc_L (++)). rewrite count_open_app. cbn [app].
      change (count_open [_; _]) with 2%nat. lia.
Qed.
End getDb_claims.

Lemma getDb_failure_retries_witness :
  let w := start fresh_install [] in
  db w = None /\ dbPromise w = None /\
  let w2 := attempt_fails (Some 3%nat) no_such_table 0 (snd (call_getDb 2 w)) in
  dbPromise w2 = None /\ fst (getDb w2) = Reference 1.
Proof.
  pose proof (getDb_failure_retries 1 (Some 3%nat) no_such_table
                (start fresh_install []) eq_refl eq_refl) as H.
  vm_compute in H. destruct H as (_ & Hmarker & _ & _ & _ & Hnext & _).
  vm_compute. split; [reflexivity|]. split; [reflexivity|].
  split; [exact Hmarker | exact Hnext].
Defined.

(** * One attempt at a time, whatever the environment does *)

Section one_attempt_facts.
Implicit Types (w : World) (p : nat).

Lemma one_attempt_start file0 fs : one_attempt (start file0 fs).
Proof. split; done. Qed.

Lemma one_attempt_getDb w : one_attempt w -> one_attempt (snd (getDb w)).
Proof.
  intros Hinv. unfold getDb.
  destruct (db w) as [database|] eqn:Hdb; [exact Hinv|].
  destruct (dbPromise w) as [p0|] eqn:Hdp; [exact Hinv|].
  destruct Hinv as [Hpend Hful Hlive Hopens]. cbn [snd]. split; world_simpl.
  - intros p parked [[Hlt Hold]|[-> _]]%lookup_snoc_Some; [|done].
    destruct (Hpend p parked Hold) as [Hmark _]. congruence.
  - intros p database [[Hlt Hold]|[_ [=]]]%lookup_snoc_Some.
    destruct (Hful p database Hold) as [Hmark _]. congruence.
  - intros p error [= Hp]. subst p. by rewrite lookup_fresh.
  - rewrite count_open_app, length_app, Hopens. done.
Qed.

Lemma one_attempt_open_settles p o w :
  one_attempt w -> one_attempt (open_settles p o w).
Proof.
  intros Hinv. unfold open_settles.
  destruct (promises w !! p) as [[[|newDb]| |]|] eqn:Hp; try exact Hinv.
  destruct (pending_is_marked w Hinv p _ Hp) as [Hmark Hdb].
  destruct Hinv as [Hpend Hful Hlive Hopens].
  destruct o as [newDb|error|]; [| |by split].
  - split; world_simpl.
    + intros q parked [(-> & _ & _)|[Hne Hold]]%list_lookup_insert_Some; [done|].
      by apply (Hpend q parked).
    + intros q database [(_ & [=] & _)|[Hne Hold]]%list_lookup_insert_Some.
      by apply Hful.
    + intros q error Hq [(_ & [=] & _)|[Hne Hold]]%list_lookup_insert_Some.
      by apply (Hlive q error).
    + rewrite count_open_app, length_insert, Hopens.
      change (count_open [ExecAsync newDb]) with 0%nat. lia.
  - split; world_simpl.
    + intros q parked [(_ & [=] & _)|[Hne Hold]]%list_lookup_insert_Some.
      destruct (Hpend q parked Hold) as [Hq _]. congruence.
    + intros q database [(_ & [=] & _)|[Hne Hold]]%list_lookup_insert_Some.
      destruct (Hful q database Hold) as [_ Hq]. congruence.
    + done.
    + by rewrite length_insert.
Qed.

Lemma one_attempt_exec_settles p o w :
  one_attempt w -> one_attempt (exec_settles p o w).
Proof.
  intros Hinv. unfold exec_settles.
  destruct (promises w !! p) as [[[|newDb]| |]|] eqn:Hp; try exact Hinv.
  destruct (pending_is_marked w Hinv p _ Hp) as [Hmark Hdb].
  destruct Hinv as [Hpend Hful Hlive Hopens].
  destruct o as [[]|error|]; [| |by split].
  - split; world_simpl.
    + intros q parked [(_ & [=] & _)|[Hne Hold]]%list_lookup_insert_Some.
      destruct (Hpend q parked Hold) as [Hq _]. congruence.
    + intros q database [(-> & [= ->] & _)|[Hne Hold]]%list_lookup_insert_Some; [done|].
      destruct (Hful q database Hold) as [_ Hq]. congruence.
    + intros q error Hq [(_ & [=] & _)|[Hne Hold]]%list_lookup_insert_Some.
      by apply (Hlive q error).
    + by rewrite length_insert.
  - split; world_simpl.
    + intros q parked [(_ & [=] & _)|[Hne Hold]]%list_lookup_insert_Some.
      destruct (Hpend q parked Hold) as [Hq _]. congruence.
    + intros q database [(_ & [=] & _)|[Hne Hold]]%list_lookup_insert_Some.
      destruct (Hful q database Hold) as [_ Hq]. congruence.
    + done.
    + by rewrite length_insert.
Qed.

(** In every state reached from the start of the process by calls of getDb
    and by engine calls settling, in any order and with any outcome, the
    guard holds. *)
Lemma one_attempt_run events file0 fs : one_attempt (run events (start file0 fs)).
Proof.
  unfold run. generalize (one_attempt_start file0 fs). generalize (start file0 fs).
  induction events as [|e events IH]; intros w Hinv; simpl; [done|].
  apply IH. destruct e as [|p o|p o]; simpl.
  - by apply one_attempt_getDb.
  - by apply one_attempt_open_settles.
  - by apply one_attempt_exec_settles.
Qed.

(** So two promises that have not been rejected are one and the same: no
    second open is ever started while one is in flight or has succeeded, and
    the engine has been asked to open once per failed attempt, plus once. *)
Lemma live_promise_unique w p q v v' :
  one_attempt w ->
  promises w !! p = Some v -> is_rejected v = false ->
  promises w !! q = Some v' -> is_rejected v' = false ->
  p = q.
Proof.
  intros Hinv Hp Hv Hq Hv'.
  assert (Hmark : forall k u, promises w !! k = Some u -> is_rejected u = false ->
                              dbPromise w = Some k).
  { intros k [parked|database|error] Hk Hu; [| |done].
    - by destruct (pending_is_marked w Hinv k parked Hk).
    - by destruct (fulfilled_is_cached w Hinv k database Hk). }
  pose proof (Hmark p v Hp Hv). pose proof (Hmark q v' Hq Hv'). congruence.
Qed.
End one_attempt_facts.

(** * The store's invariant *)

Section invariant.
Implicit Types (w : World) (p : nat).

Lemma rows_create_table file0 :
  default [] (tasks (create_table file0)) = default [] (tasks file0).
Proof.
  unfold create_table. destruct (tasks file0) as [table|] eqn:Htasks; simpl; [|done].
  by rewrite Htasks.
Qed.

Lemma create_table_is_Some file0 : is_Some (tasks (create_table file0)).
Proof.
  unfold create_table. destruct (tasks file0) as [table|] eqn:Htasks; simpl.
  - rewrite Htasks. eauto.
  - eauto.
Qed.

Lemma sequence_create_table file0 :
  sqlite_sequence (create_table file0) = sqlite_sequence file0.
Proof. unfold create_table. by destruct (tasks file0). Qed.

Lemma pop_fault_frame w :
  let w' := snd (pop_fault w) in
  db w' = db w /\ dbPromise w' = dbPromise w /\ promises w' = promises w /\
  file w' = file w /\ last_insert_rowid w' = last_insert_rowid w /\
  calls w' = calls w /\ faults w' = tail (faults w).
Proof. unfold pop_fault. destruct (faults w) eqn:E; simpl; rewrite ?E; done. Qed.

Lemma pop_fault_healthy w :
  healthy (faults w) ->
  fst (pop_fault w) = None /\ healthy (faults (snd (pop_fault w))).
Proof.
  unfold healthy, pop_fault. intros Hh. destruct (faults w) as [|f fs] eqn:E; simpl.
  - by rewrite E.
  - inversion Hh; subst. done.
Qed.

Lemma store_ok_open_settles p o w : store_ok w -> store_ok (open_settles p o w).
Proof.
  intros [Hkey Htable Hflight]. unfold open_settles.
  destruct (promises w !! p) as [[[|newDb]| |]|] eqn:Hp; try done.
  destruct o as [newDb|error|]; [| |done].
  - split; world_simpl; [done|done|].
    intros q Hdb Hq. destruct (decide (q = p)) as [->|Hne].
    + exists (AwaitExec newDb). apply list_lookup_insert_eq.
      by eapply lookup_lt_Some.
    + rewrite list_lookup_insert_ne by done. by apply Hflight.
  - split; world_simpl; done.
Qed.

Lemma store_ok_exec_settles p o w : store_ok w -> store_ok (exec_settles p o w).
Proof.
  intros [Hkey Htable Hflight]. unfold exec_settles.
  destruct (promises w !! p) as [[[|newDb]| |]|] eqn:Hp; try done.
  destruct o as [[]|error|]; [| |done].
  - split; world_simpl; [|intros; apply create_table_is_Some|done].
    unfold rows in *. cbn [file]. by rewrite rows_create_table.
  - split; world_simpl; done.
Qed.

Lemma store_ok_pop_fault w : store_ok w -> store_ok (snd (pop_fault w)).
Proof.
  intros [Hkey Htable Hflight].
  destruct (pop_fault_frame w) as (Hdb & Hdp & Hps & Hf & _).
  split; unfold rows; rewrite ?Hdb, ?Hdp, ?Hps, ?Hf; done.
Qed.

Lemma store_ok_turn p w : store_ok w -> store_ok (turn p w).
Proof.
  intros Hok. unfold turn.
  destruct (promises w !! p) as [[[|newDb]| |]|]; try done;
    destruct (pop_fault w) as [f w'] eqn:E;
    pose proof (store_ok_pop_fault w Hok) as Hok'; rewrite E in Hok';
    [by apply store_ok_open_settles | by apply store_ok_exec_settles].
Qed.

Lemma store_ok_getDb w : store_ok w -> store_ok (snd (getDb w)).
Proof.
  intros Hok. unfold getDb.
  destruct (db w) eqn:Hdb; [exact Hok|].
  destruct (dbPromise w) eqn:Hdp; [exact Hok|].
  destruct Hok as [Hkey Htable Hflight].
  split; world_simpl; [done|by rewrite Hdb|].
  intros p _ [= <-]. exists AwaitOpen. apply lookup_fresh.
Qed.

Lemma store_ok_start file0 fs :
  NoDup (map id (default [] (tasks file0))) -> store_ok (start file0 fs).
Proof. intros Hkey. split; done. Qed.
End invariant.

(** * Awaiting getDb *)

Section awaiting.
Implicit Types (w : World) (p : nat) (database : SQLiteDatabase).

Lemma healthy_tail (fs : Faults) : healthy fs -> healthy (tail fs).
Proof. unfold healthy. intros Hh. destruct fs; [done|]. by inversion Hh. Qed.

Lemma turn_pending_open w p :
  promises w !! p = Some (Pending AwaitOpen) -> healthy (faults w) ->
  promises (turn p w) !! p = Some (Pending (AwaitExec p)) /\
  db (turn p w) = db w /\ file (turn p w) = file w /\
  last_insert_rowid (turn p w) = last_insert_rowid w /\
  healthy (faults (turn p w)).
Proof.
  intros Hp Hh. unfold turn. rewrite Hp.
  destruct (pop_fault_healthy w Hh) as [Hnone Hh'].
  destruct (pop_fault_frame w) as (Hdb & Hdp & Hps & Hf & Hl & Hc & Hfs).
  destruct (pop_fault w) as [f w']; simpl in *; subst f.
  unfold open_settles. rewrite Hps, Hp. world_simpl.
  rewrite Hps, list_lookup_insert_eq by (by eapply lookup_lt_Some).
  done.
Qed.

Lemma turn_pending_exec w p database :
  promises w !! p = Some (Pending (AwaitExec database)) -> healthy (faults w) ->
  promises (turn p w) !! p = Some (Fulfilled database) /\
  db (turn p w) = Some database /\ file (turn p w) = create_table (file w) /\
  last_insert_rowid (turn p w) = last_insert_rowid w /\
  healthy (faults (turn p w)).
Proof.
  intros Hp Hh. unfold turn. rewrite Hp.
  destruct (pop_fault_healthy w Hh) as [Hnone Hh'].
  destruct (pop_fault_frame w) as (Hdb & Hdp & Hps & Hf & Hl & Hc & Hfs).
  destruct (pop_fault w) as [f w']; simpl in *; subst f.
  unfold exec_settles. rewrite Hps, Hp. world_simpl.
  rewrite Hps, Hf, list_lookup_insert_eq by (by eapply lookup_lt_Some).
  done.
Qed.

Lemma turn_fulfilled w p database :
  promises w !! p = Some (Fulfilled database) -> turn p w = w.
Proof. intros Hp. unfold turn. by rewrite Hp. Qed.

(** The rows, the AUTOINCREMENT counter and the connection's last rowid are
    not touched by the opening of the database, whatever its outcome. *)
Lemma turn_frame w p :
  rows (turn p w) = rows w /\
  sqlite_sequence (file (turn p w)) = sqlite_sequence (file w) /\
  last_insert_rowid (turn p w) = last_insert_rowid w.
Proof.
  unfold turn.
  destruct (pop_fault_frame w) as (Hdb & Hdp & Hps & Hf & Hl & Hc & Hfs).
  destruct (promises w !! p) as [[[|newDb]| |]|] eqn:Hp; try done;
    destruct (pop_fault w) as [[error|] w']; simpl in *.
  - unfold open_settles. rewrite Hps, Hp. unfold rows. world_simpl.
    by rewrite Hf, Hl.
  - unfold open_settles. rewrite Hps, Hp. unfold rows. world_simpl.
    by rewrite Hf, Hl.
  - unfold exec_settles. rewrite Hps, Hp. unfold rows. world_simpl.
    by rewrite Hf, Hl.
  - unfold exec_settles. rewrite Hps, Hp. unfold rows. world_simpl.
    by rewrite Hf, Hl, rows_create_table, sequence_create_table.
Qed.

Lemma getDb_frame w :
  rows (snd (getDb w)) = rows w /\
  sqlite_sequence (file (snd (getDb w))) = sqlite_sequence (file w) /\
  last_insert_rowid (snd (getDb w)) = last_insert_rowid w /\
  faults (snd (getDb w)) = faults w.
Proof.
  unfold getDb. destruct (db w); [done|]. by destruct (dbPromise w).
Qed.

Lemma await_getDb_frame w :
  rows (snd (await getDb w)) = rows w /\
  sqlite_sequence (file (snd (await getDb w))) = sqlite_sequence (file w) /\
  last_insert_rowid (snd (await getDb w)) = last_insert_rowid w.
Proof.
  unfold await. destruct (getDb_frame w) as (Hr & Hs & Hl & _).
  destruct (getDb w) as [[database|p] w1]; simpl in *; [done|].
  destruct (turn_frame w1 p) as (Hr1 & Hs1 & Hl1).
  destruct (turn_frame (turn p w1) p) as (Hr2 & Hs2 & Hl2).
  by rewrite Hr2, Hs2, Hl2, Hr1, Hs1, Hl1.
Qed.

Lemma store_ok_await_getDb w : store_ok w -> store_ok (snd (await getDb w)).
Proof.
  intros Hok. unfold await. pose proof (store_ok_getDb w Hok) as Hok1.
  destruct (getDb w) as [[database|p] w1]; simpl in *; [done|].
  by do 2 apply store_ok_turn.
Qed.

(** Two turns settle a pending promise when the engine is healthy. *)
Lemma turns_settle w p parked :
  promises w !! p = Some (Pending parked) -> healthy (faults w) ->
  exists database,
    observed (Reference p) (turn p (turn p w)) = Resolved database /\
    db (turn p (turn p w)) = Some database /\
    healthy (faults (turn p (turn p w))).
Proof.
  intros Hp Hh. destruct parked as [|newDb].
  - destruct (turn_pending_open w p Hp Hh) as (Hp1 & _ & _ & _ & Hh1).
    destruct (turn_pending_exec _ p p Hp1 Hh1) as (Hp2 & Hdb2 & _ & _ & Hh2).
    exists p. unfold observed. by rewrite Hp2.
  - destruct (turn_pending_exec w p newDb Hp Hh) as (Hp1 & Hdb1 & _ & _ & Hh1).
    rewrite (turn_fulfilled _ p newDb Hp1).
    exists newDb. unfold observed. by rewrite Hp1.
Qed.

(** On a healthy engine [await getDb()] yields a connection, which is then
    the cached one, and the table exists. *)
Lemma await_getDb_healthy w :
  store_ok w -> healthy (faults w) ->
  exists database w',
    await getDb w = (Resolved database, w') /\
    db w' = Some database /\ store_ok w' /\ healthy (faults w') /\
    tasks (file w') = Some (rows w) /\
    sqlite_sequence (file w') = sqlite_sequence (file w) /\
    last_insert_rowid w' = last_insert_rowid w.
Proof.
  intros Hok Hh.
  pose proof (store_ok_await_getDb w Hok) as Hok'.
  destruct (await_getDb_frame w) as (Hr & Hs & Hl).
  assert (Hres : exists database,
             fst (await getDb w) = Resolved database /\
             db (snd (await getDb w)) = Some database /\
             healthy (faults (snd (await getDb w)))).
  { unfold await. unfold getDb.
    destruct (db w) as [database|] eqn:Hdb; [by exists database|].
    destruct (dbPromise w) as [p|] eqn:Hdp.
    - destruct (ok_in_flight w Hok p Hdb Hdp) as [parked Hp].
      by apply (turns_settle w p parked).
    - apply (turns_settle _ _ AwaitOpen); [|done].
      world_simpl. apply lookup_fresh. }
  destruct Hres as (database & Ho & Hdb' & Hh').
  destruct (await getDb w) as [o w'] eqn:Haw; simpl in *; subst o.
  exists database, w'. split_and!; try done.
  destruct (ok_table w' Hok' database Hdb') as [table Htable].
  unfold rows in Hr. rewrite Htable in Hr. simpl in Hr. by rewrite Htable, Hr.
Qed.

(** One turn moves a pending promise on: from the open to the schema
    statement, or to its settlement. *)
Lemma turn_moves_on w p parked :
  promises w !! p = Some (Pending parked) ->
  (parked = AwaitOpen /\
   exists newDb, promises (turn p w) !! p = Some (Pending (AwaitExec newDb))) \/
  (exists database, promises (turn p w) !! p = Some (Fulfilled database)) \/
  (exists error, promises (turn p w) !! p = Some (Rejected error)).
Proof.
  intros Hp. unfold turn. rewrite Hp.
  destruct (pop_fault_frame w) as (Hdb & Hdp & Hps & Hf & Hl & Hc & Hfs).
  assert (Hlt : (p < length (promises w))%nat) by (by eapply lookup_lt_Some).
  destruct parked as [|newDb]; destruct (pop_fault w) as [[error|] w']; simpl in *.
  - right. right. exists error. unfold open_settles. rewrite Hps, Hp. world_simpl.
    by rewrite Hps, list_lookup_insert_eq.
  - left. split; [done|]. exists p. unfold open_settles. rewrite Hps, Hp. world_simpl.
    by rewrite Hps, list_lookup_insert_eq.
  - right. right. exists error. unfold exec_settles. rewrite Hps, Hp. world_simpl.
    by rewrite Hps, list_lookup_insert_eq.
  - right. left. exists newDb. unfold exec_settles. rewrite Hps, Hp. world_simpl.
    by rewrite Hps, list_lookup_insert_eq.
Qed.

Lemma turn_rejected w p error :
  promises w !! p = Some (Rejected error) -> turn p w = w.
Proof. intros Hp. unfold turn. by rewrite Hp. Qed.

(** [await getDb()] always comes back, with a connection or with the error:
    a caller running alone is never left hanging by the store. *)
Lemma await_getDb_settles w : store_ok w -> fst (await getDb w) <> Hangs.
Proof.
  intros Hok.
  assert (Hturns : forall w1 p parked,
            promises w1 !! p = Some (Pending parked) ->
            observed (Reference p) (turn p (turn p w1)) <> Hangs).
  { intros w1 p parked Hp. unfold observed.
    destruct (turn_moves_on w1 p parked Hp)
      as [[_ [newDb Hp1]]|[[database Hp1]|[error Hp1]]].
    - destruct (turn_moves_on _ p _ Hp1)
        as [[[=] _]|[[database Hp2]|[error Hp2]]]; by rewrite Hp2.
    - by rewrite (turn_fulfilled _ p database Hp1), Hp1.
    - by rewrite (turn_rejected _ p error Hp1), Hp1. }
  unfold await, getDb.
  destruct (db w) as [database|] eqn:Hdb; [done|].
  destruct (dbPromise w) as [p|] eqn:Hdp.
  - destruct (ok_in_flight w Hok p Hdb Hdp) as [parked Hp].
    by apply (Hturns w p parked).
  - apply (Hturns _ _ AwaitOpen). world_simpl. apply lookup_fresh.
Qed.

Lemma await_getDb_opened w database :
  db w = Some database -> await getDb w = (Resolved database, w).
Proof. intros Hdb. unfold await. by rewrite (getDb_opened w database). Qed.
End awaiting.

(** * The statements, on rows *)

Section rows_facts.
Implicit Types (table : list Task) (i : Z).

Lemma max_rowid_ge table i : i ∈ map id table -> i <= max_rowid table.
Proof.
  unfold max_rowid. induction table as [|row table IH]; simpl.
  - by intros ?%elem_of_nil.
  - intros [->|Hin]%elem_of_cons; [lia|]. specialize (IH Hin). lia.
Qed.

Lemma fresh_rowid table seq : Z.max seq (max_rowid table) + 1 ∉ map id table.
Proof. intros Hin%max_rowid_ge. lia. Qed.

Lemma has_id_true i row : has_id i row = true <-> id row = i.
Proof. unfold has_id. apply Z.eqb_eq. Qed.

Lemma has_id_false i row : has_id i row = false <-> id row <> i.
Proof. unfold has_id. apply Z.eqb_neq. Qed.

Lemma map_id_overwrite i t d s table :
  map id (map (fun row => if has_id i row then overwrite t d s row else row) table)
  = map id table.
Proof.
  induction table as [|row table IH]; simpl; [done|].
  rewrite IH. by destruct (has_id i row).
Qed.

Lemma filter_missing i table :
  i ∉ map id table -> filter (fun row => has_id i row = true) table = [].
Proof.
  induction table as [|row table IH]; simpl; [done|].
  intros Hnot. rewrite not_elem_of_cons in Hnot. destruct Hnot as [Hne Hnot].
  rewrite filter_cons_False by (rewrite has_id_true; congruence).
  by apply IH.
Qed.

Lemma filter_others_missing i table :
  i ∉ map id table -> filter (fun row => has_id i row = false) table = table.
Proof.
  induction table as [|row table IH]; simpl; [done|].
  intros Hnot. rewrite not_elem_of_cons in Hnot. destruct Hnot as [Hne Hnot].
  rewrite filter_cons_True by (rewrite has_id_false; congruence).
  by rewrite IH.
Qed.

Lemma overwrite_missing i t d s table :
  i ∉ map id table ->
  map (fun row => if has_id i row then overwrite t d s row else row) table = table.
Proof.
  induction table as [|row table IH]; simpl; [done|].
  intros Hnot. rewrite not_elem_of_cons in Hnot. destruct Hnot as [Hne Hnot].
  rewrite IH by done.
  destruct (has_id i row) eqn:Hid; [|done].
  apply has_id_true in Hid. congruence.
Qed.

(** PRIMARY KEY: a present id selects exactly one row. *)
Lemma filter_present i table :
  NoDup (map id table) -> i ∈ map id table ->
  length (filter (fun row => has_id i row = true) table) = 1%nat.
Proof.
  induction table as [|row table IH]; simpl.
  - by intros _ ?%elem_of_nil.
  - intros [Hfresh Hnodup]%NoDup_cons Hin.
    destruct (decide (id row = i)) as [Heq|Hne].
    + rewrite filter_cons_True by (by rewrite has_id_true).
      rewrite filter_missing by congruence. done.
    + rewrite filter_cons_False by (rewrite has_id_true; congruence).
      apply IH; [done|]. apply elem_of_cons in Hin as [?|?]; congruence.
Qed.

Lemma filter_split i table :
  (length (filter (fun row => has_id i row = true) table)
   + length (filter (fun row => has_id i row = false) table))%nat = length table.
Proof.
  induction table as [|row table IH]; simpl; [done|].
  destruct (has_id i row) eqn:Hid.
  - rewrite filter_cons_True, filter_cons_False by (rewrite ?Hid; done).
    simpl. lia.
  - rewrite filter_cons_False, filter_cons_True by (rewrite ?Hid; done).
    simpl. lia.
Qed.

Lemma map_id_filter (P : Task -> Prop) `{!forall row, Decision (P row)} table x :
  x ∈ map id (filter P table) -> x ∈ map id table.
Proof.
  induction table as [|row table IH]; simpl; [done|].
  destruct (decide (P row)).
  - rewrite filter_cons_True by done. simpl.
    intros [->|Hin]%elem_of_cons; [left|right; by apply IH].
  - rewrite filter_cons_False by done. intros Hin. right. by apply IH.
Qed.

Lemma primary_key_filter (P : Task -> Prop) `{!forall row, Decision (P row)} table :
  NoDup (map id table) -> NoDup (map id (filter P table)).
Proof.
  induction table as [|row table IH]; simpl; [done|].
  intros [Hfresh Hnodup]%NoDup_cons. destruct (decide (P row)).
  - rewrite filter_cons_True by done. simpl. apply NoDup_cons. split; [|by apply IH].
    intros Hin. by apply Hfresh, (map_id_filter P).
  - rewrite filter_cons_False by done. by apply IH.
Qed.

Lemma deleted_is_missing i table :
  i ∉ map id (filter (fun row => has_id i row = false) table).
Proof.
  induction table as [|row table IH]; simpl; [by intros ?%elem_of_nil|].
  destruct (has_id i row) eqn:Hid.
  - by rewrite filter_cons_False by (rewrite Hid; done).
  - rewrite filter_cons_True by done. simpl.
    apply has_id_false in Hid. intros [?|?]%elem_of_cons; [congruence|done].
Qed.

Lemma deleted_is_gone i table :
  filter (fun row => has_id i row = true)
    (filter (fun row => has_id i row = false) table) = [].
Proof. apply filter_missing, deleted_is_missing. Qed.

Lemma overwritten_is_first i t d s table :
  i ∈ map id table ->
  head (filter (fun row => has_id i row = true)
          (map (fun row => if has_id i row then overwrite t d s row else row) table))
  = Some {| id := i; title := t; description := d; status := s |}.
Proof.
  induction table as [|row table IH]; simpl.
  - by intros ?%elem_of_nil.
  - intros Hin. destruct (has_id i row) eqn:Hid.
    + rewrite filter_cons_True by (unfold has_id, overwrite in *; done).
      simpl. unfold overwrite. apply has_id_true in Hid. by rewrite Hid.
    + rewrite filter_cons_False by (rewrite Hid; done).
      apply IH. apply has_id_false in Hid.
      apply elem_of_cons in Hin as [?|?]; congruence.
Qed.

Lemma run_sql_primary_key q table seq :
  NoDup (map id table) -> NoDup (map id (run_sql q table seq).1.1.1).
Proof.
  intros Hnodup. destruct q as [t d s|t d s i|i]; simpl.
  - rewrite map_app. simpl. apply NoDup_app. split_and!; [done| |apply NoDup_singleton].
    intros x Hx ->%list_elem_of_singleton. by eapply fresh_rowid.
  - by rewrite map_id_overwrite.
  - by apply primary_key_filter.
Qed.
End rows_facts.

(** * The CRUD functions on a healthy engine *)

Section crud_facts.
Implicit Types (w : World) (database : SQLiteDatabase) (q : Sql) (i : Z).

Lemma bind_ret {S A} (m : Async S A) s : (let* x := m in ret x) s = m s.
Proof. unfold bind, ret. by destruct (m s) as [[a|error|] s']. Qed.

Lemma try_catch_rethrow {S A} (m : Async S A) s :
  try_catch m (fun error => throw error) s = m s.
Proof. unfold try_catch, throw. by destruct (m s) as [[a|error|] s']. Qed.

Lemma guarded {S A} (m : Async S A) s :
  try_catch (let* x := m in ret x) (fun error => throw error) s = m s.
Proof. by rewrite try_catch_rethrow, bind_ret. Qed.

Lemma addTask_write t d : addTask t d = store_write (INSERT t d "pending").
Proof. reflexivity. Qed.

Lemma updateTask_unchecked_write i t d s :
  updateTask_unchecked i t d s = store_write (UPDATE t d s i).
Proof. reflexivity. Qed.

Lemma updateTask_write i t d s :
  updateTask i t d s = store_write (UPDATE t (Some d) (Some s) i).
Proof. reflexivity. Qed.

Lemma deleteTask_write i : deleteTask i = store_write (DELETE i).
Proof. reflexivity. Qed.

Lemma call_pop_frame c w :
  let w' := snd (pop_fault (call c w)) in
  db w' = db w /\ dbPromise w' = dbPromise w /\ promises w' = promises w /\
  file w' = file w /\ last_insert_rowid w' = last_insert_rowid w /\
  faults w' = tail (faults w).
Proof.
  destruct (pop_fault_frame (call c w)) as (Hdb & Hdp & Hps & Hf & Hl & _ & Hfs).
  by simpl.
Qed.

Lemma runAsync_healthy database q w table table' seq' inserted n :
  tasks (file w) = Some table -> healthy (faults w) ->
  run_sql q table (sqlite_sequence (file w)) = (table', seq', inserted, n) ->
  exists w',
    runAsync database q w =
      (Resolved {| lastInsertRowId := default (last_insert_rowid w) inserted;
                   changes := n |}, w') /\
    file w' = {| tasks := Some table'; sqlite_sequence := seq' |} /\
    last_insert_rowid w' = default (last_insert_rowid w) inserted /\
    db w' = db w /\ dbPromise w' = dbPromise w /\ promises w' = promises w /\
    healthy (faults w').
Proof.
  intros Htable Hh Hrun. unfold runAsync.
  destruct (call_pop_frame (RunAsync database q) w) as (Hdb & Hdp & Hps & Hf & Hl & Hfs).
  destruct (pop_fault_healthy (call (RunAsync database q) w) Hh) as [Hnone Hh'].
  destruct (pop_fault (call (RunAsync database q) w)) as [f w1]; simpl in *; subst f.
  rewrite Hf, Htable, Hrun, Hl. eexists. split; [reflexivity|]. by world_simpl.
Qed.

Lemma getAllAsync_healthy database w table :
  tasks (file w) = Some table -> healthy (faults w) ->
  exists w',
    getAllAsync database w = (Resolved table, w') /\
    file w' = file w /\ last_insert_rowid w' = last_insert_rowid w /\
    db w' = db w /\ dbPromise w' = dbPromise w /\ promises w' = promises w /\
    healthy (faults w').
Proof.
  intros Htable Hh. unfold getAllAsync.
  destruct (call_pop_frame (GetAllAsync database) w) as (Hdb & Hdp & Hps & Hf & Hl & Hfs).
  destruct (pop_fault_healthy (call (GetAllAsync database) w) Hh) as [Hnone Hh'].
  destruct (pop_fault (call (GetAllAsync database) w)) as [f w1]; simpl in *; subst f.
  rewrite Hf, Htable. by eexists.
Qed.

Lemma getFirstAsync_healthy database i w table :
  tasks (file w) = Some table -> healthy (faults w) ->
  exists w',
    getFirstAsync database i w =
      (Resolved (head (filter (fun row => has_id i row = true) table)), w') /\
    file w' = file w /\ last_insert_rowid w' = last_insert_rowid w /\
    db w' = db w /\ dbPromise w' = dbPromise w /\ promises w' = promises w /\
    healthy (faults w').
Proof.
  intros Htable Hh. unfold getFirstAsync.
  destruct (call_pop_frame (GetFirstAsync database i) w) as (Hdb & Hdp & Hps & Hf & Hl & Hfs).
  destruct (pop_fault_healthy (call (GetFirstAsync database i) w) Hh) as [Hnone Hh'].
  destruct (pop_fault (call (GetFirstAsync database i) w)) as [f w1]; simpl in *; subst f.
  rewrite Hf, Htable. by eexists.
Qed.

(** A store left by a successful call: connection cached, table there. *)
Lemma store_ok_opened w database table :
  db w = Some database -> tasks (file w) = Some table ->
  NoDup (map id table) -> store_ok w.
Proof.
  intros Hdb Htable Hkey. split.
  - unfold rows. by rewrite Htable.
  - intros _ _. by rewrite Htable.
  - intros p Hnone. congruence.
Qed.

Lemma store_write_healthy q w table' seq' inserted n :
  store_ok w -> healthy (faults w) ->
  run_sql q (rows w) (sqlite_sequence (file w)) = (table', seq', inserted, n) ->
  exists w',
    store_write q w =
      (Resolved {| lastInsertRowId := default (last_insert_rowid w) inserted;
                   changes := n |}, w') /\
    rows w' = table' /\ sqlite_sequence (file w') = seq' /\
    last_insert_rowid w' = default (last_insert_rowid w) inserted /\
    store_ok w' /\ healthy (faults w').
Proof.
  intros Hok Hh Hrun.
  destruct (await_getDb_healthy w Hok Hh)
    as (database & w1 & Haw & Hdb1 & Hok1 & Hh1 & Htable1 & Hseq1 & Hl1).
  rewrite <- Hseq1 in Hrun.
  destruct (runAsync_healthy database q w1 _ _ _ _ _ Htable1 Hh1 Hrun)
    as (w2 & Hrun2 & Hf2 & Hl2 & Hdb2 & Hdp2 & Hps2 & Hh2).
  exists w2. unfold store_write, bind at 1. rewrite Haw, guarded, Hrun2, Hl1.
  split_and!; try done.
  - unfold rows. by rewrite Hf2.
  - by rewrite Hf2.
  - by rewrite Hl2, Hl1.
  - apply (store_ok_opened w2 database table'); [congruence|by rewrite Hf2|].
    pose proof (run_sql_primary_key q (rows w) (sqlite_sequence (file w1))
                  (ok_primary_key w Hok)) as Hkey.
    by rewrite Hrun in Hkey.
Qed.

Lemma getTasks_healthy w :
  store_ok w -> healthy (faults w) ->
  exists w',
    getTasks w = (Resolved (rows w), w') /\
    rows w' = rows w /\ sqlite_sequence (file w') = sqlite_sequence (file w) /\
    last_insert_rowid w' = last_insert_rowid w /\
    store_ok w' /\ healthy (faults w').
Proof.
  intros Hok Hh.
  destruct (await_getDb_healthy w Hok Hh)
    as (database & w1 & Haw & Hdb1 & Hok1 & Hh1 & Htable1 & Hseq1 & Hl1).
  destruct (getAllAsync_healthy database w1 _ Htable1 Hh1)
    as (w2 & Hget & Hf2 & Hl2 & Hdb2 & Hdp2 & Hps2 & Hh2).
  exists w2. unfold getTasks, bind at 1. rewrite Haw, guarded, Hget.
  split_and!; try done.
  - unfold rows at 1. by rewrite Hf2, Htable1.
  - by rewrite Hf2.
  - by rewrite Hl2.
  - apply (store_ok_opened w2 database (rows w)); [congruence|by rewrite Hf2|].
    apply (ok_primary_key w Hok).
Qed.

Lemma getTaskById_healthy i w :
  store_ok w -> healthy (faults w) ->
  exists w',
    getTaskById i w =
      (Resolved (head (filter (fun row => has_id i row = true) (rows w))), w') /\
    rows w' = rows w /\ sqlite_sequence (file w') = sqlite_sequence (file w) /\
    last_insert_rowid w' = last_insert_rowid w /\
    store_ok w' /\ healthy (faults w').
Proof.
  intros Hok Hh.
  destruct (await_getDb_healthy w Hok Hh)
    as (database & w1 & Haw & Hdb1 & Hok1 & Hh1 & Htable1 & Hseq1 & Hl1).
  destruct (getFirstAsync_healthy database i w1 _ Htable1 Hh1)
    as (w2 & Hget & Hf2 & Hl2 & Hdb2 & Hdp2 & Hps2 & Hh2).
  exists w2. unfold getTaskById, bind at 1. rewrite Haw, guarded, Hget.
  split_and!; try done.
  - unfold rows at 1. by rewrite Hf2, Htable1.
  - by rewrite Hf2.
  - by rewrite Hl2.
  - apply (store_ok_opened w2 database (rows w)); [congruence|by rewrite Hf2|].
    apply (ok_primary_key w Hok).
Qed.
End crud_facts.

(** * The claims about the CRUD functions *)

Section crud_claims.
Implicit Types (w : World) (i : Z) (t d s : string).

Lemma one_task_ok : store_ok one_task.
Proof.
  apply (store_ok_opened one_task 0%nat (rows one_task)); try reflexivity.
  vm_compute. apply NoDup_singleton.
Qed.

Lemma one_task_healthy : healthy (faults one_task).
Proof. vm_compute. constructor. Qed.

Example buy_milk_on_fresh_install :
  fst (buy_milk (start fresh_install [])) =
    Resolved
      ([{| id := 1; title := "Buy milk"; description := Some "";
           status := Some "pending" |}],
       [{| id := 1; title := "Buy milk"; description := Some "";
           status := Some "completed" |}],
       []).
Proof. reflexivity. Qed.

(** C2.  On a healthy engine, for every title and description with a
    non-empty title, listing the tasks, adding one and listing again
    succeeds; the second list is the first with exactly one more row, whose
    status is 'pending', whose title and description are the inputs and
    whose id, new to the table, is the one addTask returned. *)
Theorem addTask_then_getTasks t d w :
  store_ok w -> healthy (faults w) -> t <> "" ->
  exists result w',
    add_then_list t d w =
      (Resolved
         (rows w, result,
          rows w ++ [{| id := lastInsertRowId result; title := t;
                        description := Some d; status := Some "pending" |}]),
       w') /\
    (lastInsertRowId result ∉ map id (rows w)) /\
    changes result = 1%nat.
Proof.
  intros Hok Hh _.
  destruct (getTasks_healthy w Hok Hh) as (w1 & Hget1 & Hr1 & Hs1 & Hl1 & Hok1 & Hh1).
  destruct (store_write_healthy (INSERT t d "pending") w1 _ _ _ _ Hok1 Hh1 eq_refl)
    as (w2 & Hadd & Hr2 & Hs2 & Hl2 & Hok2 & Hh2).
  destruct (getTasks_healthy w2 Hok2 Hh2) as (w3 & Hget3 & _).
  exists {| lastInsertRowId :=
              Z.max (sqlite_sequence (file w)) (max_rowid (rows w)) + 1;
            changes := 1 |}, w3.
  unfold add_then_list.
  unfold bind at 1. rewrite Hget1.
  unfold bind at 1. rewrite addTask_write, Hadd.
  unfold bind at 1. rewrite Hget3, Hr2, Hr1, Hs1. simpl.
  split_and!; [reflexivity| |reflexivity].
  apply fresh_rowid.
Qed.

Lemma addTask_then_getTasks_witness :
  store_ok one_task /\ healthy (faults one_task) /\ "Walk dog" <> "" /\
  exists result w',
    fst (add_then_list "Walk dog" "twice" one_task) =
      Resolved (rows one_task, result,
                rows one_task ++ [{| id := 2; title := "Walk dog";
                                     description := Some "twice";
                                     status := Some "pending" |}]) /\
    snd (add_then_list "Walk dog" "twice" one_task) = w'.
Proof.
  pose proof one_task_ok as Hok. pose proof one_task_healthy as Hh.
  assert (Ht : "Walk dog" <> "") by discriminate.
  split; [exact Hok|]. split; [exact Hh|]. split; [exact Ht|].
  destruct (addTask_then_getTasks "Walk dog" "twice" one_task Hok Hh Ht)
    as (result & w' & Heq & _ & _).
  exists result, w'. rewrite Heq. simpl. split; [|done].
  assert (Hid : lastInsertRowId result = 2).
  { assert (Hres : fst (add_then_list "Walk dog" "twice" one_task) =
                   Resolved (rows one_task, result,
                     rows one_task ++ [{| id := lastInsertRowId result;
                        title := "Walk dog"; description := Some "twice";
                        status := Some "pending" |}])) by (by rewrite Heq).
    vm_compute in Hres. by injection Hres as <-. }
  by rewrite Hid.
Defined.

(** C3.  On a healthy engine, for every id present in the table and every
    title, description and status, updateTask followed by getTaskById
    returns the row of that id with exactly these three values: nothing of
    the earlier row but its id is kept. *)
Theorem updateTask_then_getTaskById i t d s w :
  store_ok w -> healthy (faults w) -> i ∈ map id (rows w) ->
  exists w',
    update_then_get i t d s w =
      (Resolved (Some {| id := i; title := t; description := Some d;
                         status := Some s |}), w').
Proof.
  intros Hok Hh Hin.
  destruct (store_write_healthy (UPDATE t (Some d) (Some s) i) w _ _ _ _ Hok Hh eq_refl)
    as (w1 & Hupd & Hr1 & Hs1 & Hl1 & Hok1 & Hh1).
  destruct (getTaskById_healthy i w1 Hok1 Hh1) as (w2 & Hget & _).
  exists w2. unfold update_then_get.
  unfold bind at 1. rewrite updateTask_write, Hupd, Hget, Hr1.
  by rewrite overwritten_is_first.
Qed.

Lemma updateTask_then_getTaskById_witness :
  store_ok one_task /\ healthy (faults one_task) /\ 1 ∈ map id (rows one_task) /\
  fst (update_then_get 1 "Buy oat milk" "2 l" "completed" one_task) =
    Resolved (Some {| id := 1; title := "Buy oat milk"; description := Some "2 l";
                      status := Some "completed" |}).
Proof.
  pose proof one_task_ok as Hok. pose proof one_task_healthy as Hh.
  assert (Hin : 1 ∈ map id (rows one_task)) by (vm_compute; left).
  split; [exact Hok|]. split; [exact Hh|]. split; [exact Hin|].
  destruct (updateTask_then_getTaskById 1 "Buy oat milk" "2 l" "completed"
              one_task Hok Hh Hin) as (w' & Heq).
  by rewrite Heq.
Defined.

(** C4.  On a healthy engine, for every id that is not in the table:
    getTaskById returns no row and does not throw; updateTask and deleteTask
    return without throwing, and the rows and the AUTOINCREMENT counter are
    afterwards what they were. *)
Theorem missing_id_is_no_error i t d s w :
  store_ok w -> healthy (faults w) -> i ∉ map id (rows w) ->
  (exists w', getTaskById i w = (Resolved None, w') /\ rows w' = rows w /\
              sqlite_sequence (file w') = sqlite_sequence (file w)) /\
  (exists result w',
     updateTask i t d s w = (Resolved result, w') /\ rows w' = rows w /\
     sqlite_sequence (file w') = sqlite_sequence (file w)) /\
  (exists result w',
     deleteTask i w = (Resolved result, w') /\ rows w' = rows w /\
     sqlite_sequence (file w') = sqlite_sequence (file w)).
Proof.
  intros Hok Hh Hnot. split_and!.
  - destruct (getTaskById_healthy i w Hok Hh) as (w1 & Hget & Hr1 & Hs1 & _).
    exists w1. by rewrite Hget, filter_missing.
  - destruct (store_write_healthy (UPDATE t (Some d) (Some s) i) w _ _ _ _ Hok Hh eq_refl)
      as (w1 & Hupd & Hr1 & Hs1 & _).
    eexists _, w1. rewrite updateTask_write, Hupd.
    split_and!; [done| |done]. by rewrite Hr1, overwrite_missing.
  - destruct (store_write_healthy (DELETE i) w _ _ _ _ Hok Hh eq_refl)
      as (w1 & Hdel & Hr1 & Hs1 & _).
    eexists _, w1. rewrite deleteTask_write, Hdel.
    split_and!; [done| |done]. by rewrite Hr1, filter_others_missing.
Qed.

Lemma missing_id_is_no_error_witness :
  store_ok one_task /\ healthy (faults one_task) /\
  (5 ∉ map id (rows one_task)) /\
  fst (getTaskById 5 one_task) = Resolved None /\
  rows (snd (deleteTask 5 one_task)) = rows one_task.
Proof.
  pose proof one_task_ok as Hok. pose proof one_task_healthy as Hh.
  assert (Hnot : 5 ∉ map id (rows one_task)).
  { vm_compute. intros Hin. by apply list_elem_of_singleton in Hin. }
  split; [exact Hok|]. split; [exact Hh|]. split; [exact Hnot|].
  destruct (missing_id_is_no_error 5 "" "" "" one_task Hok Hh Hnot)
    as ((w1 & Hget & _) & _ & (result & w2 & Hdel & Hrows & _)).
  rewrite Hget, Hdel. by split.
Defined.
(** C5, as the code has it.  On a healthy engine, for every id, deleteTask
    followed by getTaskById returns no row; the list getTasks returns
    afterwards is one row shorter than before when the id was in the table,
    and is the same list when it was not. *)
Theorem deleteTask_then_getTaskById i w :
  store_ok w -> healthy (faults w) ->
  exists after w',
    delete_then_get i w = (Resolved (rows w, None, after), w') /\
    (i ∈ map id (rows w) -> S (length after) = length (rows w)) /\
    (i ∉ map id (rows w) -> after = rows w).
Proof.
  intros Hok Hh.
  destruct (getTasks_healthy w Hok Hh) as (w1 & Hget1 & Hr1 & Hs1 & Hl1 & Hok1 & Hh1).
  destruct (store_write_healthy (DELETE i) w1 _ _ _ _ Hok1 Hh1 eq_refl)
    as (w2 & Hdel & Hr2 & Hs2 & Hl2 & Hok2 & Hh2).
  destruct (getTaskById_healthy i w2 Hok2 Hh2)
    as (w3 & Hget3 & Hr3 & Hs3 & Hl3 & Hok3 & Hh3).
  destruct (getTasks_healthy w3 Hok3 Hh3) as (w4 & Hget4 & _).
  exists (filter (fun row => has_id i row = false) (rows w)), w4.
  unfold delete_then_get.
  unfold bind at 1. rewrite Hget1.
  unfold bind at 1. rewrite deleteTask_write, Hdel.
  unfold bind at 1. rewrite Hget3.
  unfold bind at 1. rewrite Hget4, Hr3, Hr2, Hr1, deleted_is_gone.
  split_and!; [reflexivity| |].
  - intros Hin. pose proof (filter_split i (rows w)) as Hsplit.
    rewrite (filter_present i (rows w) (ok_primary_key w Hok) Hin) in Hsplit.
    lia.
  - apply filter_others_missing.
Qed.

Lemma deleteTask_then_getTaskById_witness :
  store_ok one_task /\ healthy (faults one_task) /\
  fst (delete_then_get 1 one_task) = Resolved (rows one_task, None, []).
Proof.
  pose proof one_task_ok as Hok. pose proof one_task_healthy as Hh.
  split; [exact Hok|]. split; [exact Hh|].
  destruct (deleteTask_then_getTaskById 1 one_task Hok Hh)
    as (after & w' & Heq & Hless & _).
  rewrite Heq. simpl.
  assert (Hlen : S (length after) = length (rows one_task))
    by (apply Hless; vm_compute; left).
  destruct after as [|row after]; [done|]. vm_compute in Hlen. lia.
Defined.

(** C5, as stated, fails: with one task in the table, of id 1, deleting
    id 2 and listing again does not give a list one row shorter. *)
Lemma deleteTask_missing_keeps_count :
  ~ (exists before row after w',
       delete_then_get 2 one_task = (Resolved (before, row, after), w') /\
       S (length after) = length before).
Proof.
  intros (before & row & after & w' & Heq & Hlen).
  vm_compute in Heq. injection Heq as <- _ <- _. simpl in Hlen. lia.
Qed.

(** C10.  On a healthy engine updateTask and deleteTask return the engine's
    result, and the [changes] it reports is 0 exactly when no row has the
    id and 1 exactly when a row has it. *)
Theorem changes_tell_missing_from_present i t d s w :
  store_ok w -> healthy (faults w) ->
  (exists result w',
     updateTask i t d s w = (Resolved result, w') /\
     (changes result = 0%nat <-> i ∉ map id (rows w)) /\
     (changes result = 1%nat <-> i ∈ map id (rows w))) /\
  (exists result w',
     deleteTask i w = (Resolved result, w') /\
     (changes result = 0%nat <-> i ∉ map id (rows w)) /\
     (changes result = 1%nat <-> i ∈ map id (rows w))).
Proof.
  intros Hok Hh.
  assert (Hcount :
    (length (filter (fun row => has_id i row = true) (rows w)) = 0%nat
       <-> i ∉ map id (rows w)) /\
    (length (filter (fun row => has_id i row = true) (rows w)) = 1%nat
       <-> i ∈ map id (rows w))).
  { destruct (decide (i ∈ map id (rows w))) as [Hin|Hnot].
    - rewrite (filter_present i (rows w) (ok_primary_key w Hok) Hin).
      split; split; try done.
    - rewrite (filter_missing i (rows w) Hnot). simpl.
      split; split; try done. }
  split.
  - destruct (store_write_healthy (UPDATE t (Some d) (Some s) i) w _ _ _ _ Hok Hh eq_refl)
      as (w1 & Hupd & _).
    eexists _, w1. rewrite updateTask_write, Hupd. split; [reflexivity|].
    exact Hcount.
  - destruct (store_write_healthy (DELETE i) w _ _ _ _ Hok Hh eq_refl)
      as (w1 & Hdel & _).
    eexists _, w1. rewrite deleteTask_write, Hdel. split; [reflexivity|].
    exact Hcount.
Qed.

Lemma changes_tell_missing_from_present_witness :
  store_ok one_task /\ healthy (faults one_task) /\
  changes_of (fst (updateTask 1 "a" "b" "completed" one_task)) = Some 1%nat /\
  changes_of (fst (deleteTask 2 one_task)) = Some 0%nat.
Proof.
  pose proof one_task_ok as Hok. pose proof one_task_healthy as Hh.
  split; [exact Hok|]. split; [exact Hh|].
  destruct (changes_tell_missing_from_present 1 "a" "b" "completed" one_task Hok Hh)
    as ((r1 & w1 & Hupd & _ & Hone) & _).
  destruct (changes_tell_missing_from_present 2 "" "" "" one_task Hok Hh)
    as (_ & (r2 & w2 & Hdel & Hzero & _)).
  rewrite Hupd, Hdel. simpl. split; f_equal.
  - apply Hone. vm_compute. left.
  - apply Hzero. vm_compute. intros Hin. by apply list_elem_of_singleton in Hin.
Defined.
End crud_claims.

(** * The CRUD functions on any engine, faulty or not *)

Section crud_any.
Implicit Types (w : World) (database : SQLiteDatabase) (q : Sql) (i : Z).

Lemma runAsync_any database q w :
  let w' := snd (runAsync database q w) in
  db w' = db w /\ dbPromise w' = dbPromise w /\ promises w' = promises w /\
  (file w' = file w \/
   exists table,
     tasks (file w) = Some table /\
     tasks (file w') = Some (run_sql q table (sqlite_sequence (file w))).1.1.1).
Proof.
  unfold runAsync.
  destruct (call_pop_frame (RunAsync database q) w) as (Hdb & Hdp & Hps & Hf & Hl & Hfs).
  destruct (pop_fault (call (RunAsync database q) w)) as [[error|] w1]; simpl in *;
    [by auto|].
  destruct (tasks (file w1)) as [table|] eqn:Htable; simpl; [|by auto].
  rewrite Hf in *.
  destruct (run_sql q table (sqlite_sequence (file w)))
    as [[[table' seq'] inserted] n] eqn:Hrun.
  world_simpl. simpl. split_and!; try done. right. exists table. by rewrite Hrun.
Qed.

Lemma getAllAsync_any database w :
  let w' := snd (getAllAsync database w) in
  db w' = db w /\ dbPromise w' = dbPromise w /\ promises w' = promises w /\
  file w' = file w.
Proof.
  unfold getAllAsync.
  destruct (call_pop_frame (GetAllAsync database) w) as (Hdb & Hdp & Hps & Hf & Hl & Hfs).
  destruct (pop_fault (call (GetAllAsync database) w)) as [[error|] w1]; simpl in *;
    [done|].
  by destruct (tasks (file w1)).
Qed.

Lemma getFirstAsync_any database i w :
  let w' := snd (getFirstAsync database i w) in
  db w' = db w /\ dbPromise w' = dbPromise w /\ promises w' = promises w /\
  file w' = file w.
Proof.
  unfold getFirstAsync.
  destruct (call_pop_frame (GetFirstAsync database i) w) as (Hdb & Hdp & Hps & Hf & Hl & Hfs).
  destruct (pop_fault (call (GetFirstAsync database i) w)) as [[error|] w1]; simpl in *;
    [done|].
  by destruct (tasks (file w1)).
Qed.

(** Whatever holds of the opened store and is kept by the engine call is
    kept by the whole function. *)
Lemma after_await {A} (P : World -> Prop) (m : SQLiteDatabase -> Async World A) w :
  P (snd (await getDb w)) ->
  (forall database w1, P w1 -> P (snd (m database w1))) ->
  P (snd ((let* database := await getDb in
           try_catch (let* x := m database in ret x) (fun error => throw error)) w)).
Proof.
  intros Hawait Hcall. unfold bind at 1.
  destruct (await getDb w) as [[database|error|] w1]; simpl in *; try done.
  rewrite guarded. by apply Hcall.
Qed.

Lemma store_ok_same w w' :
  db w' = db w -> dbPromise w' = dbPromise w -> promises w' = promises w ->
  file w' = file w -> store_ok w -> store_ok w'.
Proof.
  intros Hdb Hdp Hps Hf [Hkey Htable Hflight].
  split; unfold rows; rewrite ?Hdb, ?Hdp, ?Hps, ?Hf; done.
Qed.

Lemma store_ok_runAsync database q w : store_ok w -> store_ok (snd (runAsync database q w)).
Proof.
  intros Hok.
  destruct (runAsync_any database q w) as (Hdb & Hdp & Hps & [Hf|(table & Ht & Ht')]).
  - by apply (store_ok_same w).
  - destruct Hok as [Hkey Htable Hflight]. split.
    + unfold rows in *. rewrite Ht'. rewrite Ht in Hkey. simpl in *.
      by apply run_sql_primary_key.
    + intros _ _. by rewrite Ht'.
    + by rewrite Hdb, Hdp, Hps.
Qed.

(** Every call into the store keeps the store's invariant, on any engine. *)
Lemma store_ok_perform c w : store_ok w -> store_ok (perform c w).
Proof.
  intros Hok. pose proof (store_ok_await_getDb w Hok) as Hok1.
  destruct c as [t d| |i|i t d s|i]; simpl;
    apply (after_await store_ok); try done; intros database w1 Hok2.
  - by apply store_ok_runAsync.
  - destruct (getAllAsync_any database w1) as (? & ? & ? & ?).
    by apply (store_ok_same w1).
  - destruct (getFirstAsync_any database i w1) as (? & ? & ? & ?).
    by apply (store_ok_same w1).
  - by apply store_ok_runAsync.
  - by apply store_ok_runAsync.
Qed.

(** The invariant holds in every state the store reaches from a fresh
    install, whatever the screens call and whatever fails. *)
Lemma store_ok_reachable cs fs :
  store_ok (perform_all cs (start fresh_install fs)).
Proof.
  unfold perform_all.
  assert (Hstart : store_ok (start fresh_install fs))
    by (apply store_ok_start; constructor).
  revert Hstart. generalize (start fresh_install fs).
  induction cs as [|c cs IH]; intros w Hok; simpl; [done|].
  by apply IH, store_ok_perform.
Qed.

Lemma run_sql_enumerated q table seq :
  binds_enumerated q ->
  all_enumerated table -> all_enumerated (run_sql q table seq).1.1.1.
Proof.
  unfold all_enumerated. intros Hs Hall. destruct q as [t d s|t d s i|i]; simpl in *.
  - apply Forall_app. split; [done|]. by constructor.
  - induction Hall as [|row table Hrow Hall IH]; simpl; constructor; [|done].
    by destruct (has_id i row).
  - rewrite Forall_forall in *. intros row [_ Hin]%list_elem_of_filter. by apply Hall.
Qed.

Lemma runAsync_enumerated database q w :
  binds_enumerated q ->
  all_enumerated (rows w) -> all_enumerated (rows (snd (runAsync database q w))).
Proof.
  intros Hs Hall. unfold rows in *.
  destruct (runAsync_any database q w) as (_ & _ & _ & [Hf|(table & Ht & Ht')]).
  - by rewrite Hf.
  - rewrite Ht'. rewrite Ht in Hall. simpl in *. by apply run_sql_enumerated.
Qed.
End crud_any.

Section status_claim.
Implicit Types (w : World).

Lemma perform_enumerated c w :
  writes_enumerated c -> all_enumerated (rows w) -> all_enumerated (rows (perform c w)).
Proof.
  intros Hc Hall.
  assert (Hall1 : all_enumerated (rows (snd (await getDb w)))).
  { by destruct (await_getDb_frame w) as (-> & _). }
  destruct c as [t d| |i|i t d s|i]; simpl;
    apply (after_await (fun w => all_enumerated (rows w))); try done;
    intros database w1 Hall2.
  - apply runAsync_enumerated; [|done]. simpl. by left.
  - destruct (getAllAsync_any database w1) as (_ & _ & _ & Hf).
    unfold rows in *. by rewrite Hf.
  - destruct (getFirstAsync_any database i w1) as (_ & _ & _ & Hf).
    unfold rows in *. by rewrite Hf.
  - by apply runAsync_enumerated.
  - by apply runAsync_enumerated.
Qed.

End status_claim.

(** * The session mirror *)

Section storage_facts.
Implicit Types (s : Session) (key : string).

Lemma storage_call_healthy {A} (f : gmap string string -> A * gmap string string) s :
  healthy (storage_faults s) ->
  storage_call f s =
    (Resolved (f (AsyncStorage s)).1,
     {| userInfo := userInfo s; loadingAuth := loadingAuth s;
        AsyncStorage := (f (AsyncStorage s)).2;
        storage_faults := tail (storage_faults s); alerts := alerts s |}).
Proof.
  unfold healthy, storage_call. intros Hh.
  destruct (storage_faults s) as [|fault fs]; simpl.
  - by destruct (f (AsyncStorage s)).
  - inversion Hh; subst. by destruct (f (AsyncStorage s)).
Qed.

Lemma setItem_healthy key v s :
  healthy (storage_faults s) ->
  setItem key v s =
    (Resolved tt,
     {| userInfo := userInfo s; loadingAuth := loadingAuth s;
        AsyncStorage := <[key := v]> (AsyncStorage s);
        storage_faults := tail (storage_faults s); alerts := alerts s |}).
Proof. intros Hh. unfold setItem. by rewrite storage_call_healthy. Qed.

Lemma getItem_healthy key s :
  healthy (storage_faults s) ->
  getItem key s =
    (Resolved (AsyncStorage s !! key),
     {| userInfo := userInfo s; loadingAuth := loadingAuth s;
        AsyncStorage := AsyncStorage s;
        storage_faults := tail (storage_faults s); alerts := alerts s |}).
Proof. intros Hh. unfold getItem. by rewrite storage_call_healthy. Qed.

Lemma removeItem_healthy key s :
  healthy (storage_faults s) ->
  removeItem key s =
    (Resolved tt,
     {| userInfo := userInfo s; loadingAuth := loadingAuth s;
        AsyncStorage := delete key (AsyncStorage s);
        storage_faults := tail (storage_faults s); alerts := alerts s |}).
Proof. intros Hh. unfold removeItem. by rewrite storage_call_healthy. Qed.

Lemma truthy_nonempty v : v <> "" -> truthy v = true.
Proof. by destruct v. Qed.
End storage_facts.

Section mirror_facts.
Context `{JsonLaws}.
Variable provider : string -> Settled UserInfo.
Implicit Types (s : Session) (user : UserInfo) (accessToken : string).

(** On a healthy store signOut leaves nothing behind and does not throw. *)
Lemma handleLogout_healthy s :
  healthy (storage_faults s) ->
  fst (handleLogout s) = Resolved tt /\
  fully_absent (snd (handleLogout s)) /\
  healthy (storage_faults (snd (handleLogout s))).
Proof.
  intros Hh.
  assert (Hrun : exists s',
    handleLogout s = (Resolved tt, s') /\
    userInfo s' = None /\
    AsyncStorage s' = delete "userInfo" (delete "userToken" (AsyncStorage s)) /\
    storage_faults s' = tail (tail (storage_faults s))).
  { unfold handleLogout.
    unfold bind at 1. rewrite removeItem_healthy by done.
    unfold bind at 1. rewrite removeItem_healthy by (by apply healthy_tail).
    simpl. by eexists. }
  destruct Hrun as (s' & -> & Hu & Hkv & Hfs). simpl.
  split_and!; [done| |rewrite Hfs; by do 2 apply healthy_tail].
  unfold fully_absent. rewrite Hkv, Hu. split_and!; [|by apply lookup_delete_eq|done].
  rewrite lookup_delete_ne by done. apply lookup_delete_eq.
Qed.

(** On a healthy store a sign-in whose identity fetch succeeds leaves the
    fetched identity in memory and mirrored in the store. *)
Lemma fetchUserInfo_healthy accessToken user s :
  provider accessToken = Resolved user -> healthy (storage_faults s) ->
  let s' := snd (fetchUserInfo provider accessToken s) in
  userInfo s' = Some user /\
  AsyncStorage s' !! "userInfo" = Some (JSON_stringify user) /\
  AsyncStorage s' !! "userToken" = Some accessToken /\
  healthy (storage_faults s').
Proof.
  intros Hfetch Hh.
  assert (Hrun : exists s',
    fetchUserInfo provider accessToken s = (Resolved tt, s') /\
    userInfo s' = Some user /\
    AsyncStorage s' =
      <["userInfo" := JSON_stringify user]>
        (<["userToken" := accessToken]> (AsyncStorage s)) /\
    storage_faults s' = tail (tail (storage_faults s))).
  { unfold fetchUserInfo, try_catch, fetch_json.
    unfold bind at 1. rewrite Hfetch.
    unfold bind at 1. simpl.
    unfold bind at 1. rewrite setItem_healthy by done.
    rewrite setItem_healthy by (by apply healthy_tail). simpl. by eexists. }
  destruct Hrun as (s' & -> & Hu & Hkv & Hfs). simpl. rewrite Hkv, Hfs.
  split_and!; [done|by apply lookup_insert_eq| |by do 2 apply healthy_tail].
  rewrite lookup_insert_ne by done. apply lookup_insert_eq.
Qed.

(** A sign-in whose identity fetch fails touches neither the store nor the
    identity in memory. *)
Lemma fetchUserInfo_failed accessToken s :
  (forall user, provider accessToken <> Resolved user) ->
  let s' := snd (fetchUserInfo provider accessToken s) in
  userInfo s' = userInfo s /\ AsyncStorage s' = AsyncStorage s /\
  storage_faults s' = storage_faults s.
Proof.
  intros Hfetch. simpl. unfold fetchUserInfo, try_catch, fetch_json, bind.
  destruct (provider accessToken) as [user|error|]; simpl; [|done|done].
  by destruct (Hfetch user).
Qed.

(** On a healthy store, what a cold start followed by restoreSession leaves
    in memory is what the store holds under 'userInfo'. *)
Lemma checkStoredUser_healthy s :
  healthy (storage_faults s) ->
  let s' := snd (checkStoredUser (cold_start s)) in
  AsyncStorage s' = AsyncStorage s /\
  healthy (storage_faults s') /\
  (AsyncStorage s !! "userInfo" = None -> userInfo s' = None) /\
  (forall user, AsyncStorage s !! "userInfo" = Some (JSON_stringify user) ->
                userInfo s' = Some user).
Proof.
  intros Hh. simpl. unfold checkStoredUser, try_finally, try_catch, bind.
  rewrite getItem_healthy by done. simpl.
  destruct (AsyncStorage s !! "userInfo") as [v|] eqn:Hv; simpl.
  - destruct (truthy v) eqn:Htruthy; simpl.
    + destruct (JSON_parse v) as [parsed|] eqn:Hparse; simpl.
      * split_and!; [done|by apply healthy_tail|done|].
        intros user [= ->]. rewrite parse_stringify in Hparse. congruence.
      * split_and!; [done|by apply healthy_tail|done|].
        intros user [= ->]. rewrite parse_stringify in Hparse. congruence.
    + split_and!; [done|by apply healthy_tail|done|].
      intros user [= ->]. rewrite truthy_nonempty in Htruthy; [done|].
      apply stringify_truthy.
  - split_and!; [done|by apply healthy_tail|done|done].
Qed.
End mirror_facts.

Section plain_json_facts.
Lemma strip_prefix_append prefix v : strip_prefix prefix (prefix +:+ v) = Some v.
Proof.
  induction prefix as [|c prefix IH]; [by destruct v|].
  change (String c prefix +:+ v) with (String c (prefix +:+ v)).
  cbn [strip_prefix]. by rewrite decide_True.
Qed.

Lemma read_string_escape v rest :
  read_string (escape v +:+ String dquote rest) = Some (v, rest).
Proof.
  induction v as [|c v IH].
  - change (read_string (String dquote rest) = Some (EmptyString, rest)).
    cbn [read_string]. by rewrite decide_True.
  - cbn [escape]. destruct (decide (c = dquote \/ c = backslash)) as [Hc|Hc].
    + change (read_string (String backslash (String c
                (escape v +:+ String dquote rest))) = Some (String c v, rest)).
      cbn [read_string].
      rewrite decide_False by (by intros [=]). rewrite decide_True by done.
      by rewrite IH.
    + change (read_string (String c (escape v +:+ String dquote rest))
              = Some (String c v, rest)).
      cbn [read_string].
      rewrite decide_False by (intros ->; apply Hc; by left).
      rewrite decide_False by (intros ->; apply Hc; by right).
      by rewrite IH.
Qed.

Lemma append_cons x (a b : string) : String x a +:+ b = String x (a +:+ b).
Proof. reflexivity. Qed.

Lemma append_assoc (a b c : string) : (a +:+ b) +:+ c = a +:+ (b +:+ c).
Proof.
  induction a as [|x a IH]; [done|]. rewrite !append_cons. by f_equal.
Qed.

Lemma read_user_write_user user : read_user (write_user user) = Some user.
Proof.
  destruct user as [n e p]. unfold read_user, write_user. cbn [name email picture].
  rewrite <- (append_assoc "{"), strip_prefix_append. cbn [mbind option_bind].
  rewrite read_string_escape. cbn [mbind option_bind].
  rewrite <- (append_assoc ","), strip_prefix_append. cbn [mbind option_bind].
  rewrite read_string_escape. cbn [mbind option_bind].
  rewrite <- (append_assoc ","), strip_prefix_append. cbn [mbind option_bind].
  rewrite read_string_escape. cbn [mbind option_bind].
  by rewrite decide_True.
Qed.

Lemma plain_json_laws : @JsonLaws plain_json.
Proof.
  split.
  - apply read_user_write_user.
  - intros user. simpl. unfold write_user. by rewrite append_cons.
Qed.
End plain_json_facts.

Section mirror_claims.
Context `{JsonLaws}.
Variable provider : string -> Settled UserInfo.
Implicit Types (s : Session) (user : UserInfo) (accessToken : string).

Lemma mirrored_present s : mirrored s -> fully_present s.
Proof.
  intros (user & Hu & Hkv & Htoken). unfold fully_present.
  rewrite Hu, Hkv. by split_and!.
Qed.

(** What the mirror keeps while no storage call fails. *)
Lemma mirror_keeps c s :
  healthy (storage_faults s) -> fully_absent s \/ mirrored s ->
  healthy (storage_faults (mirror provider c s)) /\
  (fully_absent (mirror provider c s) \/ mirrored (mirror provider c s)).
Proof.
  intros Hh Hs. destruct c as [accessToken| |]; simpl.
  - destruct (provider accessToken) as [user|error|] eqn:Hfetch.
    + destruct (fetchUserInfo_healthy provider accessToken user s Hfetch Hh)
        as (Hu & Hkv & Htoken & Hh').
      split; [done|]. right. exists user. by rewrite Hu, Hkv, Htoken.
    + destruct (fetchUserInfo_failed provider accessToken s) as (Hu & Hkv & Hfs);
        [by rewrite Hfetch|].
      unfold fully_absent, mirrored. by rewrite Hu, Hkv, Hfs.
    + destruct (fetchUserInfo_failed provider accessToken s) as (Hu & Hkv & Hfs);
        [by rewrite Hfetch|].
      unfold fully_absent, mirrored. by rewrite Hu, Hkv, Hfs.
  - destruct (checkStoredUser_healthy s Hh) as (Hkv & Hh' & Hnone & Hsome).
    split; [done|]. destruct Hs as [(Htoken & Hinfo & _)|(user & _ & Hinfo & Htoken)].
    + left. unfold fully_absent. rewrite Hkv. by split_and!; [| |apply Hnone].
    + right. exists user. rewrite Hkv. by split_and!; [apply Hsome| |].
  - destruct (handleLogout_healthy s Hh) as (_ & Habsent & Hh'). by split; [|left].
Qed.

(** C8, as the code has it.  Starting from a first launch, after any
    sequence of completed sign-ins, cold starts with restoreSession, and
    sign-outs during which no storage call fails, the session is fully
    absent (neither key stored, nobody in memory) or fully present (both
    keys stored, an identity in memory). *)
Theorem session_never_partial (cs : list MirrorCall) (fs : Faults) :
  healthy fs ->
  fully_absent (mirror_all provider cs (first_launch fs)) \/
  fully_present (mirror_all provider cs (first_launch fs)).
Proof.
  intros Hh.
  assert (Hinv : healthy (storage_faults (mirror_all provider cs (first_launch fs))) /\
                 (fully_absent (mirror_all provider cs (first_launch fs)) \/
                  mirrored (mirror_all provider cs (first_launch fs)))).
  { unfold mirror_all.
    assert (Hstart : healthy (storage_faults (first_launch fs)) /\
                     (fully_absent (first_launch fs) \/ mirrored (first_launch fs))).
    { split; [done|]. left. by split_and!. }
    revert Hstart. generalize (first_launch fs).
    induction cs as [|c cs IH]; intros s [Hs1 Hs2]; simpl; [done|].
    by apply IH, mirror_keeps. }
  destruct Hinv as [_ [Habsent|Hmirrored]]; [by left|right].
  by apply mirrored_present.
Qed.

(** C9.  While no storage call fails: signOut followed by a cold start and
    restoreSession leaves the session absent; and for every token for which
    the provider answers with an identity, completeSignIn followed by a cold
    start and restoreSession leaves in memory exactly the identity that was
    fetched. *)
Theorem session_survives_cold_start s :
  healthy (storage_faults s) ->
  fully_absent (snd (checkStoredUser (cold_start (snd (handleLogout s))))) /\
  (forall accessToken user,
     provider accessToken = Resolved user ->
     userInfo (snd (checkStoredUser
                      (cold_start (snd (fetchUserInfo provider accessToken s)))))
     = Some user).
Proof.
  intros Hh. split.
  - destruct (handleLogout_healthy s Hh) as (_ & (Htoken & Hinfo & _) & Hh1).
    destruct (checkStoredUser_healthy _ Hh1) as (Hkv & _ & Hnone & _).
    unfold fully_absent. rewrite Hkv. by split_and!; [| |apply Hnone].
  - intros accessToken user Hfetch.
    destruct (fetchUserInfo_healthy provider accessToken user s Hfetch Hh)
      as (_ & Hinfo & _ & Hh1).
    destruct (checkStoredUser_healthy _ Hh1) as (_ & _ & _ & Hsome).
    by apply Hsome.
Qed.
End mirror_claims.

Lemma session_never_partial_witness :
  healthy [None; None; None] /\
  (let s := mirror_all (H := plain_json) one_provider
              [CompleteSignIn "token-1"; RestoreSession; CompleteSignIn "stale";
               SignOut; RestoreSession]
              (first_launch [None; None; None]) in
   fully_absent s \/ fully_present s).
Proof.
  assert (Hh : healthy [None; None; None]) by (repeat constructor).
  split; [exact Hh|].
  exact (session_never_partial (H := plain_json) (H0 := plain_json_laws) one_provider
           [CompleteSignIn "token-1"; RestoreSession; CompleteSignIn "stale";
            SignOut; RestoreSession] [None; None; None] Hh).
Defined.

Lemma session_survives_cold_start_witness :
  let s := first_launch [] in
  healthy (storage_faults s) /\
  one_provider "token-1" = Resolved ada /\
  userInfo (snd (checkStoredUser (H := plain_json)
                   (cold_start (snd (fetchUserInfo (H := plain_json) one_provider
                                       "token-1" s)))))
  = Some ada.
Proof.
  intros s.
  assert (Hh : healthy (storage_faults s)) by constructor.
  split; [exact Hh|]. split; [reflexivity|].
  destruct (session_survives_cold_start (H := plain_json) (H0 := plain_json_laws)
              one_provider s Hh) as [_ Hin].
  apply Hin. reflexivity.
Defined.

(** C8, as stated, fails.  A sign-in whose first storage write fails leaves
    an identity in memory and nothing in the store; a sign-out whose second
    delete fails leaves the token removed, the stored identity in place and
    the identity still in memory. *)
Lemma failed_storage_call_leaves_partial_session :
  (let s := snd (fetchUserInfo (H := plain_json) one_provider "token-1"
                   (first_launch [Some storage_down])) in
   ~ (fully_absent s \/ fully_present s)) /\
  (let s0 := snd (fetchUserInfo (H := plain_json) one_provider "token-1"
                    (first_launch [None; None; None; Some storage_down])) in
   fully_present s0 /\
   let s := snd (handleLogout s0) in
   ~ (fully_absent s \/ fully_present s)).
Proof.
  split; [|split].
  - intros s [(_ & _ & Hmem)|(Htoken & _)].
    + vm_compute in Hmem. discriminate Hmem.
    + vm_compute in Htoken. destruct Htoken as [v Hv]. discriminate Hv.
  - unfold fully_present. vm_compute. split_and!; eexists; reflexivity.
  - intros s [(_ & _ & Hmem)|(Htoken & _)].
    + vm_compute in Hmem. discriminate Hmem.
    + vm_compute in Htoken. destruct Htoken as [v Hv]. discriminate Hv.
Qed.

(** * More about the store functions *)

Section store_calls.
Implicit Types (w : World) (database : SQLiteDatabase) (q : Sql) (i : Z) (c : StoreCall).

Lemma perform_invoke c w : perform c w = snd (invoke c w).
Proof.
  destruct c as [t d| |i|i t d s|i]; simpl; unfold bind at 1.
  - by destruct (addTask t d w) as [[r|e|] w'].
  - by destruct (getTasks w) as [[r|e|] w'].
  - by destruct (getTaskById i w) as [[r|e|] w'].
  - by destruct (updateTask i t d s w) as [[r|e|] w'].
  - by destruct (deleteTask i w) as [[r|e|] w'].
Qed.

(** A store function, once it has its connection, is its one engine call. *)
Lemma invoke_opened c w database :
  db w = Some database ->
  invoke c w =
    match c with
    | AddTask t d =>
        (let* result := runAsync database (INSERT t d "pending") in ret (RunResult result)) w
    | GetTasks => (let* allRows := getAllAsync database in ret (AllRows allRows)) w
    | GetTaskById i => (let* row := getFirstAsync database i in ret (FirstRow row)) w
    | UpdateTask i t d s =>
        (let* result := runAsync database (UPDATE t (Some d) (Some s) i) in
         ret (RunResult result)) w
    | DeleteTask i =>
        (let* result := runAsync database (DELETE i) in ret (RunResult result)) w
    end.
Proof.
  intros Hdb. destruct c; simpl; unfold bind at 1;
    unfold addTask, getTasks, getTaskById, updateTask, updateTask_unchecked, deleteTask;
    unfold bind at 1; rewrite (await_getDb_opened w database Hdb), guarded; done.
Qed.

Lemma runAsync_fault database q w error fs :
  faults w = Some error :: fs ->
  runAsync database q w = (Thrown error, set_faults fs (call (RunAsync database q) w)).
Proof. intros Hf. unfold runAsync, pop_fault. cbn [call faults]. by rewrite Hf. Qed.

Lemma getAllAsync_fault database w error fs :
  faults w = Some error :: fs ->
  getAllAsync database w = (Thrown error, set_faults fs (call (GetAllAsync database) w)).
Proof. intros Hf. unfold getAllAsync, pop_fault. cbn [call faults]. by rewrite Hf. Qed.

Lemma getFirstAsync_fault database i w error fs :
  faults w = Some error :: fs ->
  getFirstAsync database i w =
    (Thrown error, set_faults fs (call (GetFirstAsync database i) w)).
Proof. intros Hf. unfold getFirstAsync, pop_fault. cbn [call faults]. by rewrite Hf. Qed.

(** X1.  Each of the five store functions rethrows what its engine call
    threw: on an opened store whose next engine call fails with [error], the
    function throws that very [error], the file is left as it was, and the
    call it made is the only one recorded. *)
Theorem storage_error_is_rethrown c w database error fs :
  db w = Some database -> faults w = Some error :: fs ->
  fst (invoke c w) = Thrown error /\
  file (snd (invoke c w)) = file w /\
  calls (snd (invoke c w)) = calls w ++ [statement database c] /\
  faults (snd (invoke c w)) = fs.
Proof.
  intros Hdb Hf. rewrite (invoke_opened c w database Hdb).
  destruct c; unfold bind;
    rewrite ?(runAsync_fault _ _ w error fs Hf), ?(getAllAsync_fault _ w error fs Hf),
      ?(getFirstAsync_fault _ _ w error fs Hf); done.
Qed.

Lemma storage_error_is_rethrown_witness :
  let w := set_faults [Some storage_down] one_task in
  db w = Some 0%nat /\ faults w = [Some storage_down] /\
  fst (invoke (UpdateTask 1 "Buy milk" "" "completed") w) = Thrown storage_down /\
  rows (snd (invoke (UpdateTask 1 "Buy milk" "" "completed") w)) = rows one_task.
Proof.
  intros w.
  assert (Hdb : db w = Some 0%nat) by reflexivity.
  assert (Hf : faults w = [Some storage_down]) by reflexivity.
  split; [exact Hdb|]. split; [exact Hf|].
  destruct (storage_error_is_rethrown (UpdateTask 1 "Buy milk" "" "completed")
              w 0%nat storage_down [] Hdb Hf) as (Hthrown & Hfile & _).
  split; [exact Hthrown|]. unfold rows. by rewrite Hfile.
Defined.
End store_calls.

Section opening.
Implicit Types (w : World) (database : SQLiteDatabase) (c : StoreCall).

Ltac turn_compute :=
  unfold turn; world_simpl; rewrite ?lookup_fresh; unfold pop_fault; world_simpl;
  unfold open_settles, exec_settles; world_simpl; rewrite ?lookup_fresh; world_simpl;
  rewrite ?insert_fresh.

Lemma turn_settled_is_idle w p v :
  promises w !! p = Some v -> (forall parked, v <> Pending parked) -> turn p w = w.
Proof.
  intros Hp Hv. unfold turn. rewrite Hp. destruct v as [parked| |]; [|done|done].
  by destruct (Hv parked).
Qed.

(** [await getDb()] on a store with no connection and no open in flight,
    by the first two faults in store. *)
Lemma await_getDb_idle_open_fails w error fs :
  db w = None -> dbPromise w = None -> faults w = Some error :: fs ->
  await getDb w =
    (Thrown error,
     {| db := None; dbPromise := None;
        promises := promises w ++ [Rejected error]; file := file w;
        last_insert_rowid := last_insert_rowid w;
        calls := calls w ++ [OpenDatabaseAsync]; faults := fs |}).
Proof.
  intros Hdb Hdp Hf. unfold await. rewrite getDb_idle by done.
  destruct w as [d dp ps f l cs fs0]; simpl in Hdb, Hdp, Hf; subst d dp fs0.
  world_simpl.
  set (w1 := {| db := None; dbPromise := Some (length ps);
                promises := ps ++ [Pending AwaitOpen]; file := f;
                last_insert_rowid := l; calls := cs ++ [OpenDatabaseAsync];
                faults := Some error :: fs |}).
  set (w2 := {| db := None; dbPromise := None;
                promises := ps ++ [Rejected error]; file := f;
                last_insert_rowid := l; calls := cs ++ [OpenDatabaseAsync];
                faults := fs |}).
  assert (H1 : turn (length ps) w1 = w2) by (subst w1 w2; turn_compute; done).
  assert (H2 : turn (length ps) w2 = w2).
  { apply (turn_settled_is_idle _ _ (Rejected error)); [apply lookup_fresh|done]. }
  rewrite H1, H2. unfold observed. subst w2. world_simpl. by rewrite lookup_fresh.
Qed.

Lemma await_getDb_idle_schema_fails w error fs :
  db w = None -> dbPromise w = None -> faults w = None :: Some error :: fs ->
  await getDb w =
    (Thrown error,
     {| db := None; dbPromise := None;
        promises := promises w ++ [Rejected error]; file := file w;
        last_insert_rowid := last_insert_rowid w;
        calls := calls w ++ [OpenDatabaseAsync; ExecAsync (length (promises w))];
        faults := fs |}).
Proof.
  intros Hdb Hdp Hf. unfold await. rewrite getDb_idle by done.
  destruct w as [d dp ps f l cs fs0]; simpl in Hdb, Hdp, Hf; subst d dp fs0.
  world_simpl.
  set (w1 := {| db := None; dbPromise := Some (length ps);
                promises := ps ++ [Pending AwaitOpen]; file := f;
                last_insert_rowid := l; calls := cs ++ [OpenDatabaseAsync];
                faults := None :: Some error :: fs |}).
  set (w2 := {| db := None; dbPromise := Some (length ps);
                promises := ps ++ [Pending (AwaitExec (length ps))]; file := f;
                last_insert_rowid := l;
                calls := (cs ++ [OpenDatabaseAsync]) ++ [ExecAsync (length ps)];
                faults := Some error :: fs |}).
  set (w3 := {| db := None; dbPromise := None;
                promises := ps ++ [Rejected error]; file := f;
                last_insert_rowid := l;
                calls := (cs ++ [OpenDatabaseAsync]) ++ [ExecAsync (length ps)];
                faults := fs |}).
  assert (H1 : turn (length ps) w1 = w2) by (subst w1 w2; turn_compute; done).
  assert (H2 : turn (length ps) w2 = w3) by (subst w2 w3; turn_compute; done).
  rewrite H1, H2. unfold observed. subst w3. world_simpl. rewrite lookup_fresh.
  by rewrite <- (assoc_L (++)).
Qed.

Lemma await_getDb_idle_opens w :
  db w = None -> dbPromise w = None -> healthy (take 2 (faults w)) ->
  await getDb w =
    (Resolved (length (promises w)),
     {| db := Some (length (promises w)); dbPromise := Some (length (promises w));
        promises := promises w ++ [Fulfilled (length (promises w))];
        file := create_table (file w);
        last_insert_rowid := last_insert_rowid w;
        calls := calls w ++ [OpenDatabaseAsync; ExecAsync (length (promises w))];
        faults := drop 2 (faults w) |}).
Proof.
  intros Hdb Hdp Hh. unfold await. rewrite getDb_idle by done.
  destruct w as [d dp ps f l cs fs]; simpl in Hdb, Hdp, Hh; subst d dp.
  world_simpl.
  set (w1 := {| db := None; dbPromise := Some (length ps);
                promises := ps ++ [Pending AwaitOpen]; file := f;
                last_insert_rowid := l; calls := cs ++ [OpenDatabaseAsync];
                faults := fs |}).
  set (w2 := {| db := None; dbPromise := Some (length ps);
                promises := ps ++ [Pending (AwaitExec (length ps))]; file := f;
                last_insert_rowid := l;
                calls := (cs ++ [OpenDatabaseAsync]) ++ [ExecAsync (length ps)];
                faults := drop 1 fs |}).
  set (w3 := {| db := Some (length ps); dbPromise := Some (length ps);
                promises := ps ++ [Fulfilled (length ps)]; file := create_table f;
                last_insert_rowid := l;
                calls := (cs ++ [OpenDatabaseAsync]) ++ [ExecAsync (length ps)];
                faults := drop 2 fs |}).
  assert (Hfs : fs = [] \/ fs = [None] \/ exists fs', fs = None :: None :: fs').
  { unfold healthy in Hh. destruct fs as [|f1 [|f2 fs']]; simpl in Hh; [by left| |].
    - inversion Hh; subst. right. by left.
    - inversion Hh as [|? ? ? Hh']; subst. inversion Hh'; subst. right. right. by eexists. }
  assert (H1 : turn (length ps) w1 = w2).
  { subst w1 w2. destruct Hfs as [->|[->|[fs' ->]]]; turn_compute; reflexivity. }
  assert (H2 : turn (length ps) w2 = w3).
  { subst w2 w3. destruct Hfs as [->|[->|[fs' ->]]]; cbn [skipn]; turn_compute; reflexivity. }
  rewrite H1, H2. unfold observed. subst w3. world_simpl. rewrite lookup_fresh.
  by rewrite <- (assoc_L (++)).
Qed.

(** Once the connection is cached a store function makes its one engine
    call and nothing else, whether that call fails or not. *)
Lemma invoke_opened_calls c w database :
  db w = Some database ->
  calls (snd (invoke c w)) = calls w ++ [statement database c] /\
  db (snd (invoke c w)) = Some database /\
  dbPromise (snd (invoke c w)) = dbPromise w /\
  promises (snd (invoke c w)) = promises w /\
  faults (snd (invoke c w)) = tail (faults w).
Proof.
  intros Hdb. rewrite (invoke_opened c w database Hdb).
  destruct c as [t d| |i|i t d s|i]; unfold bind.
  - destruct (call_pop_frame (RunAsync database (INSERT t d "pending")) w)
      as (H1 & H2 & H3 & H4 & H5 & H6).
    pose proof (pop_fault_frame (call (RunAsync database (INSERT t d "pending")) w))
      as (_ & _ & _ & _ & _ & H7 & _).
    unfold runAsync.
    destruct (pop_fault (call (RunAsync database (INSERT t d "pending")) w))
      as [[error|] w1]; simpl in *; [by rewrite H1, H7|].
    destruct (tasks (file w1)) as [table|]; simpl; [|by rewrite H1, H7].
    by rewrite H1, H7.
  - destruct (call_pop_frame (GetAllAsync database) w) as (H1 & H2 & H3 & H4 & H5 & H6).
    pose proof (pop_fault_frame (call (GetAllAsync database) w))
      as (_ & _ & _ & _ & _ & H7 & _).
    unfold getAllAsync.
    destruct (pop_fault (call (GetAllAsync database) w)) as [[error|] w1]; simpl in *;
      [by rewrite H1, H7|].
    destruct (tasks (file w1)) as [table|]; simpl; by rewrite H1, H7.
  - destruct (call_pop_frame (GetFirstAsync database i) w) as (H1 & H2 & H3 & H4 & H5 & H6).
    pose proof (pop_fault_frame (call (GetFirstAsync database i) w))
      as (_ & _ & _ & _ & _ & H7 & _).
    unfold getFirstAsync.
    destruct (pop_fault (call (GetFirstAsync database i) w)) as [[error|] w1]; simpl in *;
      [by rewrite H1, H7|].
    destruct (tasks (file w1)) as [table|]; simpl; by rewrite H1, H7.
  - destruct (call_pop_frame (RunAsync database (UPDATE t (Some d) (Some s) i)) w)
      as (H1 & H2 & H3 & H4 & H5 & H6).
    pose proof (pop_fault_frame (call (RunAsync database (UPDATE t (Some d) (Some s) i)) w))
      as (_ & _ & _ & _ & _ & H7 & _).
    unfold runAsync.
    destruct (pop_fault (call (RunAsync database (UPDATE t (Some d) (Some s) i)) w))
      as [[error|] w1]; simpl in *; [by rewrite H1, H7|].
    destruct (tasks (file w1)) as [table|]; simpl; by rewrite H1, H7.
  - destruct (call_pop_frame (RunAsync database (DELETE i)) w)
      as (H1 & H2 & H3 & H4 & H5 & H6).
    pose proof (pop_fault_frame (call (RunAsync database (DELETE i)) w))
      as (_ & _ & _ & _ & _ & H7 & _).
    unfold runAsync.
    destruct (pop_fault (call (RunAsync database (DELETE i)) w))
      as [[error|] w1]; simpl in *; [by rewrite H1, H7|].
    destruct (tasks (file w1)) as [table|]; simpl; by rewrite H1, H7.
Qed.
End opening.

Section retrying.
Implicit Types (w : World) (database : SQLiteDatabase) (c : StoreCall).

Lemma invoke_await_thrown c w error w1 :
  await getDb w = (Thrown error, w1) -> invoke c w = (Thrown error, w1).
Proof.
  intros Haw. destruct c; simpl; unfold bind at 1;
    unfold addTask, getTasks, getTaskById, updateTask, updateTask_unchecked, deleteTask;
    unfold bind at 1; by rewrite Haw.
Qed.

Lemma invoke_await_resolved c w database w1 :
  await getDb w = (Resolved database, w1) -> db w1 = Some database ->
  invoke c w = invoke c w1.
Proof.
  intros Haw Hdb. rewrite (invoke_opened c w1 database Hdb).
  destruct c; simpl; unfold bind at 1;
    unfold addTask, getTasks, getTaskById, updateTask, updateTask_unchecked, deleteTask;
    unfold bind at 1; rewrite Haw, guarded; done.
Qed.

Lemma invoke_healthy c w :
  store_ok w -> healthy (faults w) -> exists v w', invoke c w = (Resolved v, w').
Proof.
  intros Hok Hh. destruct c as [t d| |i|i t d s|i]; simpl; unfold bind.
  - destruct (store_write_healthy (INSERT t d "pending") w _ _ _ _ Hok Hh eq_refl)
      as (w' & Hrun & _).
    rewrite addTask_write, Hrun. by eexists _, _.
  - destruct (getTasks_healthy w Hok Hh) as (w' & Hrun & _). rewrite Hrun. by eexists _, _.
  - destruct (getTaskById_healthy i w Hok Hh) as (w' & Hrun & _). rewrite Hrun.
    by eexists _, _.
  - destruct (store_write_healthy (UPDATE t (Some d) (Some s) i) w _ _ _ _ Hok Hh eq_refl)
      as (w' & Hrun & _).
    rewrite updateTask_write, Hrun. by eexists _, _.
  - destruct (store_write_healthy (DELETE i) w _ _ _ _ Hok Hh eq_refl)
      as (w' & Hrun & _).
    rewrite deleteTask_write, Hrun. by eexists _, _.
Qed.

(** X2.  A store function called while the database cannot be opened throws
    the error of the open (or of the schema statement), runs no statement of
    its own, and leaves no connection and no in-flight marker behind; the
    same call made again, the engine now healthy, opens the database a second
    time, creates the table, runs its statement and returns. *)
Theorem failed_open_is_retried c w (at_schema : bool) error fs :
  store_ok w -> db w = None -> dbPromise w = None ->
  faults w = failing_open at_schema error ++ fs -> healthy fs ->
  let w1 := snd (invoke c w) in
  let p := length (promises w) in
  fst (invoke c w) = Thrown error /\
  db w1 = None /\ dbPromise w1 = None /\ file w1 = file w /\
  calls w1 = calls w ++ OpenDatabaseAsync :: (if at_schema then [ExecAsync p] else []) /\
  exists v,
    fst (invoke c w1) = Resolved v /\
    calls (snd (invoke c w1)) =
      calls w1 ++ [OpenDatabaseAsync; ExecAsync (S p); statement (S p) c].
Proof.
  intros Hok Hdb Hdp Hf Hh w1 p.
  assert (Hfail : exists w',
    invoke c w = (Thrown error, w') /\ db w' = None /\ dbPromise w' = None /\
    file w' = file w /\ promises w' = promises w ++ [Rejected error] /\
    faults w' = fs /\
    calls w' = calls w ++ OpenDatabaseAsync :: (if at_schema then [ExecAsync p] else [])).
  { destruct at_schema; simpl in Hf; eexists; (split; [|split_and!]).
    - apply invoke_await_thrown. by apply await_getDb_idle_schema_fails.
    - done.
    - done.
    - done.
    - done.
    - done.
    - done.
    - apply invoke_await_thrown. by apply await_getDb_idle_open_fails.
    - done.
    - done.
    - done.
    - done.
    - done.
    - done. }
  destruct Hfail as (w' & Hinv & Hdb' & Hdp' & Hfile' & Hps' & Hfs' & Hcalls').
  subst w1. rewrite Hinv. simpl. split_and!; try done.
  assert (Hh' : healthy (take 2 (faults w'))).
  { rewrite Hfs'. unfold healthy in *. by apply Forall_take. }
  pose proof (await_getDb_idle_opens w' Hdb' Hdp' Hh') as Haw.
  assert (Hlen : length (promises w') = S p).
  { rewrite Hps', length_app. simpl. subst p. lia. }
  rewrite Hlen in Haw.
  set (w2 := {| db := Some (S p); dbPromise := Some (S p);
                promises := promises w' ++ [Fulfilled (S p)];
                file := create_table (file w');
                last_insert_rowid := last_insert_rowid w';
                calls := calls w' ++ [OpenDatabaseAsync; ExecAsync (S p)];
                faults := drop 2 (faults w') |}) in *.
  rewrite (invoke_await_resolved c w' (S p) w2 Haw eq_refl).
  assert (Hok2 : store_ok w2).
  { destruct (create_table_is_Some (file w')) as [table Htable].
    apply (store_ok_opened w2 (S p) table); [done|done|].
    pose proof (ok_primary_key w Hok) as Hkey. unfold rows in Hkey.
    rewrite <- Hfile', <- rows_create_table, Htable in Hkey. exact Hkey. }
  assert (Hh2 : healthy (faults w2)).
  { subst w2. simpl. rewrite Hfs'. unfold healthy in *. by apply Forall_drop. }
  destruct (invoke_healthy c w2 Hok2 Hh2) as (v & w3 & Hrun).
  exists v. rewrite Hrun. simpl. split; [done|].
  destruct (invoke_opened_calls c w2 (S p) eq_refl) as (Hcalls & _).
  rewrite Hrun in Hcalls. simpl in Hcalls. rewrite Hcalls. subst w2. simpl.
  by rewrite <- (assoc_L (++)).
Qed.

Lemma failed_open_is_retried_witness :
  let w := start fresh_install [None; Some storage_down] in
  store_ok w /\ db w = None /\ dbPromise w = None /\
  faults w = failing_open true storage_down ++ [] /\ healthy [] /\
  fst (invoke (AddTask "Buy milk" "") w) = Thrown storage_down /\
  db (snd (invoke (AddTask "Buy milk" "") w)) = None.
Proof.
  intros w.
  assert (Hok : store_ok w) by (apply store_ok_start; constructor).
  assert (Hh : healthy []) by constructor.
  split; [exact Hok|]. split; [reflexivity|]. split; [reflexivity|].
  split; [reflexivity|]. split; [exact Hh|].
  destruct (failed_open_is_retried (AddTask "Buy milk" "") w true storage_down []
              Hok eq_refl eq_refl eq_refl Hh) as (Hthrown & Hdb & _).
  split; [exact Hthrown | exact Hdb].
Defined.

Lemma perform_all_opened cs w database :
  db w = Some database ->
  calls (perform_all cs w) = calls w ++ map (statement database) cs.
Proof.
  unfold perform_all. revert w. induction cs as [|c cs IH]; intros w Hdb; simpl.
  - by rewrite (right_id_L [] (++)).
  - destruct (invoke_opened_calls c w database Hdb) as (Hcalls & Hdb' & _).
    rewrite perform_invoke, IH, Hcalls by done. by rewrite <- (assoc_L (++)).
Qed.

(** X3.  The database is opened once.  From the start of the process, if
    the open and the schema statement go through, then whatever the screens
    call afterwards, and whatever fails afterwards, the engine is asked to
    open once, to run the schema statement once, and then to run exactly one
    statement per call into the store, in the order of the calls. *)
Theorem engine_sees_one_open c cs file0 fs :
  healthy (take 2 fs) ->
  calls (perform_all (c :: cs) (start file0 fs)) =
    OpenDatabaseAsync :: ExecAsync 0%nat :: map (statement 0%nat) (c :: cs).
Proof.
  intros Hh.
  pose proof (await_getDb_idle_opens (start file0 fs) eq_refl eq_refl Hh) as Haw.
  simpl in Haw.
  set (w1 := {| db := Some 0%nat; dbPromise := Some 0%nat; promises := [Fulfilled 0%nat];
                file := create_table file0; last_insert_rowid := 0;
                calls := [OpenDatabaseAsync; ExecAsync 0%nat]; faults := drop 2 fs |}) in *.
  change (calls (perform_all cs (perform c (start file0 fs))) =
          OpenDatabaseAsync :: ExecAsync 0%nat :: statement 0%nat c :: map (statement 0%nat) cs).
  rewrite perform_invoke, (invoke_await_resolved c _ 0%nat w1 Haw eq_refl).
  destruct (invoke_opened_calls c w1 0%nat eq_refl) as (Hcalls & Hdb & _).
  by rewrite (perform_all_opened cs _ 0%nat Hdb), Hcalls.
Qed.

Lemma engine_sees_one_open_witness :
  healthy (take 2 [None; None; Some storage_down]) /\
  calls (perform_all [AddTask "Buy milk" ""; GetTasks; DeleteTask 1]
           (start fresh_install [None; None; Some storage_down])) =
    [OpenDatabaseAsync; ExecAsync 0%nat; RunAsync 0%nat (INSERT "Buy milk" "" "pending");
     GetAllAsync 0%nat; RunAsync 0%nat (DELETE 1)].
Proof.
  assert (Hh : healthy (take 2 [None; None; Some storage_down])).
  { repeat constructor. }
  split; [exact Hh|].
  exact (engine_sees_one_open (AddTask "Buy milk" "") [GetTasks; DeleteTask 1]
           fresh_install [None; None; Some storage_down] Hh).
Defined.
End retrying.

Section table_claims.
Implicit Types (w : World) (database : SQLiteDatabase) (q : Sql) (i j : Z) (c : StoreCall).

(** What a write statement does to the AUTOINCREMENT counter, on any engine. *)
Lemma runAsync_sequence database q w :
  sqlite_sequence (file w) <= sqlite_sequence (file (snd (runAsync database q w))) /\
  forall t d s result,
    q = INSERT t d s -> fst (runAsync database q w) = Resolved result ->
    lastInsertRowId result = sqlite_sequence (file (snd (runAsync database q w))) /\
    sqlite_sequence (file w) < lastInsertRowId result.
Proof.
  unfold runAsync.
  destruct (call_pop_frame (RunAsync database q) w) as (Hdb & Hdp & Hps & Hf & Hl & Hfs).
  destruct (pop_fault (call (RunAsync database q) w)) as [[error|] w1]; simpl in *.
  - rewrite Hf. split; [lia|]. intros t d s result _ [=].
  - destruct (tasks (file w1)) as [table|] eqn:Htable; simpl.
    + rewrite Hf. destruct q as [t d s|t d s i|i]; simpl.
      * split; [lia|]. intros ? ? ? result _ [= <-]. simpl. lia.
      * split; [lia|]. intros ? ? ? result [=].
      * split; [lia|]. intros ? ? ? result [=].
    + rewrite Hf. split; [lia|]. intros t d s result _ [=].
Qed.

Lemma perform_sequence c w :
  sqlite_sequence (file w) <= sqlite_sequence (file (perform c w)).
Proof.
  assert (Hawait : sqlite_sequence (file w)
                   <= sqlite_sequence (file (snd (await getDb w)))).
  { destruct (await_getDb_frame w) as (_ & -> & _). lia. }
  destruct c as [t d| |i|i t d s|i]; simpl;
    apply (after_await (fun w' => sqlite_sequence (file w) <= sqlite_sequence (file w')));
    try done; intros database w1 Hle.
  - destruct (runAsync_sequence database (INSERT t d "pending") w1) as [Hmono _]. lia.
  - destruct (getAllAsync_any database w1) as (_ & _ & _ & ->). lia.
  - destruct (getFirstAsync_any database i w1) as (_ & _ & _ & ->). lia.
  - destruct (runAsync_sequence database (UPDATE t (Some d) (Some s) i) w1) as [Hmono _]. lia.
  - destruct (runAsync_sequence database (DELETE i) w1) as [Hmono _]. lia.
Qed.

Lemma perform_all_sequence cs w :
  sqlite_sequence (file w) <= sqlite_sequence (file (perform_all cs w)).
Proof.
  unfold perform_all. revert w. induction cs as [|c cs IH]; intros w; simpl; [lia|].
  pose proof (perform_sequence c w). specialize (IH (perform c w)). lia.
Qed.

Lemma addTask_rowid t d w result w' :
  addTask t d w = (Resolved result, w') ->
  lastInsertRowId result = sqlite_sequence (file w') /\
  sqlite_sequence (file w) < lastInsertRowId result.
Proof.
  unfold addTask, bind at 1. intros Hadd.
  destruct (await_getDb_frame w) as (_ & Hseq & _).
  destruct (await getDb w) as [[database|error|] w1]; simpl in *; try done.
  rewrite guarded in Hadd.
  destruct (runAsync_sequence database (INSERT t d "pending") w1) as [_ Hins].
  destruct (Hins t d "pending" result eq_refl) as [Hid Hlt]; [by rewrite Hadd|].
  rewrite Hadd in Hid. simpl in Hid. split; [done|]. lia.
Qed.

(** X4.  Ids are never reused.  Whatever is called between two addTask
    calls that both return (deletes of the newest row included) and whatever
    fails in between, the second returns an id greater than the first. *)
Theorem ids_are_never_reused t d t' d' cs w result w1 result' w2 :
  addTask t d w = (Resolved result, w1) ->
  addTask t' d' (perform_all cs w1) = (Resolved result', w2) ->
  lastInsertRowId result < lastInsertRowId result'.
Proof.
  intros Hfirst Hsecond.
  destruct (addTask_rowid t d w result w1 Hfirst) as [Hid _].
  destruct (addTask_rowid t' d' _ result' w2 Hsecond) as [_ Hlt].
  pose proof (perform_all_sequence cs w1). lia.
Qed.

Lemma ids_are_never_reused_witness :
  let w := start fresh_install [] in
  let first := addTask "Buy milk" "" w in
  let second := addTask "Walk dog" "" (perform_all [DeleteTask 1; GetTasks] (snd first)) in
  fst first = Resolved {| lastInsertRowId := 1; changes := 1 |} /\
  fst second = Resolved {| lastInsertRowId := 2; changes := 1 |} /\
  1 < 2.
Proof.
  intros w first second.
  assert (H1 : first = (Resolved {| lastInsertRowId := 1; changes := 1 |}, snd first))
    by (vm_compute; reflexivity).
  assert (H2 : second = (Resolved {| lastInsertRowId := 2; changes := 1 |}, snd second))
    by (vm_compute; reflexivity).
  split; [by rewrite H1|]. split; [by rewrite H2|].
  exact (ids_are_never_reused "Buy milk" "" "Walk dog" "" [DeleteTask 1; GetTasks]
           w _ (snd first) _ (snd second) H1 H2).
Defined.

(** X5.  Reading never writes.  On any engine, whether the call returns or
    throws, getTasks and getTaskById leave the rows of the table, the
    AUTOINCREMENT counter and the connection's last inserted rowid as they
    were. *)
Theorem reads_never_write i w :
  (rows (snd (getTasks w)) = rows w /\
   sqlite_sequence (file (snd (getTasks w))) = sqlite_sequence (file w) /\
   last_insert_rowid (snd (getTasks w)) = last_insert_rowid w) /\
  (rows (snd (getTaskById i w)) = rows w /\
   sqlite_sequence (file (snd (getTaskById i w))) = sqlite_sequence (file w) /\
   last_insert_rowid (snd (getTaskById i w)) = last_insert_rowid w).
Proof.
  pose proof (await_getDb_frame w) as Hawait. split.
  - apply (after_await (fun w' => rows w' = rows w /\
             sqlite_sequence (file w') = sqlite_sequence (file w) /\
             last_insert_rowid w' = last_insert_rowid w)); [done|].
    intros database w1 (Hr & Hs & Hl). unfold getAllAsync.
    destruct (call_pop_frame (GetAllAsync database) w1) as (_ & _ & _ & Hf & Hl1 & _).
    destruct (pop_fault (call (GetAllAsync database) w1)) as [[error|] w2]; simpl in *.
    + unfold rows in *. by rewrite Hf, Hl1.
    + destruct (tasks (file w2)); simpl; unfold rows in *; by rewrite Hf, Hl1.
  - apply (after_await (fun w' => rows w' = rows w /\
             sqlite_sequence (file w') = sqlite_sequence (file w) /\
             last_insert_rowid w' = last_insert_rowid w)); [done|].
    intros database w1 (Hr & Hs & Hl). unfold getFirstAsync.
    destruct (call_pop_frame (GetFirstAsync database i) w1) as (_ & _ & _ & Hf & Hl1 & _).
    destruct (pop_fault (call (GetFirstAsync database i) w1)) as [[error|] w2]; simpl in *.
    + unfold rows in *. by rewrite Hf, Hl1.
    + destruct (tasks (file w2)); simpl; unfold rows in *; by rewrite Hf, Hl1.
Qed.

Lemma run_sql_never_null q table seq :
  binds_no_null q -> never_null table -> never_null (run_sql q table seq).1.1.1.
Proof.
  unfold never_null. intros Hq Hall. destruct q as [t d s|t d s i|i]; simpl in *.
  - apply Forall_app. split; [done|]. constructor; [|done]. simpl. split; by eexists.
  - induction Hall as [|row table Hrow Hall IH]; simpl; constructor; [|done].
    by destruct (has_id i row).
  - rewrite Forall_forall in *. intros row [_ Hin]%list_elem_of_filter. by apply Hall.
Qed.

Lemma perform_never_null c w : never_null (rows w) -> never_null (rows (perform c w)).
Proof.
  intros Hall.
  assert (Hall1 : never_null (rows (snd (await getDb w)))).
  { by destruct (await_getDb_frame w) as (-> & _). }
  assert (Hrun : forall database q w1,
            binds_no_null q ->
            never_null (rows w1) -> never_null (rows (snd (runAsync database q w1)))).
  { intros database q w1 Hq Hw1. unfold rows in *.
    destruct (runAsync_any database q w1) as (_ & _ & _ & [Hf|(table & Ht & Ht')]).
    - by rewrite Hf.
    - rewrite Ht'. rewrite Ht in Hw1. simpl in *. by apply run_sql_never_null. }
  destruct c as [t d| |i|i t d s|i]; simpl;
    apply (after_await (fun w => never_null (rows w))); try done;
    intros database w1 Hall2; try (apply Hrun; [simpl; eauto|done]).
  - destruct (getAllAsync_any database w1) as (_ & _ & _ & Hf).
    unfold rows in *. by rewrite Hf.
  - destruct (getFirstAsync_any database i w1) as (_ & _ & _ & Hf).
    unfold rows in *. by rewrite Hf.
Qed.

(** X6.  The schema lets [description] and [status] be NULL, but the store
    never leaves one NULL: addTask and updateTask bind a string for each.
    From a table without NULLs (the empty table of a fresh install is one),
    any sequence of calls into the store at their declared types, whatever
    fails on the way, leaves a table without NULLs. *)
Theorem no_column_is_left_null cs w :
  never_null (rows w) -> never_null (rows (perform_all cs w)).
Proof.
  unfold perform_all. revert w.
  induction cs as [|c cs IH]; intros w Hall; simpl; [done|].
  by apply IH, perform_never_null.
Qed.

Lemma no_column_is_left_null_witness :
  let w := start fresh_install [None; None; None; Some storage_down] in
  never_null (rows w) /\
  never_null (rows (perform_all [AddTask "Buy milk" ""; AddTask "Walk dog" "far";
                                 UpdateTask 1 "Buy milk" "" "completed"] w)).
Proof.
  intros w.
  assert (Hall : never_null (rows w)) by constructor.
  split; [exact Hall|].
  exact (no_column_is_left_null _ w Hall).
Defined.

(** X7.  PRIMARY KEY.  From a file whose rows have distinct ids, any
    sequence of calls into the store, whatever fails on the way, leaves rows
    with distinct ids. *)
Theorem ids_stay_distinct cs file0 fs :
  NoDup (map id (default [] (tasks file0))) ->
  NoDup (map id (rows (perform_all cs (start file0 fs)))).
Proof.
  intros Hkey. apply ok_primary_key. unfold perform_all.
  pose proof (store_ok_start file0 fs Hkey) as Hok.
  revert Hok. generalize (start file0 fs).
  induction cs as [|c cs IH]; intros w Hok; simpl; [done|].
  by apply IH, store_ok_perform.
Qed.

Lemma ids_stay_distinct_witness :
  NoDup (map id (default [] (tasks fresh_install))) /\
  NoDup (map id (rows (perform_all [AddTask "a" ""; AddTask "b" ""; DeleteTask 1;
                                    AddTask "c" ""]
                         (start fresh_install [None; None; Some storage_down])))).
Proof.
  assert (Hkey : NoDup (map id (default [] (tasks fresh_install)))) by constructor.
  split; [exact Hkey|].
  exact (ids_stay_distinct _ fresh_install _ Hkey).
Defined.
End table_claims.

Section one_row_claims.
Implicit Types (w : World) (table : list Task) (i j : Z).

Lemma two_tasks_ok : store_ok two_tasks.
Proof.
  apply (store_ok_opened two_tasks 0%nat
           [buy_milk_row;
            {| id := 2; title := "Walk dog"; description := Some "";
               status := Some "pending" |}]);
    [vm_compute; reflexivity | vm_compute; reflexivity |].
  apply (bool_decide_unpack _). vm_compute. exact I.
Qed.

Lemma two_tasks_healthy : healthy (faults two_tasks).
Proof. vm_compute. constructor. Qed.

(** X8.  One attempt at a time.  In every state reached from the start of
    the process by calls of getDb and by engine calls settling, in any order
    and with any outcome: the engine has been asked to open once per promise
    made, and two promises that are not rejected are the same promise; so
    no second open starts while one is pending or has succeeded. *)
Theorem only_one_attempt_is_live events file0 fs :
  let w := run events (start file0 fs) in
  count_open (calls w) = length (promises w) /\
  forall p q v v',
    promises w !! p = Some v -> is_rejected v = false ->
    promises w !! q = Some v' -> is_rejected v' = false ->
    p = q.
Proof.
  intros w. pose proof (one_attempt_run events file0 fs) as Hinv. split.
  - apply (opened_per_promise _ Hinv).
  - intros p q v v'. by apply live_promise_unique.
Qed.

Lemma only_one_attempt_is_live_witness :
  let w := run [Calls; Calls; OpenSettles 0 (Thrown storage_down); Calls; Calls;
                OpenSettles 1 (Resolved 5%nat); Calls; ExecSettles 1 (Resolved tt); Calls]
             (start fresh_install []) in
  count_open (calls w) = 2%nat /\
  promises w !! 1%nat = Some (Fulfilled 5%nat) /\
  forall q v, promises w !! q = Some v -> is_rejected v = false -> 1%nat = q.
Proof.
  intros w.
  destruct (only_one_attempt_is_live
              [Calls; Calls; OpenSettles 0 (Thrown storage_down); Calls; Calls;
               OpenSettles 1 (Resolved 5%nat); Calls; ExecSettles 1 (Resolved tt); Calls]
              fresh_install []) as [Hopens Hone].
  split; [exact Hopens|]. split; [reflexivity|].
  intros q v Hq Hv. exact (Hone 1%nat q (Fulfilled 5%nat) v eq_refl eq_refl Hq Hv).
Defined.

Lemma filter_overwrite_other i j t d s table :
  j <> i ->
  filter (fun row => has_id j row = true)
    (map (fun row => if has_id i row then overwrite t d s row else row) table)
  = filter (fun row => has_id j row = true) table.
Proof.
  intros Hne. induction table as [|row table IH]; simpl; [done|].
  destruct (has_id i row) eqn:Hi.
  - apply has_id_true in Hi.
    rewrite !filter_cons_False, IH; [done| |];
      rewrite has_id_true; unfold overwrite; simpl; congruence.
  - destruct (has_id j row) eqn:Hj.
    + by rewrite !filter_cons_True, IH by done.
    + by rewrite !filter_cons_False, IH by (by rewrite Hj).
Qed.

Lemma filter_delete_other i j table :
  j <> i ->
  filter (fun row => has_id j row = true)
    (filter (fun row => has_id i row = false) table)
  = filter (fun row => has_id j row = true) table.
Proof.
  intros Hne. induction table as [|row table IH]; simpl; [done|].
  destruct (has_id i row) eqn:Hi.
  - rewrite (filter_cons_False (fun row => has_id i row = false)) by (by rewrite Hi).
    apply has_id_true in Hi.
    rewrite filter_cons_False by (rewrite has_id_true; congruence). done.
  - rewrite (filter_cons_True (fun row => has_id i row = false)) by done.
    destruct (has_id j row) eqn:Hj.
    + by rewrite !filter_cons_True, IH by done.
    + by rewrite !filter_cons_False, IH by (by rewrite Hj).
Qed.

(** X9.  updateTask touches one row.  On a healthy engine it returns, the
    table has the same ids in the same order as before, and getTaskById of
    any other id gives what it gave before. *)
Theorem updateTask_touches_one_row i t d s w :
  store_ok w -> healthy (faults w) ->
  exists result w1,
    updateTask i t d s w = (Resolved result, w1) /\
    map id (rows w1) = map id (rows w) /\
    forall j, j <> i -> fst (getTaskById j w1) = fst (getTaskById j w).
Proof.
  intros Hok Hh.
  destruct (store_write_healthy (UPDATE t (Some d) (Some s) i) w _ _ _ _ Hok Hh eq_refl)
    as (w1 & Hupd & Hr1 & _ & _ & Hok1 & Hh1).
  eexists _, w1. rewrite updateTask_write, Hupd. split; [reflexivity|].
  split; [by rewrite Hr1, map_id_overwrite|].
  intros j Hne.
  destruct (getTaskById_healthy j w1 Hok1 Hh1) as (w2 & -> & _).
  destruct (getTaskById_healthy j w Hok Hh) as (w3 & -> & _).
  simpl. by rewrite Hr1, filter_overwrite_other.
Qed.

Lemma updateTask_touches_one_row_witness :
  store_ok two_tasks /\ healthy (faults two_tasks) /\
  exists result w1,
    updateTask 2 "Walk dog" "far" "completed" two_tasks = (Resolved result, w1) /\
    fst (getTaskById 1 w1) = fst (getTaskById 1 two_tasks).
Proof.
  pose proof two_tasks_ok as Hok. pose proof two_tasks_healthy as Hh.
  split; [exact Hok|]. split; [exact Hh|].
  destruct (updateTask_touches_one_row 2 "Walk dog" "far" "completed" two_tasks Hok Hh)
    as (result & w1 & Hupd & _ & Hother).
  exists result, w1. split; [exact Hupd|]. apply Hother. discriminate.
Defined.

(** X10.  deleteTask removes the row with the id, and only that row, and is
    idempotent.  On a healthy engine it returns and afterwards no row of the
    table has the id, so getTaskById of the id finds nothing.  When a row had
    the id, the call reports one change and the table is one row shorter;
    when none had, it reports no change and the table is as it was.  The
    rows left are the earlier rows in their earlier order; getTaskById of
    any other id gives what it gave before; and a second deleteTask of the
    same id returns too, reports no change and leaves the table as the first
    left it. *)
Theorem deleteTask_touches_one_row i w :
  store_ok w -> healthy (faults w) ->
  exists result w1,
    deleteTask i w = (Resolved result, w1) /\
    (i ∉ map id (rows w1)) /\
    fst (getTaskById i w1) = Resolved None /\
    (i ∈ map id (rows w) ->
     changes result = 1%nat /\ length (rows w) = S (length (rows w1))) /\
    (i ∉ map id (rows w) -> changes result = 0%nat /\ rows w1 = rows w) /\
    rows w1 `sublist_of` rows w /\
    (forall j, j <> i -> fst (getTaskById j w1) = fst (getTaskById j w)) /\
    exists result' w2,
      deleteTask i w1 = (Resolved result', w2) /\
      changes result' = 0%nat /\ rows w2 = rows w1.
Proof.
  intros Hok Hh.
  destruct (store_write_healthy (DELETE i) w _ _ _ _ Hok Hh eq_refl)
    as (w1 & Hdel & Hr1 & _ & _ & Hok1 & Hh1).
  destruct (store_write_healthy (DELETE i) w1 _ _ _ _ Hok1 Hh1 eq_refl)
    as (w2 & Hdel2 & Hr2 & _).
  pose proof (ok_primary_key _ Hok) as Hkey.
  eexists _, w1. rewrite deleteTask_write, Hdel. split; [reflexivity|]. split_and!.
  - rewrite Hr1. apply deleted_is_missing.
  - destruct (getTaskById_healthy i w1 Hok1 Hh1) as (w3 & -> & _).
    simpl. by rewrite Hr1, deleted_is_gone.
  - intros Hin. simpl. pose proof (filter_present i _ Hkey Hin) as Hone.
    split; [done|]. rewrite Hr1.
    pose proof (filter_split i (rows w)) as Hsplit. lia.
  - intros Hnot. simpl. rewrite Hr1, (filter_missing _ _ Hnot).
    split; [done|]. by apply filter_others_missing.
  - rewrite Hr1. apply sublist_filter.
  - intros j Hne.
    destruct (getTaskById_healthy j w1 Hok1 Hh1) as (w3 & -> & _).
    destruct (getTaskById_healthy j w Hok Hh) as (w4 & -> & _).
    simpl. by rewrite Hr1, filter_delete_other.
  - eexists _, w2. rewrite Hdel2. split; [reflexivity|]. simpl.
    rewrite Hr2, Hr1, deleted_is_gone. split; [done|].
    apply filter_others_missing, deleted_is_missing.
Qed.

Lemma deleteTask_touches_one_row_witness :
  store_ok two_tasks /\ healthy (faults two_tasks) /\
  exists result w1 result' w2,
    deleteTask 1 two_tasks = (Resolved result, w1) /\
    (1 ∉ map id (rows w1)) /\
    fst (getTaskById 2 w1) = fst (getTaskById 2 two_tasks) /\
    deleteTask 1 w1 = (Resolved result', w2) /\ rows w2 = rows w1.
Proof.
  pose proof two_tasks_ok as Hok. pose proof two_tasks_healthy as Hh.
  split; [exact Hok|]. split; [exact Hh|].
  destruct (deleteTask_touches_one_row 1 two_tasks Hok Hh)
    as (result & w1 & Hdel & Hgone & _ & _ & _ & _ & Hother
        & result' & w2 & Hdel2 & _ & Hrows).
  exists result, w1, result', w2. split; [exact Hdel|]. split; [exact Hgone|].
  split; [apply Hother; discriminate|]. split; [exact Hdel2 | exact Hrows].
Defined.

Lemma head_filter_elem i table row :
  head (filter (fun r => has_id i r = true) table) = Some row ->
  row ∈ table /\ id row = i.
Proof.
  induction table as [|r table IH]; simpl; [done|].
  destruct (has_id i r) eqn:Hi.
  - rewrite filter_cons_True by done. simpl. intros [= <-]. split; [by left|].
    by apply has_id_true.
  - rewrite filter_cons_False by (by rewrite Hi). intros [Hin Hid]%IH. split; [by right|done].
Qed.

Lemma head_filter_unique table row :
  NoDup (map id table) -> row ∈ table ->
  head (filter (fun r => has_id (id row) r = true) table) = Some row.
Proof.
  induction table as [|r table IH]; simpl; [by intros _ ?%elem_of_nil|].
  intros [Hfresh Hnodup]%NoDup_cons [->|Hin]%elem_of_cons.
  - rewrite filter_cons_True by (by apply has_id_true). done.
  - rewrite filter_cons_False; [by apply IH|].
    rewrite has_id_true. intros Heq. apply Hfresh. rewrite Heq.
    apply list_elem_of_In, in_map, list_elem_of_In, Hin.
Qed.

(** X11.  getTaskById agrees with getTasks.  On a healthy engine both
    return, and getTaskById(id) returns a row exactly when that row is in the
    list getTasks returns and has that id; it returns no row exactly when no
    row of the list has the id. *)
Theorem getTaskById_agrees_with_getTasks i w :
  store_ok w -> healthy (faults w) ->
  exists allRows found,
    fst (getTasks w) = Resolved allRows /\
    fst (getTaskById i w) = Resolved found /\
    (forall row, found = Some row <-> row ∈ allRows /\ id row = i) /\
    (found = None <-> i ∉ map id allRows).
Proof.
  intros Hok Hh.
  destruct (getTasks_healthy w Hok Hh) as (w1 & -> & _).
  destruct (getTaskById_healthy i w Hok Hh) as (w2 & -> & _).
  eexists _, _. split; [reflexivity|]. split; [reflexivity|].
  pose proof (ok_primary_key w Hok) as Hkey. split.
  - intros row. split.
    + apply head_filter_elem.
    + intros [Hin <-]. by apply head_filter_unique.
  - split.
    + intros Hnone Hin. apply list_elem_of_In, in_map_iff in Hin as (row & <- & Hin).
      apply list_elem_of_In in Hin.
      by rewrite (head_filter_unique (rows w) row Hkey Hin) in Hnone.
    + intros Hnot. by rewrite filter_missing.
Qed.

Lemma getTaskById_agrees_with_getTasks_witness :
  store_ok one_task /\ healthy (faults one_task) /\
  exists row, fst (getTaskById 1 one_task) = Resolved (Some row) /\
              fst (getTasks one_task) = Resolved [row].
Proof.
  pose proof one_task_ok as Hok. pose proof one_task_healthy as Hh.
  split; [exact Hok|]. split; [exact Hh|].
  destruct (getTaskById_agrees_with_getTasks 1 one_task Hok Hh)
    as (allRows & found & Hall & Hfound & Hiff & _).
  assert (Hrows : allRows = rows one_task).
  { assert (Hget : fst (getTasks one_task) = Resolved (rows one_task)) by reflexivity.
    rewrite Hall in Hget. by injection Hget. }
  exists {| id := 1; title := "Buy milk"; description := Some "";
            status := Some "pending" |}.
  rewrite Hfound, Hall, Hrows. split; [|reflexivity]. f_equal.
  apply Hiff. rewrite Hrows. split; [|reflexivity]. vm_compute. left.
Defined.
End one_row_claims.

(** * The statuses, on any engine *)

Section status_facts.
Implicit Types (w : World) (database : SQLiteDatabase) (q : Sql) (i : Z).

Lemma store_write_enumerated q w :
  binds_enumerated q -> all_enumerated (rows w) ->
  all_enumerated (rows (snd (store_write q w))).
Proof.
  intros Hq Hall. unfold store_write.
  apply (after_await (fun w => all_enumerated (rows w))).
  - by destruct (await_getDb_frame w) as (-> & _).
  - intros database w1 Hall1. by apply runAsync_enumerated.
Qed.

Lemma getTasks_enumerated w :
  all_enumerated (rows w) -> all_enumerated (rows (snd (getTasks w))).
Proof. intros Hall. by apply (perform_enumerated GetTasks). Qed.

Lemma getTaskById_enumerated i w :
  all_enumerated (rows w) -> all_enumerated (rows (snd (getTaskById i w))).
Proof. intros Hall. by apply (perform_enumerated (GetTaskById i)). Qed.

(** The row getTaskById found is a row of the table. *)
Lemma getTaskById_found i w task w' :
  getTaskById i w = (Resolved (Some task), w') -> task ∈ rows w' /\ id task = i.
Proof.
  unfold getTaskById. unfold bind at 1.
  destruct (await getDb w) as [[database|error|] w1]; [|done|done].
  rewrite guarded. unfold getFirstAsync.
  destruct (call_pop_frame (GetFirstAsync database i) w1) as (_ & _ & _ & Hf & _).
  destruct (pop_fault (call (GetFirstAsync database i) w1)) as [[error|] w2];
    simpl in *; [done|].
  destruct (tasks (file w2)) as [table|] eqn:Htable; [|done].
  intros [= Hhead <-]. unfold rows. rewrite Htable. simpl.
  by apply head_filter_elem.
Qed.

Lemma call_log c w :
  call_enumerated c -> Forall call_enumerated (calls w) ->
  Forall call_enumerated (calls (snd (pop_fault (call c w)))).
Proof.
  intros Hc Hlog.
  destruct (pop_fault_frame (call c w)) as (_ & _ & _ & _ & _ & -> & _).
  simpl. apply Forall_app. split; [done|]. by apply Forall_singleton.
Qed.

Lemma turn_log p w :
  Forall call_enumerated (calls w) -> Forall call_enumerated (calls (turn p w)).
Proof.
  intros Hlog. unfold turn.
  destruct (pop_fault_frame w) as (_ & _ & Hps & _ & _ & Hc & _).
  destruct (promises w !! p) as [[[|newDb]| |]|] eqn:Hp; try done;
    destruct (pop_fault w) as [[error|] w']; simpl in *.
  - unfold open_settles. rewrite Hps, Hp. world_simpl. by rewrite Hc.
  - unfold open_settles. rewrite Hps, Hp. world_simpl. rewrite Hc.
    apply Forall_app. split; [done|]. by apply Forall_singleton.
  - unfold exec_settles. rewrite Hps, Hp. world_simpl. by rewrite Hc.
  - unfold exec_settles. rewrite Hps, Hp. world_simpl. by rewrite Hc.
Qed.

Lemma await_getDb_log w :
  Forall call_enumerated (calls w) ->
  Forall call_enumerated (calls (snd (await getDb w))).
Proof.
  intros Hlog. unfold await.
  assert (Hget : Forall call_enumerated (calls (snd (getDb w)))).
  { unfold getDb. destruct (db w); [done|]. destruct (dbPromise w); [done|].
    simpl. apply Forall_app. split; [done|]. by apply Forall_singleton. }
  destruct (getDb w) as [[database|p] w1]; simpl in *; [done|].
  by do 2 apply turn_log.
Qed.

Lemma store_write_log q w :
  binds_enumerated q -> Forall call_enumerated (calls w) ->
  Forall call_enumerated (calls (snd (store_write q w))).
Proof.
  intros Hq Hlog. unfold store_write.
  apply (after_await (fun w => Forall call_enumerated (calls w)));
    [by apply await_getDb_log|].
  intros database w1 Hlog1. unfold runAsync.
  pose proof (call_log (RunAsync database q) w1 Hq Hlog1) as Hlog2.
  destruct (pop_fault (call (RunAsync database q) w1)) as [[error|] w2];
    simpl in *; [done|].
  destruct (tasks (file w2)) as [table|]; [|done].
  by destruct (run_sql q table (sqlite_sequence (file w2))) as [[[table' seq'] inserted] n].
Qed.

Lemma getTasks_log w :
  Forall call_enumerated (calls w) -> Forall call_enumerated (calls (snd (getTasks w))).
Proof.
  intros Hlog. unfold getTasks.
  apply (after_await (fun w => Forall call_enumerated (calls w)));
    [by apply await_getDb_log|].
  intros database w1 Hlog1. unfold getAllAsync.
  pose proof (call_log (GetAllAsync database) w1 I Hlog1) as Hlog2.
  destruct (pop_fault (call (GetAllAsync database) w1)) as [[error|] w2];
    simpl in *; [done|].
  by destruct (tasks (file w2)).
Qed.

Lemma getTaskById_log i w :
  Forall call_enumerated (calls w) ->
  Forall call_enumerated (calls (snd (getTaskById i w))).
Proof.
  intros Hlog. unfold getTaskById.
  apply (after_await (fun w => Forall call_enumerated (calls w)));
    [by apply await_getDb_log|].
  intros database w1 Hlog1. unfold getFirstAsync.
  pose proof (call_log (GetFirstAsync database i) w1 I Hlog1) as Hlog2.
  destruct (pop_fault (call (GetFirstAsync database i) w1)) as [[error|] w2];
    simpl in *; [done|].
  by destruct (tasks (file w2)).
Qed.

(** The statuses of the rows and of the statements asked for, together. *)
Lemma store_write_clean q w :
  binds_enumerated q -> clean w -> clean (snd (store_write q w)).
Proof.
  intros Hq [Hall Hlog]. split;
    [by apply store_write_enumerated | by apply store_write_log].
Qed.

Lemma getTasks_clean w : clean w -> clean (snd (getTasks w)).
Proof.
  intros [Hall Hlog]. split; [by apply getTasks_enumerated | by apply getTasks_log].
Qed.

Lemma getTaskById_clean i w : clean w -> clean (snd (getTaskById i w)).
Proof.
  intros [Hall Hlog]. split;
    [by apply getTaskById_enumerated | by apply getTaskById_log].
Qed.
End status_facts.

(** * More about the session mirror and the app root *)

Section layout_claims.
Context `{Json}.
Variable provider : string -> Settled UserInfo.
Implicit Types (s : Session) (user : UserInfo) (accessToken : string).

(** X12.  A sign-in whose identity fetch throws fails silently: the
    function itself does not throw, the identity in memory and the key-value
    store are untouched, no storage call is made, and the one thing that
    happens is the 'Erro no Login' alert. *)
Theorem failed_fetch_only_alerts accessToken error s :
  provider accessToken = Thrown error ->
  fetchUserInfo provider accessToken s =
    (Resolved tt,
     {| userInfo := userInfo s; loadingAuth := loadingAuth s;
        AsyncStorage := AsyncStorage s; storage_faults := storage_faults s;
        alerts := alerts s ++ [ErroNoLogin] |}).
Proof.
  intros Hfetch. unfold fetchUserInfo, try_catch, fetch_json, bind.
  by rewrite Hfetch.
Qed.

(** X13.  restoreSession cannot fail and only reads.  In any state and
    whatever the key-value store does, checkStoredUser returns without
    throwing, ends with [loadingAuth] false, shows no alert and leaves the
    key-value store as it was.  The identity in memory becomes the parsed
    value when the read succeeds with a non-empty string that parses; it is
    left as it was when the read throws, when nothing or the empty string is
    stored, and when the stored string does not parse. *)
Theorem checkStoredUser_cannot_fail s :
  let s' := snd (checkStoredUser s) in
  let read_throws := exists error, head (storage_faults s) = Some (Some error) in
  fst (checkStoredUser s) = Resolved tt /\
  loadingAuth s' = false /\
  AsyncStorage s' = AsyncStorage s /\
  alerts s' = alerts s /\
  (read_throws -> userInfo s' = userInfo s) /\
  (AsyncStorage s !! "userInfo" = None -> userInfo s' = userInfo s) /\
  (AsyncStorage s !! "userInfo" = Some "" -> userInfo s' = userInfo s) /\
  (forall v, AsyncStorage s !! "userInfo" = Some v -> JSON_parse v = None ->
             userInfo s' = userInfo s) /\
  (forall v user, ~ read_throws -> AsyncStorage s !! "userInfo" = Some v -> v <> "" ->
                  JSON_parse v = Some user -> userInfo s' = Some user).
Proof.
  cbv zeta. unfold checkStoredUser, try_finally, try_catch, bind, getItem, storage_call.
  destruct s as [u l kv fs al].
  cbn [setLoadingAuth userInfo loadingAuth AsyncStorage storage_faults alerts].
  destruct (head fs) as [[error|]|] eqn:Hhead; cbn;
    [|destruct (kv !! "userInfo") as [v|] eqn:Hv; cbn;
      [destruct (truthy v) eqn:Ht; cbn;
       [destruct (JSON_parse v) as [parsed|] eqn:Hp; cbn|]|]
     |destruct (kv !! "userInfo") as [v|] eqn:Hv; cbn;
      [destruct (truthy v) eqn:Ht; cbn;
       [destruct (JSON_parse v) as [parsed|] eqn:Hp; cbn|]|]];
    (split_and!; try done; intros;
     repeat match goal with
            | Hex : exists _, _ |- _ => destruct Hex
            | Hno : ~ (exists _, _) |- _ => try (destruct Hno; by eexists)
            end;
     simplify_eq; try done; try congruence;
     try match goal with Hne : ?x <> "" |- _ => by destruct x end).
Qed.

(** X14.  A completed sign-in replaces the session.  While the key-value
    store does not fail, a sign-in whose identity fetch succeeds returns
    without an alert, puts the fetched identity in memory and rewrites
    exactly the two keys 'userToken' and 'userInfo', whatever session was
    there before; every other key keeps its value. *)
Theorem completed_sign_in_replaces_session accessToken user s :
  provider accessToken = Resolved user -> healthy (storage_faults s) ->
  let s' := snd (fetchUserInfo provider accessToken s) in
  fst (fetchUserInfo provider accessToken s) = Resolved tt /\
  userInfo s' = Some user /\
  alerts s' = alerts s /\
  AsyncStorage s' !! "userToken" = Some accessToken /\
  AsyncStorage s' !! "userInfo" = Some (JSON_stringify user) /\
  forall key, key <> "userToken" -> key <> "userInfo" ->
              AsyncStorage s' !! key = AsyncStorage s !! key.
Proof.
  intros Hfetch Hh.
  assert (Hrun : fetchUserInfo provider accessToken s =
    (Resolved tt,
     {| userInfo := Some user; loadingAuth := loadingAuth s;
        AsyncStorage := <["userInfo" := JSON_stringify user]>
                          (<["userToken" := accessToken]> (AsyncStorage s));
        storage_faults := tail (tail (storage_faults s)); alerts := alerts s |})).
  { unfold fetchUserInfo, try_catch, fetch_json.
    unfold bind at 1. rewrite Hfetch.
    unfold bind at 1. simpl.
    unfold bind at 1. rewrite setItem_healthy by done.
    by rewrite setItem_healthy by (by apply healthy_tail). }
  rewrite Hrun. simpl. split_and!; try done.
  - rewrite lookup_insert_ne by done. apply lookup_insert_eq.
  - apply lookup_insert_eq.
  - intros key Ht Hi. by rewrite !lookup_insert_ne.
Qed.

(** X15.  A sign-out whose first delete throws does nothing.  handleLogout
    has no try/catch: when removeItem('userToken') throws, the function
    throws that error, the second delete is not attempted, the identity stays
    in memory, the key-value store is as it was and no 'Deslogado' alert is
    shown. *)
Theorem failed_sign_out_keeps_session error fs s :
  storage_faults s = Some error :: fs ->
  handleLogout s =
    (Thrown error,
     {| userInfo := userInfo s; loadingAuth := loadingAuth s;
        AsyncStorage := AsyncStorage s; storage_faults := fs; alerts := alerts s |}).
Proof.
  intros Hf. unfold handleLogout, bind, removeItem, storage_call. by rewrite Hf.
Qed.
End layout_claims.

Lemma failed_fetch_only_alerts_witness :
  one_provider "stale" = Thrown unauthorized /\
  alerts (snd (fetchUserInfo (H := plain_json) one_provider "stale" (first_launch [])))
  = [ErroNoLogin].
Proof.
  assert (Hfetch : one_provider "stale" = Thrown unauthorized) by reflexivity.
  split; [exact Hfetch|].
  by rewrite (failed_fetch_only_alerts (H := plain_json) one_provider "stale"
                unauthorized (first_launch []) Hfetch).
Defined.

Lemma checkStoredUser_cannot_fail_witness :
  let s := {| userInfo := None; loadingAuth := true;
              AsyncStorage := {["userInfo" := "not json"]};
              storage_faults := []; alerts := [] |} in
  AsyncStorage s !! "userInfo" = Some "not json" /\
  JSON_parse (Json := plain_json) "not json" = None /\
  userInfo (snd (checkStoredUser (H := plain_json) s)) = None.
Proof.
  intros s.
  assert (Hv : AsyncStorage s !! "userInfo" = Some "not json") by reflexivity.
  assert (Hp : JSON_parse (Json := plain_json) "not json" = None) by reflexivity.
  split; [exact Hv|]. split; [exact Hp|].
  destruct (checkStoredUser_cannot_fail (H := plain_json) s)
    as (_ & _ & _ & _ & _ & _ & _ & Hbad & _).
  exact (Hbad "not json" Hv Hp).
Defined.

Lemma completed_sign_in_replaces_session_witness :
  let s := snd (fetchUserInfo (H := plain_json) one_provider "token-1"
                  (first_launch [])) in
  let grace := {| name := "Grace Hopper"; email := "grace@example.org"; picture := "" |} in
  let provider := fun accessToken : string =>
                    if decide (accessToken = "token-2") then Resolved grace
                    else Thrown unauthorized in
  provider "token-2" = Resolved grace /\ healthy (storage_faults s) /\
  userInfo (snd (fetchUserInfo (H := plain_json) provider "token-2" s)) = Some grace /\
  AsyncStorage (snd (fetchUserInfo (H := plain_json) provider "token-2" s)) !! "userToken"
  = Some "token-2".
Proof.
  intros s grace provider.
  assert (Hfetch : provider "token-2" = Resolved grace) by reflexivity.
  assert (Hh : healthy (storage_faults s)) by (vm_compute; constructor).
  split; [exact Hfetch|]. split; [exact Hh|].
  destruct (completed_sign_in_replaces_session (H := plain_json) provider "token-2"
              grace s Hfetch Hh) as (_ & Hmem & _ & Htoken & _).
  split; [exact Hmem | exact Htoken].
Defined.

Lemma failed_sign_out_keeps_session_witness :
  let s0 := snd (fetchUserInfo (H := plain_json) one_provider "token-1"
                   (first_launch [None; None; Some storage_down])) in
  storage_faults s0 = [Some storage_down] /\
  fully_present s0 /\
  fst (handleLogout s0) = Thrown storage_down /\
  fully_present (snd (handleLogout s0)).
Proof.
  intros s0.
  assert (Hf : storage_faults s0 = [Some storage_down]) by reflexivity.
  assert (Hpresent : fully_present s0).
  { unfold fully_present. vm_compute. split_and!; eexists; reflexivity. }
  split; [exact Hf|]. split; [exact Hpresent|].
  rewrite (failed_sign_out_keeps_session storage_down [] s0 Hf). simpl.
  split; [reflexivity|]. exact Hpresent.
Defined.

Section first_word_facts.
Lemma first_word_no_space name : has_space (first_word name) = false.
Proof.
  induction name as [|c rest IH]; [done|]. cbn [first_word].
  destruct (decide (c = " "%char)) as [->|Hc]; [done|].
  cbn [has_space]. by rewrite decide_False.
Qed.

(** X16.  The name in the header, [userInfo.name.split(' ')[0]], is the
    name up to its first space: it holds no space, and the name is this
    first word followed by nothing or by a space and the rest.  So a name
    without a space is shown whole and a name that starts with a space is
    shown empty. *)
Theorem first_word_is_name_to_first_space name :
  has_space (first_word name) = false /\
  (name = first_word name \/
   exists rest, name = first_word name +:+ String " " rest) /\
  (has_space name = false -> first_word name = name).
Proof.
  split; [apply first_word_no_space|]. split.
  - induction name as [|c rest IH]; [by left|]. cbn [first_word].
    destruct (decide (c = " "%char)) as [->|Hc].
    + right. by exists rest.
    + destruct IH as [IH|[rest' IH]].
      * left. by rewrite <- IH.
      * right. exists rest'. by rewrite append_cons, <- IH.
  - induction name as [|c rest IH]; [done|]. cbn [first_word has_space].
    destruct (decide (c = " "%char)) as [->|Hc]; [done|].
    intros Hrest. by rewrite IH.
Qed.

Lemma first_word_is_name_to_first_space_witness :
  has_space "Madonna" = false /\
  first_word "Madonna" = "Madonna" /\
  first_word "Ada Lovelace" = "Ada" /\
  first_word " Ada" = "".
Proof.
  assert (Hplain : has_space "Madonna" = false) by reflexivity.
  split; [exact Hplain|].
  destruct (first_word_is_name_to_first_space "Madonna") as (_ & _ & Hwhole).
  split; [exact (Hwhole Hplain)|]. split; reflexivity.
Defined.
End first_word_facts.

Section app_root.
(** X17.  The root effect never throws, and it sets [dbInitialized] exactly
    when the open and the schema statement went through.  When it is set
    the connection is cached and the tasks table exists, so the screens,
    shown only then, find the database open.  When it is not set, nothing is
    cached, no open is in flight and the file is untouched; the effect runs
    once, so the app stays on its loading view. *)
Theorem initialize_sets_flag_when_open file0 fs :
  let a := snd (initialize (launch file0 fs)) in
  fst (initialize (launch file0 fs)) = Resolved tt /\
  (dbInitialized a = true <-> healthy (take 2 fs)) /\
  (dbInitialized a = true ->
   db (app_store a) = Some 0%nat /\ is_Some (tasks (file (app_store a))) /\
   rows (app_store a) = default [] (tasks file0)) /\
  (dbInitialized a = false ->
   db (app_store a) = None /\ dbPromise (app_store a) = None /\
   file (app_store a) = file0).
Proof.
  assert (Hcases : healthy (take 2 fs) \/
                   (exists error fs', fs = Some error :: fs') \/
                   (exists error fs', fs = None :: Some error :: fs')).
  { destruct fs as [|[e1|] [|[e2|] fs']].
    - left. constructor.
    - right. left. by eexists _, _.
    - right. left. by eexists _, _.
    - right. left. by eexists _, _.
    - left. repeat constructor.
    - right. right. by eexists _, _.
    - left. repeat constructor. }
  assert (Hrun : forall o w1,
    await getDb (start file0 fs) = (o, w1) ->
    initialize (launch file0 fs) =
      match o with
      | Resolved _ => (Resolved tt, {| app_store := w1; dbInitialized := true |})
      | Thrown _ => (Resolved tt, {| app_store := w1; dbInitialized := false |})
      | Hangs => (Hangs, {| app_store := w1; dbInitialized := false |})
      end).
  { intros o w1 Haw. unfold initialize, try_catch, lifted, setDbInitialized, launch, bind.
    cbn [app_store]. rewrite Haw. by destruct o. }
  destruct Hcases as [Hh|[(error & fs' & ->)|(error & fs' & ->)]].
  - rewrite (Hrun _ _ (await_getDb_idle_opens (start file0 fs) eq_refl eq_refl Hh)).
    simpl. split_and!; try done.
    intros _. split_and!; [done|apply create_table_is_Some|].
    unfold rows. simpl. apply rows_create_table.
  - rewrite (Hrun _ _ (await_getDb_idle_open_fails (start file0 (Some error :: fs'))
                         error fs' eq_refl eq_refl eq_refl)).
    simpl. split_and!; try done. split; [done|]. intros Hh. inversion Hh; subst. done.
  - rewrite (Hrun _ _ (await_getDb_idle_schema_fails
                         (start file0 (None :: Some error :: fs'))
                         error fs' eq_refl eq_refl eq_refl)).
    simpl. split_and!; try done. split; [done|]. intros Hh.
    inversion Hh as [|? ? ? Hh']; subst. inversion Hh'; subst. done.
Qed.

Lemma initialize_sets_flag_when_open_witness :
  healthy (take 2 [None; None; Some storage_down]) /\
  dbInitialized (snd (initialize (launch fresh_install [None; None; Some storage_down])))
  = true /\
  dbInitialized (snd (initialize (launch fresh_install [Some storage_down]))) = false.
Proof.
  assert (Hh : healthy (take 2 [None; None; Some storage_down])) by repeat constructor.
  split; [exact Hh|].
  destruct (initialize_sets_flag_when_open fresh_install [None; None; Some storage_down])
    as (_ & Hiff & _).
  split; [by apply Hiff | reflexivity].
Defined.
End app_root.

(** * The task list *)

Section screen_facts.
Context {L : Type}.
Implicit Types (s : Screen L).

Lemma in_store_run {A} (m : Async World A) s :
  in_store m s =
    (fst (m (screen_store s)), set_screen_store (snd (m (screen_store s))) s).
Proof. unfold in_store, lifted. by destruct (m (screen_store s)). Qed.
End screen_facts.

Section list_facts.
Import TaskListScreen.
Implicit Types (s : Screen TaskList) (w : World) (i : Z).

(** loadTasks, by what getTasks gives. *)
Lemma loadTasks_run s :
  loadTasks s =
    match getTasks (screen_store s) with
    | (Resolved fetchedTasks, w) =>
        (Resolved tt,
         {| screen_store := w;
            screen_state := {| list_tasks := fetchedTasks; list_loading := false;
                               list_filter := list_filter (screen_state s) |};
            screen_alerts := screen_alerts s;
            screen_navigation := screen_navigation s |})
    | (Thrown error, w) =>
        (Resolved tt,
         {| screen_store := w;
            screen_state := {| list_tasks := list_tasks (screen_state s);
                               list_loading := false;
                               list_filter := list_filter (screen_state s) |};
            screen_alerts :=
              screen_alerts s ++ [("Erro", "Não foi possível carregar as tarefas.")];
            screen_navigation := screen_navigation s |})
    | (Hangs, w) =>
        (Hangs,
         {| screen_store := w;
            screen_state := {| list_tasks := list_tasks (screen_state s);
                               list_loading := true;
                               list_filter := list_filter (screen_state s) |};
            screen_alerts := screen_alerts s;
            screen_navigation := screen_navigation s |})
    end.
Proof.
  unfold loadTasks, try_finally, try_catch, bind. rewrite in_store_run.
  destruct s as [w [ts l f] al nav]. simpl.
  by destruct (getTasks w) as [[fetched|error|] w'].
Qed.

Lemma getTasks_fault w database error fs :
  db w = Some database -> faults w = Some error :: fs ->
  getTasks w = (Thrown error, set_faults fs (call (GetAllAsync database) w)).
Proof.
  intros Hdb Hf. unfold getTasks. unfold bind at 1.
  by rewrite (await_getDb_opened w database Hdb), guarded,
    (getAllAsync_fault database w error fs Hf).
Qed.

(** X18.  loadTasks never throws and always ends the spinner.  On a healthy
    engine the list on screen becomes the rows of the table, with no alert.
    When the query throws, the error is swallowed: the list on screen stays
    what it was, one 'Erro' alert is shown, and the filter is kept. *)
Theorem loadTasks_never_throws s :
  (store_ok (screen_store s) -> healthy (faults (screen_store s)) ->
   let s' := snd (loadTasks s) in
   fst (loadTasks s) = Resolved tt /\
   list_tasks (screen_state s') = rows (screen_store s) /\
   rows (screen_store s') = rows (screen_store s) /\
   list_loading (screen_state s') = false /\
   list_filter (screen_state s') = list_filter (screen_state s) /\
   screen_alerts s' = screen_alerts s) /\
  (forall database error fs,
   db (screen_store s) = Some database -> faults (screen_store s) = Some error :: fs ->
   let s' := snd (loadTasks s) in
   fst (loadTasks s) = Resolved tt /\
   list_tasks (screen_state s') = list_tasks (screen_state s) /\
   file (screen_store s') = file (screen_store s) /\
   list_loading (screen_state s') = false /\
   list_filter (screen_state s') = list_filter (screen_state s) /\
   screen_alerts s' =
     screen_alerts s ++ [("Erro", "Não foi possível carregar as tarefas.")]).
Proof.
  split.
  - intros Hok Hh. rewrite loadTasks_run.
    destruct (getTasks_healthy _ Hok Hh) as (w' & -> & Hrows & _). by simpl.
  - intros database error fs Hdb Hf. rewrite loadTasks_run.
    by rewrite (getTasks_fault _ database error fs Hdb Hf).
Qed.

Lemma loadTasks_never_throws_witness :
  store_ok (screen_store (mounted one_task)) /\
  healthy (faults (screen_store (mounted one_task))) /\
  list_tasks (screen_state (snd (loadTasks (mounted one_task))))
  = rows (screen_store (mounted one_task)) /\
  list_loading (screen_state (snd (loadTasks (mounted one_task)))) = false.
Proof.
  pose proof one_task_ok as Hok. pose proof one_task_healthy as Hh.
  split; [exact Hok|]. split; [exact Hh|].
  destruct (loadTasks_never_throws (mounted one_task)) as [Hgood _].
  destruct (Hgood Hok Hh) as (_ & Htasks & _ & Hloading & _).
  split; [exact Htasks | exact Hloading].
Defined.

(** X19.  The filters.  'all' shows the whole list.  A task shown under
    'pending' has status 'pending' and one shown under 'completed' has status
    'completed', so no task is shown under both and a task with any other
    status is shown under 'all' only.  When every status is of the
    enumeration, the two filtered lists together are the whole list. *)
Theorem filters_partition_the_list (tasks : list Task) :
  filteredTasks FilterAll tasks = tasks /\
  (forall task, task ∈ filteredTasks FilterPending tasks <->
                task ∈ tasks /\ status task = Some "pending") /\
  (forall task, task ∈ filteredTasks FilterCompleted tasks <->
                task ∈ tasks /\ status task = Some "completed") /\
  (all_enumerated tasks ->
   filteredTasks FilterPending tasks ++ filteredTasks FilterCompleted tasks ≡ₚ tasks).
Proof.
  unfold filteredTasks. split_and!.
  - induction tasks as [|task tasks IH]; simpl; [done|]. by rewrite IH.
  - intros task. rewrite list_elem_of_In, filter_In, <- list_elem_of_In.
    simpl. by rewrite bool_decide_eq_true.
  - intros task. rewrite list_elem_of_In, filter_In, <- list_elem_of_In.
    simpl. by rewrite bool_decide_eq_true.
  - intros Hall. induction Hall as [|task tasks [Hs|Hs] Hall IH]; simpl; [done| |].
    + rewrite Hs. rewrite bool_decide_true by done.
      rewrite bool_decide_false by done. simpl. by rewrite IH.
    + rewrite Hs. rewrite bool_decide_false by done.
      rewrite bool_decide_true by done.
      rewrite <- Permutation_middle. by rewrite IH.
Qed.

Lemma filters_partition_the_list_witness :
  let tasks := [{| id := 1; title := "a"; description := Some ""; status := Some "pending" |};
                {| id := 2; title := "b"; description := Some ""; status := Some "completed" |};
                {| id := 3; title := "c"; description := Some ""; status := Some "pending" |}] in
  all_enumerated tasks /\
  filteredTasks FilterPending tasks ++ filteredTasks FilterCompleted tasks ≡ₚ tasks.
Proof.
  intros tasks.
  assert (Hall : all_enumerated tasks).
  { subst tasks. constructor; [by left|]. constructor; [by right|].
    constructor; [by left|]. constructor. }
  split; [exact Hall|].
  destruct (filters_partition_the_list tasks) as (_ & _ & _ & Hperm).
  exact (Hperm Hall).
Defined.
End list_facts.

Section toggle_facts.
Import TaskListScreen.
Implicit Types (s : Screen TaskList) (w : World) (i : Z) (table : list Task).

Lemma store_write_fault q w database error fs :
  db w = Some database -> faults w = Some error :: fs ->
  store_write q w = (Thrown error, set_faults fs (call (RunAsync database q) w)).
Proof.
  intros Hdb Hf. unfold store_write. unfold bind at 1.
  by rewrite (await_getDb_opened w database Hdb), guarded,
    (runAsync_fault database q w error fs Hf).
Qed.

Lemma find_is_first_match i table :
  List.find (fun task => id task =? i) table
  = head (filter (fun row => has_id i row = true) table).
Proof.
  induction table as [|row table IH]; simpl; [done|].
  unfold has_id at 1. destruct (id row =? i) eqn:Hid.
  - by rewrite filter_cons_True by done.
  - by rewrite filter_cons_False by (unfold has_id; by rewrite Hid).
Qed.

Lemma same_id_same_row table (r r' : Task) :
  NoDup (map id table) -> r ∈ table -> r' ∈ table -> id r = id r' -> r = r'.
Proof.
  intros Hkey Hr Hr' Hid.
  pose proof (head_filter_unique table r Hkey Hr) as H1.
  pose proof (head_filter_unique table r' Hkey Hr') as H2.
  rewrite Hid in H1. congruence.
Qed.

(** toggleTaskStatus, by what updateTask gives. *)
Lemma toggleTaskStatus_run i currentStatus s :
  toggleTaskStatus i currentStatus s =
    match List.find (fun task => id task =? i) (list_tasks (screen_state s)) with
    | None => (Resolved tt, s)
    | Some taskToUpdate =>
        match updateTask_unchecked i (title taskToUpdate) (description taskToUpdate)
                (Some (newStatus currentStatus)) (screen_store s) with
        | (Resolved _, w) => (Resolved tt, snd (loadTasks (set_screen_store w s)))
        | (Thrown error, w) =>
            (Resolved tt,
             snd (Alert_box "Erro" "Não foi possível atualizar o status da tarefa."
                    (set_screen_store w s)))
        | (Hangs, w) => (Hangs, set_screen_store w s)
        end
    end.
Proof.
  unfold toggleTaskStatus, try_catch.
  destruct (List.find _ _) as [taskToUpdate|]; [|done].
  unfold bind, not_awaited. rewrite in_store_run.
  by destruct (updateTask_unchecked _ _ _ _ _) as [[result|error|] w].
Qed.

Lemma toggle_healthy i row s :
  store_ok (screen_store s) -> healthy (faults (screen_store s)) ->
  list_tasks (screen_state s) = rows (screen_store s) ->
  row ∈ rows (screen_store s) -> id row = i ->
  let s' := snd (toggleTaskStatus i (status row) s) in
  fst (toggleTaskStatus i (status row) s) = Resolved tt /\
  rows (screen_store s') =
    map (fun r => if has_id i r
                  then {| id := id r; title := title r; description := description r;
                          status := Some (newStatus (status r)) |}
                  else r)
        (rows (screen_store s)) /\
  list_tasks (screen_state s') = rows (screen_store s') /\
  list_loading (screen_state s') = false /\
  screen_alerts s' = screen_alerts s /\
  store_ok (screen_store s') /\ healthy (faults (screen_store s')).
Proof.
  intros Hok Hh Hsync Hin Hid. simpl.
  pose proof (ok_primary_key _ Hok) as Hkey.
  rewrite toggleTaskStatus_run, Hsync, find_is_first_match.
  rewrite <- Hid, (head_filter_unique _ row Hkey Hin), Hid.
  destruct (store_write_healthy
              (UPDATE (title row) (description row) (Some (newStatus (status row))) i)
              _ _ _ _ _ Hok Hh eq_refl) as (w1 & Hupd & Hr1 & _ & _ & Hok1 & Hh1).
  rewrite updateTask_unchecked_write, Hupd, loadTasks_run.
  cbn [set_screen_store screen_store].
  destruct (getTasks_healthy w1 Hok1 Hh1) as (w2 & -> & Hr2 & _ & _ & Hok2 & Hh2).
  simpl. split_and!; try done.
  rewrite Hr2, Hr1. apply map_ext_in. intros r Hr%list_elem_of_In.
  destruct (has_id i r) eqn:Hir; [|done].
  apply has_id_true in Hir.
  by assert (r = row) as -> by (apply (same_id_same_row _ _ _ Hkey Hr Hin); congruence).
Qed.

(** X20.  A toggle changes one status and nothing else.  On a healthy
    engine, with the list on screen in step with the table, toggling a task
    of the table rewrites its status ('pending' becomes 'completed', anything
    else becomes 'pending'), keeps its title and description (a NULL
    description stays NULL) and every other row, and reloads the list; no
    alert is shown.  Toggling an id that is not in the list on screen does
    nothing at all. *)
Theorem toggle_flips_one_status i row s :
  (store_ok (screen_store s) -> healthy (faults (screen_store s)) ->
   list_tasks (screen_state s) = rows (screen_store s) ->
   row ∈ rows (screen_store s) -> id row = i ->
   let s' := snd (toggleTaskStatus i (status row) s) in
   rows (screen_store s') =
     map (fun r => if has_id i r
                   then {| id := id r; title := title r; description := description r;
                           status := Some (newStatus (status r)) |}
                   else r)
         (rows (screen_store s)) /\
   list_tasks (screen_state s') = rows (screen_store s') /\
   list_loading (screen_state s') = false /\
   screen_alerts s' = screen_alerts s) /\
  (forall currentStatus,
   i ∉ map id (list_tasks (screen_state s)) ->
   toggleTaskStatus i currentStatus s = (Resolved tt, s)).
Proof.
  split.
  - intros Hok Hh Hsync Hin Hid.
    destruct (toggle_healthy i row s Hok Hh Hsync Hin Hid)
      as (_ & Hrows & Hlist & Hload & Halerts & _).
    by split_and!.
  - intros currentStatus Hnot.
    by rewrite toggleTaskStatus_run, find_is_first_match, filter_missing.
Qed.

Lemma listed_ok : store_ok (screen_store listed).
Proof.
  apply (store_ok_opened (screen_store listed) 0%nat [buy_milk_row]);
    [vm_compute; reflexivity | vm_compute; reflexivity |].
  apply (bool_decide_unpack _). vm_compute. exact I.
Qed.

Lemma listed_healthy : healthy (faults (screen_store listed)).
Proof. vm_compute. constructor. Qed.

Lemma listed_in_step : list_tasks (screen_state listed) = rows (screen_store listed).
Proof. vm_compute. reflexivity. Qed.

Lemma listed_row : buy_milk_row ∈ rows (screen_store listed).
Proof. vm_compute. left. Qed.

Lemma toggle_flips_one_status_witness :
  store_ok (screen_store listed) /\ healthy (faults (screen_store listed)) /\
  list_tasks (screen_state listed) = rows (screen_store listed) /\
  buy_milk_row ∈ rows (screen_store listed) /\
  id buy_milk_row = 1 /\
  list_loading
    (screen_state (snd (toggleTaskStatus 1 (status buy_milk_row) listed))) = false.
Proof.
  split; [exact listed_ok|]. split; [exact listed_healthy|].
  split; [exact listed_in_step|].
  split; [exact listed_row|]. split; [reflexivity|].
  destruct (toggle_flips_one_status 1 buy_milk_row listed) as [Hflip _].
  destruct (Hflip listed_ok listed_healthy listed_in_step
              listed_row eq_refl) as (_ & _ & Hloading & _).
  exact Hloading.
Defined.

(** A NULL description is bound as it is and stays NULL. *)
Example toggle_keeps_null_description :
  rows (screen_store (snd (toggleTaskStatus 1 (Some "pending") legacy_listed)))
  = [{| id := 1; title := "Old"; description := None; status := Some "completed" |}].
Proof. vm_compute. reflexivity. Qed.

(** X21.  Toggling twice gives the table back.  On a healthy engine,
    with the list on screen in step with the table, for a task of the table
    whose status is 'pending' or 'completed', a toggle followed by a toggle
    of the same task (with the status then on screen) leaves the rows of the
    table as they were before the first. *)
Theorem toggle_twice_restores i row s :
  store_ok (screen_store s) -> healthy (faults (screen_store s)) ->
  list_tasks (screen_state s) = rows (screen_store s) ->
  row ∈ rows (screen_store s) -> id row = i -> enumerated (status row) ->
  let s1 := snd (toggleTaskStatus i (status row) s) in
  let s2 := snd (toggleTaskStatus i (Some (newStatus (status row))) s1) in
  rows (screen_store s2) = rows (screen_store s).
Proof.
  intros Hok Hh Hsync Hin Hid Henum. simpl.
  pose proof (ok_primary_key _ Hok) as Hkey.
  destruct (toggle_healthy i row s Hok Hh Hsync Hin Hid)
    as (_ & Hrows1 & Hsync1 & _ & _ & Hok1 & Hh1).
  set (s1 := snd (toggleTaskStatus i (status row) s)) in *.
  set (row1 := {| id := id row; title := title row; description := description row;
                  status := Some (newStatus (status row)) |}).
  assert (Hin1 : row1 ∈ rows (screen_store s1)).
  { rewrite Hrows1. apply list_elem_of_In, in_map_iff. exists row.
    split; [|by apply list_elem_of_In].
    by rewrite (proj2 (has_id_true i row) Hid). }
  destruct (toggle_healthy i row1 s1 Hok1 Hh1 Hsync1 Hin1 Hid)
    as (_ & Hrows2 & _).
  change (status row1) with (Some (newStatus (status row))) in Hrows2.
  rewrite Hrows2, Hrows1, map_map. rewrite <- (map_id (rows (screen_store s))) at 2.
  apply map_ext_in. intros r Hr%list_elem_of_In.
  destruct (has_id i r) eqn:Hir; simpl; [|by rewrite Hir].
  unfold has_id at 1. simpl. fold (has_id i r). rewrite Hir.
  apply has_id_true in Hir.
  assert (r = row) as -> by (apply (same_id_same_row _ _ _ Hkey Hr Hin); congruence).
  destruct row as [ri rt rd rs]. simpl in *. f_equal.
  destruct Henum as [->| ->]; reflexivity.
Qed.

Lemma toggle_twice_restores_witness :
  store_ok (screen_store listed) /\ healthy (faults (screen_store listed)) /\
  list_tasks (screen_state listed) = rows (screen_store listed) /\
  buy_milk_row ∈ rows (screen_store listed) /\
  id buy_milk_row = 1 /\ enumerated (status buy_milk_row) /\
  rows (screen_store
          (snd (toggleTaskStatus 1 (Some (newStatus (status buy_milk_row)))
                  (snd (toggleTaskStatus 1 (status buy_milk_row) listed)))))
  = rows (screen_store listed).
Proof.
  assert (Henum : enumerated (status buy_milk_row)) by (by left).
  split; [exact listed_ok|]. split; [exact listed_healthy|].
  split; [exact listed_in_step|].
  split; [exact listed_row|]. split; [reflexivity|]. split; [exact Henum|].
  exact (toggle_twice_restores 1 buy_milk_row listed listed_ok listed_healthy
           listed_in_step listed_row eq_refl Henum).
Defined.
End toggle_facts.

Section list_delete_facts.
Import TaskListScreen.
Implicit Types (s : Screen TaskList) (w : World) (i : Z).

Lemma loadTasks_store s :
  screen_store (snd (loadTasks s)) = perform GetTasks (screen_store s).
Proof.
  rewrite loadTasks_run. simpl.
  by destruct (getTasks (screen_store s)) as [[fetched|error|] w].
Qed.

Lemma handleDeleteTask_run i pressed s :
  let confirmed :=
    {| screen_store := screen_store s; screen_state := screen_state s;
       screen_alerts :=
         screen_alerts s ++
         [("Confirmar Exclusão", "Tem certeza que deseja excluir esta tarefa?")];
       screen_navigation := screen_navigation s |} in
  handleDeleteTask i pressed s =
    match pressed with
    | PressedExcluir =>
        match deleteTask i (screen_store s) with
        | (Resolved _, w) =>
            (Resolved tt,
             snd (loadTasks
                    (snd (Alert_box "Sucesso" "Tarefa excluída com sucesso!"
                            (set_screen_store w confirmed)))))
        | (Thrown error, w) =>
            (Resolved tt,
             snd (Alert_box "Erro" "Não foi possível excluir a tarefa."
                    (set_screen_store w confirmed)))
        | (Hangs, w) => (Hangs, set_screen_store w confirmed)
        end
    | _ => (Resolved tt, confirmed)
    end.
Proof.
  simpl. unfold handleDeleteTask. unfold bind at 1. unfold Alert_box at 1.
  destruct pressed; [done| |done].
  unfold try_catch, bind, not_awaited. rewrite in_store_run. simpl.
  by destruct (deleteTask i (screen_store s)) as [[result|error|] w].
Qed.

(** X22.  Deleting from the list asks first.  Unless the user presses
    'Excluir' nothing but the confirmation alert happens: no call into the
    store is made.  After 'Excluir', on a healthy engine, the rows of that id
    are gone from the table, the others are kept in order, the success alert
    follows the confirmation and the list on screen is reloaded.  When the
    delete throws, the table is untouched, the error alert follows the
    confirmation and the list on screen is not reloaded. *)
Theorem list_delete_asks_first i s :
  let confirm := ("Confirmar Exclusão", "Tem certeza que deseja excluir esta tarefa?") in
  (forall pressed, pressed <> PressedExcluir ->
   handleDeleteTask i pressed s =
     (Resolved tt,
      {| screen_store := screen_store s; screen_state := screen_state s;
         screen_alerts := screen_alerts s ++ [confirm];
         screen_navigation := screen_navigation s |})) /\
  (store_ok (screen_store s) -> healthy (faults (screen_store s)) ->
   let s' := snd (handleDeleteTask i PressedExcluir s) in
   rows (screen_store s') =
     filter (fun row => has_id i row = false) (rows (screen_store s)) /\
   list_tasks (screen_state s') = rows (screen_store s') /\
   list_loading (screen_state s') = false /\
   screen_alerts s' =
     screen_alerts s ++ [confirm; ("Sucesso", "Tarefa excluída com sucesso!")]) /\
  (forall database error fs,
   db (screen_store s) = Some database -> faults (screen_store s) = Some error :: fs ->
   let s' := snd (handleDeleteTask i PressedExcluir s) in
   file (screen_store s') = file (screen_store s) /\
   screen_state s' = screen_state s /\
   screen_alerts s' =
     screen_alerts s ++ [confirm; ("Erro", "Não foi possível excluir a tarefa.")]).
Proof.
  simpl. split_and!.
  - intros pressed Hno. rewrite handleDeleteTask_run. by destruct pressed.
  - intros Hok Hh. rewrite handleDeleteTask_run. cbv zeta.
    destruct (store_write_healthy (DELETE i) _ _ _ _ _ Hok Hh eq_refl)
      as (w1 & Hdel & Hr1 & _ & _ & Hok1 & Hh1).
    rewrite deleteTask_write, Hdel, loadTasks_run.
    cbn [Alert_box set_screen_store screen_store screen_state screen_alerts
         screen_navigation snd].
    destruct (getTasks_healthy w1 Hok1 Hh1) as (w2 & -> & Hr2 & _).
    simpl. rewrite Hr2, Hr1. split_and!; try done.
    by rewrite <- (assoc_L (++)).
  - intros database error fs Hdb Hf. rewrite handleDeleteTask_run. cbv zeta.
    rewrite deleteTask_write, (store_write_fault _ _ database error fs Hdb Hf).
    simpl. split_and!; try done. by rewrite <- (assoc_L (++)).
Qed.

Lemma list_delete_asks_first_witness :
  store_ok (screen_store listed) /\ healthy (faults (screen_store listed)) /\
  PressedCancelar <> PressedExcluir /\
  handleDeleteTask 1 PressedCancelar listed =
    (Resolved tt,
     {| screen_store := screen_store listed; screen_state := screen_state listed;
        screen_alerts :=
          screen_alerts listed ++
          [("Confirmar Exclusão", "Tem certeza que deseja excluir esta tarefa?")];
        screen_navigation := screen_navigation listed |}) /\
  list_tasks (screen_state (snd (handleDeleteTask 1 PressedExcluir listed)))
  = rows (screen_store (snd (handleDeleteTask 1 PressedExcluir listed))).
Proof.
  assert (Hno : PressedCancelar <> PressedExcluir) by discriminate.
  split; [exact listed_ok|]. split; [exact listed_healthy|]. split; [exact Hno|].
  destruct (list_delete_asks_first 1 listed) as (Hcancel & Hdelete & _).
  destruct (Hdelete listed_ok listed_healthy) as (_ & Hlist & _).
  split; [exact (Hcancel PressedCancelar Hno) | exact Hlist].
Defined.

Lemma newStatus_enumerated currentStatus : enumerated (Some (newStatus currentStatus)).
Proof. unfold newStatus. case_bool_decide; [by right|by left]. Qed.
End list_delete_facts.

(** Whatever the store functions keep, the list screen keeps. *)
Section list_keeps.
Import TaskListScreen.
Implicit Types (s : Screen TaskList) (w : World).
Variable P : World -> Prop.
Hypothesis P_write : forall q w, binds_enumerated q -> P w -> P (snd (store_write q w)).
Hypothesis P_getTasks : forall w, P w -> P (snd (getTasks w)).

Lemma loadTasks_keeps s : P (screen_store s) -> P (screen_store (snd (loadTasks s))).
Proof. rewrite loadTasks_store. apply P_getTasks. Qed.

Lemma act_keeps a s : P (screen_store s) -> P (screen_store (act a s)).
Proof.
  intros HP. destruct a as [|i currentStatus|i pressed|f]; simpl.
  - by apply loadTasks_keeps.
  - rewrite toggleTaskStatus_run.
    destruct (List.find _ _) as [taskToUpdate|]; [|done].
    pose proof (P_write (UPDATE (title taskToUpdate) (description taskToUpdate)
                           (Some (newStatus currentStatus)) i) (screen_store s)
                  (newStatus_enumerated currentStatus) HP) as HP1.
    rewrite updateTask_unchecked_write.
    destruct (store_write _ (screen_store s)) as [[result|error|] w]; simpl in *;
      [by apply loadTasks_keeps|done|done].
  - rewrite handleDeleteTask_run. cbv zeta.
    destruct pressed; [done| |done].
    pose proof (P_write (DELETE i) (screen_store s) I HP) as HP1.
    rewrite deleteTask_write.
    destruct (store_write _ (screen_store s)) as [[result|error|] w]; simpl in *;
      [by apply loadTasks_keeps|done|done].
  - done.
Qed.
End list_keeps.

Section list_statuses.
Import TaskListScreen.
Implicit Types (s : Screen TaskList) (w : World).

(** X23.  The list screen keeps the statuses within the enumeration.  The
    status a toggle writes is computed, never taken from its argument, so:
    from a table whose statuses are 'pending' or 'completed', any sequence of
    focus, toggle, delete and filter actions, with any arguments and whatever
    fails, leaves a table whose statuses are 'pending' or 'completed'. *)
Theorem list_screen_keeps_statuses_enumerated actions s :
  all_enumerated (rows (screen_store s)) ->
  all_enumerated (rows (screen_store (act_all actions s))).
Proof.
  unfold act_all. revert s.
  induction actions as [|a actions IH]; intros s Hall; simpl; [done|].
  apply IH.
  apply (act_keeps (fun w => all_enumerated (rows w))); [| |done].
  - intros q w. apply store_write_enumerated.
  - apply getTasks_enumerated.
Qed.

Lemma list_screen_keeps_statuses_enumerated_witness :
  all_enumerated (rows (screen_store listed)) /\
  all_enumerated
    (rows (screen_store
             (act_all [Toggle 1 (Some "archived"); Focus; Toggle 1 None;
                       Delete 1 PressedExcluir; Filter FilterCompleted] listed))).
Proof.
  assert (Hall : all_enumerated (rows (screen_store listed))).
  { vm_compute. constructor; [by left|constructor]. }
  split; [exact Hall|].
  exact (list_screen_keeps_statuses_enumerated _ listed Hall).
Defined.
End list_statuses.

Section form_facts.
Import TaskFormScreen.
Implicit Types (s : Screen TaskForm) (w : World) (i : Z) (trim : string -> string).

(** What the save handler does once the title has passed the check. *)
Lemma handleSaveTask_run trim taskId s :
  trim (form_title (screen_state s)) <> "" ->
  let l := screen_state s in
  handleSaveTask trim taskId s =
    match
      match given_id taskId with
      | Some task_id =>
          (updateTask_unchecked task_id (form_title l) (Some (form_description l))
             (form_status l) (screen_store s),
           "Tarefa atualizada com sucesso!")
      | None =>
          (addTask (form_title l) (form_description l) (screen_store s),
           "Tarefa adicionada com sucesso!")
      end
    with
    | ((Resolved _, w), message) =>
        (Resolved tt,
         {| screen_store := w; screen_state := setLoading false l;
            screen_alerts := screen_alerts s ++ [("Sucesso", message)];
            screen_navigation := screen_navigation s ++ [GoBack] |})
    | ((Thrown error, w), message) =>
        (Resolved tt,
         {| screen_store := w; screen_state := setLoading false l;
            screen_alerts :=
              screen_alerts s ++ [("Erro", "Não foi possível salvar a tarefa.")];
            screen_navigation := screen_navigation s |})
    | ((Hangs, w), message) =>
        (Hangs,
         {| screen_store := w; screen_state := setLoading true l;
            screen_alerts := screen_alerts s; screen_navigation := screen_navigation s |})
    end.
Proof.
  intros Hfilled. simpl. unfold handleSaveTask.
  destruct (decide _) as [Hblank|_]; [done|].
  unfold try_finally, try_catch. unfold bind at 1.
  destruct (given_id taskId) as [task_id|].
  - unfold bind at 1. rewrite in_store_run. simpl.
    by destruct (updateTask_unchecked task_id _ _ _ (screen_store s))
      as [[result|error|] w].
  - unfold bind at 1. rewrite in_store_run. simpl.
    by destruct (addTask _ _ (screen_store s)) as [[result|error|] w].
Qed.

(** X24.  A title that is blank once trimmed is not saved: the handler shows
    its alert and returns.  It makes no call into the store, does not leave
    the screen and does not touch the loading flag, whether the form edits a
    task or creates one. *)
Theorem blank_title_is_not_saved trim taskId s :
  trim (form_title (screen_state s)) = "" ->
  handleSaveTask trim taskId s =
    (Resolved tt,
     {| screen_store := screen_store s; screen_state := screen_state s;
        screen_alerts :=
          screen_alerts s ++ [("Erro", "O título da tarefa não pode estar vazio.")];
        screen_navigation := screen_navigation s |}).
Proof.
  intros Hblank. unfold handleSaveTask. by destruct (decide _) as [_|Hfilled].
Qed.

Lemma blank_title_is_not_saved_witness :
  trim_ascii (form_title (screen_state (typed "   " "never stored" "pending"))) = "" /\
  rows (screen_store
          (snd (handleSaveTask trim_ascii None (typed "   " "never stored" "pending"))))
  = rows one_task.
Proof.
  assert (Hblank :
    trim_ascii (form_title (screen_state (typed "   " "never stored" "pending"))) = "")
    by reflexivity.
  split; [exact Hblank|].
  by rewrite (blank_title_is_not_saved trim_ascii None _ Hblank).
Defined.

(** X25.  A new task is stored as typed.  With no task id in the route (or
    the id 0), a title that is not blank once trimmed and a healthy engine,
    saving appends one row to the table: its id is new, its title is the
    title as typed (not the trimmed one), its description the one typed and
    its status 'pending' whatever the status switch of the form shows.  The
    success alert is shown, the screen is left and loading ends. *)
Theorem new_task_is_stored_as_typed trim taskId s :
  given_id taskId = None ->
  trim (form_title (screen_state s)) <> "" ->
  store_ok (screen_store s) -> healthy (faults (screen_store s)) ->
  let l := screen_state s in
  let s' := snd (handleSaveTask trim taskId s) in
  fst (handleSaveTask trim taskId s) = Resolved tt /\
  (exists rowid,
     (rowid ∉ map id (rows (screen_store s))) /\
     rows (screen_store s') =
       rows (screen_store s) ++
       [{| id := rowid; title := form_title l;
           description := Some (form_description l); status := Some "pending" |}]) /\
  screen_alerts s' = screen_alerts s ++ [("Sucesso", "Tarefa adicionada com sucesso!")] /\
  screen_navigation s' = screen_navigation s ++ [GoBack] /\
  form_loading (screen_state s') = false.
Proof.
  intros Hnew Hfilled Hok Hh. simpl.
  rewrite (handleSaveTask_run trim taskId s Hfilled). cbv zeta. rewrite Hnew.
  destruct (store_write_healthy
              (INSERT (form_title (screen_state s)) (form_description (screen_state s))
                 "pending") _ _ _ _ _ Hok Hh eq_refl)
    as (w1 & Hadd & Hr1 & _).
  rewrite addTask_write, Hadd. simpl. split_and!; try done.
  eexists. split; [|exact Hr1].
  apply fresh_rowid.
Qed.

Lemma new_task_is_stored_as_typed_witness :
  given_id (Some 0) = None /\
  trim_ascii (form_title (screen_state (typed " Walk dog " "twice" "completed"))) <> "" /\
  store_ok (screen_store (typed " Walk dog " "twice" "completed")) /\
  healthy (faults (screen_store (typed " Walk dog " "twice" "completed"))) /\
  screen_navigation
    (snd (handleSaveTask trim_ascii (Some 0) (typed " Walk dog " "twice" "completed")))
  = screen_navigation (typed " Walk dog " "twice" "completed") ++ [GoBack].
Proof.
  assert (Hnew : given_id (Some 0) = None) by reflexivity.
  assert (Hfilled :
    trim_ascii (form_title (screen_state (typed " Walk dog " "twice" "completed"))) <> "")
    by discriminate.
  split; [exact Hnew|]. split; [exact Hfilled|].
  split; [exact one_task_ok|]. split; [exact one_task_healthy|].
  destruct (new_task_is_stored_as_typed trim_ascii (Some 0)
              (typed " Walk dog " "twice" "completed") Hnew Hfilled
              one_task_ok one_task_healthy) as (_ & _ & _ & Hnav & _).
  exact Hnav.
Defined.

(** What the mount effect of the form does with the task it asked for. *)
Lemma form_loadTask_run i s :
  let l := screen_state s in
  loadTask i s =
    match getTaskById i (screen_store s) with
    | (Resolved (Some task), w) =>
        (Resolved tt,
         {| screen_store := w;
            screen_state := {| form_title := title task;
                               form_description := text (description task);
                               form_status := status task;
                               form_loading := false |};
            screen_alerts := screen_alerts s;
            screen_navigation := screen_navigation s |})
    | (Resolved None, w) =>
        (Resolved tt,
         {| screen_store := w; screen_state := setLoading false l;
            screen_alerts := screen_alerts s ++ [("Erro", "Tarefa não encontrada.")];
            screen_navigation := screen_navigation s ++ [GoBack] |})
    | (Thrown error, w) =>
        (Resolved tt,
         {| screen_store := w; screen_state := setLoading false l;
            screen_alerts :=
              screen_alerts s ++ [("Erro", "Não foi possível carregar a tarefa.")];
            screen_navigation := screen_navigation s ++ [GoBack] |})
    | (Hangs, w) =>
        (Hangs,
         {| screen_store := w; screen_state := setLoading true l;
            screen_alerts := screen_alerts s; screen_navigation := screen_navigation s |})
    end.
Proof.
  simpl. unfold loadTask, try_finally, try_catch. unfold bind at 1.
  rewrite in_store_run. simpl.
  by destruct (getTaskById i (screen_store s)) as [[[task|]|error|] w].
Qed.

Lemma overwrite_same table row :
  NoDup (map id table) -> row ∈ table ->
  is_Some (description row) ->
  map (fun r => if has_id (id row) r
                then overwrite (title row) (Some (text (description row))) (status row) r
                else r) table = table.
Proof.
  intros Hkey Hrow [d Hd].
  rewrite <- (map_id table) at 2. apply map_ext_in. intros r Hr%list_elem_of_In.
  destruct (has_id (id row) r) eqn:Hid; [|done].
  apply has_id_true in Hid.
  assert (r = row) as -> by (by apply (same_id_same_row table)).
  destruct row as [ri rt rd rs]. simpl in *. by subst.
Qed.

(** X26.  Opening a task in the form and saving it unchanged leaves the
    table as it was.  With a task id in the route, a healthy engine and a
    table without NULLs that holds the task: the mount effect fills the form
    with the row's title, description and status and ends loading; saving
    then (the title not being blank) writes the row back as it was, so the
    table after the save is the table before the form was opened, and the
    screen is left. *)
Theorem edit_without_changes_keeps_table trim taskId i s row :
  given_id taskId = Some i ->
  store_ok (screen_store s) -> healthy (faults (screen_store s)) ->
  never_null (rows (screen_store s)) ->
  row ∈ rows (screen_store s) -> id row = i ->
  trim (title row) <> "" ->
  let s1 := snd (on_mount taskId s) in
  let s2 := snd (handleSaveTask trim taskId s1) in
  form_title (screen_state s1) = title row /\
  Some (form_description (screen_state s1)) = description row /\
  form_status (screen_state s1) = status row /\
  form_loading (screen_state s1) = false /\
  screen_alerts s1 = screen_alerts s /\
  rows (screen_store s2) = rows (screen_store s) /\
  screen_alerts s2 = screen_alerts s ++ [("Sucesso", "Tarefa atualizada com sucesso!")] /\
  screen_navigation s2 = screen_navigation s ++ [GoBack].
Proof.
  intros Hid Hok Hh Hnn Hrow <- Hfilled. simpl.
  pose proof (ok_primary_key _ Hok) as Hkey.
  destruct (proj1 (Forall_forall _ _) Hnn row Hrow) as [Hd Hst].
  unfold on_mount. rewrite Hid, form_loadTask_run. cbv zeta.
  destruct (getTaskById_healthy (id row) _ Hok Hh) as (w1 & -> & Hr1 & _ & _ & Hok1 & Hh1).
  rewrite (head_filter_unique _ row Hkey Hrow).
  cbn [snd screen_state form_title form_description form_status form_loading
       screen_alerts].
  rewrite handleSaveTask_run by done. cbv zeta.
  cbn [screen_store screen_state form_title form_description form_status
       screen_alerts screen_navigation].
  rewrite Hid.
  destruct (store_write_healthy
              (UPDATE (title row) (Some (text (description row))) (status row) (id row))
              _ _ _ _ _ Hok1 Hh1 eq_refl) as (w2 & Hupd & Hr2 & _).
  rewrite updateTask_unchecked_write, Hupd. simpl.
  split_and!; try done.
  - by destruct Hd as [d ->].
  - rewrite Hr2, Hr1. by apply overwrite_same.
Qed.

Lemma edit_without_changes_keeps_table_witness :
  given_id (Some 1) = Some 1 /\
  store_ok (screen_store (mounted one_task)) /\
  healthy (faults (screen_store (mounted one_task))) /\
  never_null (rows (screen_store (mounted one_task))) /\
  buy_milk_row ∈ rows (screen_store (mounted one_task)) /\
  id buy_milk_row = 1 /\
  trim_ascii (title buy_milk_row) <> "" /\
  rows (screen_store
          (snd (handleSaveTask trim_ascii (Some 1)
                  (snd (on_mount (Some 1) (mounted one_task))))))
  = rows (screen_store (mounted one_task)).
Proof.
  assert (Hid : given_id (Some 1) = Some 1) by reflexivity.
  assert (Hnn : never_null (rows (screen_store (mounted one_task)))).
  { vm_compute. constructor; [|constructor]. split; by eexists. }
  assert (Hrow : buy_milk_row ∈ rows (screen_store (mounted one_task))).
  { vm_compute. left. }
  assert (Hfilled : trim_ascii (title buy_milk_row) <> "") by discriminate.
  split; [exact Hid|]. split; [exact one_task_ok|]. split; [exact one_task_healthy|].
  split; [exact Hnn|]. split; [exact Hrow|]. split; [reflexivity|].
  split; [exact Hfilled|].
  destruct (edit_without_changes_keeps_table trim_ascii (Some 1) 1 (mounted one_task)
              buy_milk_row Hid one_task_ok one_task_healthy Hnn Hrow eq_refl Hfilled)
    as (_ & _ & _ & _ & _ & Hrows & _).
  exact Hrows.
Defined.

(** X27.  A save that fails keeps the user on the form.  When the title is
    not blank and the engine call of the save throws, on an opened store, the
    handler itself does not throw: the file is as it was, the error alert is
    shown, the screen is not left, what was typed is kept and loading ends;
    this holds for a new task and for an edited one. *)
Theorem failed_save_stays_on_form trim taskId s database error fs :
  trim (form_title (screen_state s)) <> "" ->
  db (screen_store s) = Some database -> faults (screen_store s) = Some error :: fs ->
  let s' := snd (handleSaveTask trim taskId s) in
  fst (handleSaveTask trim taskId s) = Resolved tt /\
  file (screen_store s') = file (screen_store s) /\
  screen_alerts s' = screen_alerts s ++ [("Erro", "Não foi possível salvar a tarefa.")] /\
  screen_navigation s' = screen_navigation s /\
  screen_state s' = setLoading false (screen_state s).
Proof.
  intros Hfilled Hdb Hf. simpl.
  rewrite (handleSaveTask_run trim taskId s Hfilled). cbv zeta.
  destruct (given_id taskId) as [task_id|].
  - by rewrite updateTask_unchecked_write,
      (store_write_fault _ _ database error fs Hdb Hf).
  - by rewrite addTask_write, (store_write_fault _ _ database error fs Hdb Hf).
Qed.

Lemma failed_save_stays_on_form_witness :
  trim_ascii (form_title (screen_state (typed_offline "Walk dog" "" "pending"))) <> "" /\
  db (screen_store (typed_offline "Walk dog" "" "pending")) = Some 0%nat /\
  faults (screen_store (typed_offline "Walk dog" "" "pending")) = [Some storage_down] /\
  screen_navigation
    (snd (handleSaveTask trim_ascii None (typed_offline "Walk dog" "" "pending")))
  = screen_navigation (typed_offline "Walk dog" "" "pending").
Proof.
  assert (Hfilled :
    trim_ascii (form_title (screen_state (typed_offline "Walk dog" "" "pending"))) <> "")
    by discriminate.
  assert (Hdb : db (screen_store (typed_offline "Walk dog" "" "pending")) = Some 0%nat)
    by reflexivity.
  assert (Hf : faults (screen_store (typed_offline "Walk dog" "" "pending"))
               = [Some storage_down]) by reflexivity.
  split; [exact Hfilled|]. split; [exact Hdb|]. split; [exact Hf|].
  destruct (failed_save_stays_on_form trim_ascii None
              (typed_offline "Walk dog" "" "pending") 0%nat storage_down []
              Hfilled Hdb Hf) as (_ & _ & _ & Hnav & _).
  exact Hnav.
Defined.
End form_facts.

Section detail_facts.
Import TaskDetailScreen.
Implicit Types (s : Screen TaskDetail) (w : World) (taskId : Z).

Lemma detail_loadTask_run taskId s :
  let l := screen_state s in
  loadTask taskId s =
    match getTaskById taskId (screen_store s) with
    | (Resolved (Some task), w) =>
        (Resolved tt,
         {| screen_store := w;
            screen_state := {| detail_task := Some task; detail_loading := false |};
            screen_alerts := screen_alerts s;
            screen_navigation := screen_navigation s |})
    | (Resolved None, w) =>
        (Resolved tt,
         {| screen_store := w;
            screen_state := {| detail_task := detail_task l; detail_loading := false |};
            screen_alerts := screen_alerts s ++ [("Erro", "Tarefa não encontrada.")];
            screen_navigation := screen_navigation s ++ [GoBack] |})
    | (Thrown error, w) =>
        (Resolved tt,
         {| screen_store := w;
            screen_state := {| detail_task := detail_task l; detail_loading := false |};
            screen_alerts :=
              screen_alerts s ++
              [("Erro", "Não foi possível carregar os detalhes da tarefa.")];
            screen_navigation := screen_navigation s ++ [GoBack] |})
    | (Hangs, w) =>
        (Hangs,
         {| screen_store := w;
            screen_state := {| detail_task := detail_task l; detail_loading := true |};
            screen_alerts := screen_alerts s; screen_navigation := screen_navigation s |})
    end.
Proof.
  simpl. unfold loadTask, try_finally, try_catch. unfold bind at 1.
  rewrite in_store_run. simpl.
  by destruct (getTaskById taskId (screen_store s)) as [[[task|]|error|] w].
Qed.

(** X28.  The detail screen shows the task or leaves.  loadTask never
    throws.  On a healthy engine it ends loading and leaves the table as it
    was; when a row has the id, that row becomes the task on screen, with no
    alert and no navigation; when none has, the task on screen is left as it
    was (a task shown before stays), 'Tarefa não encontrada.' is alerted and
    the screen goes back.  When the read throws, on an opened store, loading
    ends, the task on screen is left as it was, the other error is alerted
    and the screen goes back. *)
Theorem detail_shows_task_or_leaves taskId s :
  (store_ok (screen_store s) -> healthy (faults (screen_store s)) ->
   let s' := snd (loadTask taskId s) in
   fst (loadTask taskId s) = Resolved tt /\
   rows (screen_store s') = rows (screen_store s) /\
   detail_loading (screen_state s') = false /\
   (forall row, row ∈ rows (screen_store s) -> id row = taskId ->
      detail_task (screen_state s') = Some row /\
      screen_alerts s' = screen_alerts s /\
      screen_navigation s' = screen_navigation s) /\
   (taskId ∉ map id (rows (screen_store s)) ->
      detail_task (screen_state s') = detail_task (screen_state s) /\
      screen_alerts s' = screen_alerts s ++ [("Erro", "Tarefa não encontrada.")] /\
      screen_navigation s' = screen_navigation s ++ [GoBack])) /\
  (forall database error fs,
   db (screen_store s) = Some database -> faults (screen_store s) = Some error :: fs ->
   let s' := snd (loadTask taskId s) in
   fst (loadTask taskId s) = Resolved tt /\
   file (screen_store s') = file (screen_store s) /\
   screen_state s' =
     {| detail_task := detail_task (screen_state s); detail_loading := false |} /\
   screen_alerts s' =
     screen_alerts s ++ [("Erro", "Não foi possível carregar os detalhes da tarefa.")] /\
   screen_navigation s' = screen_navigation s ++ [GoBack]).
Proof.
  split.
  - intros Hok Hh. simpl. rewrite detail_loadTask_run. cbv zeta.
    destruct (getTaskById_healthy taskId _ Hok Hh) as (w1 & -> & Hr1 & _).
    pose proof (ok_primary_key _ Hok) as Hkey.
    split_and!.
    + by destruct (head _).
    + by destruct (head _).
    + by destruct (head _).
    + intros row Hrow <-. by rewrite (head_filter_unique _ row Hkey Hrow).
    + intros Hmissing. by rewrite (filter_missing _ _ Hmissing).
  - intros database error fs Hdb Hf. simpl. rewrite detail_loadTask_run. cbv zeta.
    assert (getTaskById taskId (screen_store s)
            = (Thrown error,
               set_faults fs (call (GetFirstAsync database taskId) (screen_store s))))
      as ->; [|done].
    unfold getTaskById. unfold bind at 1.
    by rewrite (await_getDb_opened _ database Hdb), guarded,
      (getFirstAsync_fault database taskId _ error fs Hf).
Qed.

Lemma detail_shows_task_or_leaves_witness :
  store_ok (screen_store (mounted one_task)) /\
  healthy (faults (screen_store (mounted one_task))) /\
  buy_milk_row ∈ rows (screen_store (mounted one_task)) /\
  (2 ∉ map id (rows (screen_store (mounted one_task)))) /\
  detail_task (screen_state (snd (loadTask 1 (mounted one_task)))) = Some buy_milk_row /\
  screen_navigation (snd (loadTask 2 (mounted one_task)))
  = screen_navigation (mounted one_task) ++ [GoBack].
Proof.
  assert (Hrow : buy_milk_row ∈ rows (screen_store (mounted one_task))).
  { vm_compute. left. }
  assert (Hmissing : 2 ∉ map id (rows (screen_store (mounted one_task)))).
  { vm_compute. by intros [?|?%elem_of_nil]%elem_of_cons. }
  split; [exact one_task_ok|]. split; [exact one_task_healthy|].
  split; [exact Hrow|]. split; [exact Hmissing|].
  destruct (detail_shows_task_or_leaves 1 (mounted one_task)) as [Hone _].
  destruct (Hone one_task_ok one_task_healthy) as (_ & _ & _ & Hfound & _).
  destruct (Hfound buy_milk_row Hrow eq_refl) as (Htask & _).
  destruct (detail_shows_task_or_leaves 2 (mounted one_task)) as [Htwo _].
  destruct (Htwo one_task_ok one_task_healthy) as (_ & _ & _ & _ & Hgone).
  destruct (Hgone Hmissing) as (_ & _ & Hnav).
  split; [exact Htask | exact Hnav].
Defined.

Lemma detail_handleDeleteTask_run taskId pressed s :
  let confirmed :=
    {| screen_store := screen_store s; screen_state := screen_state s;
       screen_alerts :=
         screen_alerts s ++
         [("Confirmar Exclusão", "Tem certeza que deseja excluir esta tarefa?")];
       screen_navigation := screen_navigation s |} in
  handleDeleteTask taskId pressed s =
    match pressed with
    | PressedExcluir =>
        match deleteTask taskId (screen_store s) with
        | (Resolved _, w) =>
            (Resolved tt,
             {| screen_store := w; screen_state := screen_state s;
                screen_alerts :=
                  screen_alerts confirmed ++ [("Sucesso", "Tarefa excluída com sucesso!")];
                screen_navigation := screen_navigation s ++ [Navigate "TaskList"] |})
        | (Thrown error, w) =>
            (Resolved tt,
             {| screen_store := w; screen_state := screen_state s;
                screen_alerts :=
                  screen_alerts confirmed ++ [("Erro", "Não foi possível excluir a tarefa.")];
                screen_navigation := screen_navigation s |})
        | (Hangs, w) => (Hangs, set_screen_store w confirmed)
        end
    | _ => (Resolved tt, confirmed)
    end.
Proof.
  simpl. unfold handleDeleteTask. unfold bind at 1. unfold Alert_box at 1.
  destruct pressed; [done| |done].
  unfold try_catch, bind. rewrite in_store_run. simpl.
  by destruct (deleteTask taskId (screen_store s)) as [[result|error|] w].
Qed.

(** X29.  Deleting from the detail screen asks first and then returns to
    the list.  Unless the user presses 'Excluir', nothing but the
    confirmation alert happens.  After 'Excluir', on a healthy engine, no row
    of the table has the id any more, the other rows are kept, the success
    alert follows the confirmation and the screen navigates to 'TaskList';
    the success alert and the navigation happen whether or not a row had the
    id.  When the delete throws, on an opened store, the file is as it was,
    the error alert follows the confirmation and the screen is not left. *)
Theorem detail_delete_asks_then_returns taskId s :
  let confirm := ("Confirmar Exclusão", "Tem certeza que deseja excluir esta tarefa?") in
  (forall pressed, pressed <> PressedExcluir ->
   handleDeleteTask taskId pressed s =
     (Resolved tt,
      {| screen_store := screen_store s; screen_state := screen_state s;
         screen_alerts := screen_alerts s ++ [confirm];
         screen_navigation := screen_navigation s |})) /\
  (store_ok (screen_store s) -> healthy (faults (screen_store s)) ->
   let s' := snd (handleDeleteTask taskId PressedExcluir s) in
   rows (screen_store s') =
     filter (fun row => has_id taskId row = false) (rows (screen_store s)) /\
   (taskId ∉ map id (rows (screen_store s'))) /\
   screen_alerts s' =
     screen_alerts s ++ [confirm; ("Sucesso", "Tarefa excluída com sucesso!")] /\
   screen_navigation s' = screen_navigation s ++ [Navigate "TaskList"]) /\
  (forall database error fs,
   db (screen_store s) = Some database -> faults (screen_store s) = Some error :: fs ->
   let s' := snd (handleDeleteTask taskId PressedExcluir s) in
   file (screen_store s') = file (screen_store s) /\
   screen_alerts s' =
     screen_alerts s ++ [confirm; ("Erro", "Não foi possível excluir a tarefa.")] /\
   screen_navigation s' = screen_navigation s).
Proof.
  simpl. split_and!.
  - intros pressed Hno. rewrite detail_handleDeleteTask_run. by destruct pressed.
  - intros Hok Hh. rewrite detail_handleDeleteTask_run. cbv zeta.
    destruct (store_write_healthy (DELETE taskId) _ _ _ _ _ Hok Hh eq_refl)
      as (w1 & Hdel & Hr1 & _).
    rewrite deleteTask_write, Hdel. simpl. rewrite Hr1.
    split_and!; try done.
    + apply deleted_is_missing.
    + by rewrite <- (assoc_L (++)).
  - intros database error fs Hdb Hf. rewrite detail_handleDeleteTask_run. cbv zeta.
    rewrite deleteTask_write, (store_write_fault _ _ database error fs Hdb Hf).
    simpl. split_and!; try done. by rewrite <- (assoc_L (++)).
Qed.

Lemma detail_delete_asks_then_returns_witness :
  Dismissed <> PressedExcluir /\
  store_ok (screen_store detailed) /\ healthy (faults (screen_store detailed)) /\
  handleDeleteTask 1 Dismissed detailed =
    (Resolved tt,
     {| screen_store := screen_store detailed; screen_state := screen_state detailed;
        screen_alerts :=
          screen_alerts detailed ++
          [("Confirmar Exclusão", "Tem certeza que deseja excluir esta tarefa?")];
        screen_navigation := screen_navigation detailed |}) /\
  screen_navigation (snd (handleDeleteTask 1 PressedExcluir detailed))
  = screen_navigation detailed ++ [Navigate "TaskList"].
Proof.
  assert (Hno : Dismissed <> PressedExcluir) by discriminate.
  assert (Hok : store_ok (screen_store detailed)).
  { apply (store_ok_opened _ 0%nat (rows one_task)); try (vm_compute; reflexivity).
    vm_compute. apply NoDup_singleton. }
  assert (Hh : healthy (faults (screen_store detailed))).
  { vm_compute. constructor. }
  split; [exact Hno|]. split; [exact Hok|]. split; [exact Hh|].
  destruct (detail_delete_asks_then_returns 1 detailed) as (Hcancel & Hdelete & _).
  destruct (Hdelete Hok Hh) as (_ & _ & _ & Hnav).
  split; [exact (Hcancel Dismissed Hno) | exact Hnav].
Defined.
End detail_facts.

(** * The statuses, in the running app *)

Section status_claim_app.
Implicit Types (a : Running) (w : World) (e : UserEvent).

Lemma initialize_store (root : AppState) :
  app_store (snd (initialize root)) = snd (await getDb (app_store root)).
Proof.
  unfold initialize, try_catch, bind, lifted.
  by destruct (await getDb (app_store root)) as [[database|error|] w1].
Qed.

Lemma initialize_clean file0 fs :
  all_enumerated (rows (start file0 fs)) ->
  clean (app_store (snd (initialize (launch file0 fs)))).
Proof.
  intros Hall. rewrite initialize_store.
  change (app_store (launch file0 fs)) with (start file0 fs). split.
  - by destruct (await_getDb_frame (start file0 fs)) as (-> & _).
  - apply await_getDb_log. constructor.
Qed.

Lemma form_loadTask_keeps i (s : Screen TaskForm) :
  clean (screen_store s) -> enumerated (form_status (screen_state s)) ->
  clean (screen_store (snd (TaskFormScreen.loadTask i s))) /\
  enumerated (form_status (screen_state (snd (TaskFormScreen.loadTask i s)))).
Proof.
  intros Hclean Hstatus. rewrite form_loadTask_run. cbv zeta.
  pose proof (getTaskById_clean i _ Hclean) as Hclean1.
  destruct (getTaskById i (screen_store s)) as [[[task|]|error|] w] eqn:Hget;
    simpl in *; try done.
  split; [done|].
  destruct (getTaskById_found _ _ _ _ Hget) as [Hin _].
  destruct Hclean1 as [Hall _]. unfold all_enumerated in Hall.
  rewrite Forall_forall in Hall. by apply Hall.
Qed.

Lemma handleSaveTask_keeps trim taskId (s : Screen TaskForm) :
  clean (screen_store s) -> enumerated (form_status (screen_state s)) ->
  clean (screen_store (snd (TaskFormScreen.handleSaveTask trim taskId s))) /\
  enumerated
    (form_status (screen_state (snd (TaskFormScreen.handleSaveTask trim taskId s)))).
Proof.
  intros Hclean Hstatus.
  destruct (decide (trim (form_title (screen_state s)) = "")) as [Hblank|Hfilled].
  - unfold TaskFormScreen.handleSaveTask.
    by destruct (decide _) as [_|Hfilled].
  - rewrite (handleSaveTask_run trim taskId s Hfilled). cbv zeta.
    destruct (given_id taskId) as [task_id|].
    + pose proof (store_write_clean
                    (UPDATE (form_title (screen_state s))
                       (Some (form_description (screen_state s)))
                       (form_status (screen_state s)) task_id)
                    _ Hstatus Hclean) as Hclean1.
      rewrite updateTask_unchecked_write.
      by destruct (store_write _ (screen_store s)) as [[result|error|] w].
    + pose proof (store_write_clean
                    (INSERT (form_title (screen_state s))
                       (form_description (screen_state s)) "pending")
                    _ (or_introl eq_refl) Hclean) as Hclean1.
      rewrite addTask_write.
      by destruct (store_write _ (screen_store s)) as [[result|error|] w].
Qed.

Lemma detail_loadTask_keeps i (s : Screen TaskDetail) :
  clean (screen_store s) -> clean (screen_store (snd (TaskDetailScreen.loadTask i s))).
Proof.
  intros Hclean. rewrite detail_loadTask_run. cbv zeta.
  pose proof (getTaskById_clean i _ Hclean) as Hclean1.
  by destruct (getTaskById i (screen_store s)) as [[[task|]|error|] w].
Qed.

Lemma detail_handleDeleteTask_keeps i pressed (s : Screen TaskDetail) :
  clean (screen_store s) ->
  clean (screen_store (snd (TaskDetailScreen.handleDeleteTask i pressed s))).
Proof.
  intros Hclean. rewrite detail_handleDeleteTask_run. cbv zeta.
  destruct pressed; [done| |done].
  pose proof (store_write_clean (DELETE i) _ I Hclean) as Hclean1.
  rewrite deleteTask_write.
  by destruct (store_write _ (screen_store s)) as [[result|error|] w].
Qed.

Lemma handle_keeps trim e a :
  clean (running_store a) -> enumerated (form_status (on_form a)) ->
  clean (running_store (handle trim e a)) /\
  enumerated (form_status (on_form (handle trim e a))).
Proof.
  intros Hclean Hstatus.
  destruct e as [action|taskId|v|v|b| |taskId| |pressed]; simpl.
  - split; [|done].
    apply (act_keeps clean); [apply store_write_clean|apply getTasks_clean|done].
  - unfold TaskFormScreen.on_mount. destruct (given_id taskId) as [task_id|].
    + apply form_loadTask_keeps; [done|by left].
    + split; [done|by left].
  - done.
  - done.
  - split; [done|]. destruct b; [by left|by right].
  - by apply handleSaveTask_keeps.
  - split; [|done]. by apply detail_loadTask_keeps.
  - split; [|done]. by apply detail_loadTask_keeps.
  - split; [|done]. by apply detail_handleDeleteTask_keeps.
Qed.

(** C7.  Every row has a status of the enumeration, and no other value is
    ever written.  The app finds a file whose rows (if it has any: a fresh
    install has no table) have the status 'pending' or 'completed'.  Then
    after the root effect and any sequence of events on the three screens,
    with any arguments, any text typed and whatever the engine makes fail on
    the way, every row of the table has the status 'pending' or 'completed',
    and every INSERT and UPDATE the engine was asked to run since the process
    started binds 'pending' or 'completed' as the status. *)
Theorem status_is_always_enumerated trim events file0 fs :
  all_enumerated (rows (start file0 fs)) ->
  all_enumerated (rows (running_store (handle_all trim events (started file0 fs)))) /\
  Forall call_enumerated (calls (running_store (handle_all trim events (started file0 fs)))).
Proof.
  intros Hall.
  assert (Hstart : clean (running_store (started file0 fs)) /\
                   enumerated (form_status (on_form (started file0 fs)))).
  { split; [by apply initialize_clean|by left]. }
  change (clean (running_store (handle_all trim events (started file0 fs)))).
  unfold handle_all. revert Hstart. generalize (started file0 fs).
  induction events as [|e events IH]; intros a [Hclean Hstatus]; simpl; [done|].
  by apply IH, handle_keeps.
Qed.

Lemma status_is_always_enumerated_witness :
  all_enumerated
    (rows (start fresh_install [None; None; None; None; None; Some storage_down])) /\
  all_enumerated
    (rows (running_store
             (handle_all trim_ascii
                [OpenForm None; ChangeTitle "Buy milk"; PressStatus CompletedButton;
                 PressSave; OnList TaskListScreen.Focus;
                 OnList (TaskListScreen.Toggle 1 (Some "archived"));
                 OpenForm (Some 1); ChangeDescription "2 l"; PressSave;
                 OpenDetail 1; PressDelete PressedExcluir]
                (started fresh_install
                   [None; None; None; None; None; Some storage_down])))).
Proof.
  assert (Hall : all_enumerated
                   (rows (start fresh_install
                            [None; None; None; None; None; Some storage_down])))
    by constructor.
  split; [exact Hall|].
  exact (proj1 (status_is_always_enumerated trim_ascii _ fresh_install
                  [None; None; None; None; None; Some storage_down] Hall)).
Defined.
End status_claim_app.
